(** * move-chat: the session migration transaction, embedded and verified

    A shallow embedding of [move-chat.py]: the path encoder, the session
    index store, the session locator and the migration transaction
    ([move_session]) with its rollback handler.

    Modelling choices.
    - A Python [str] is a [string]; the characters the encoder looks at
      (['/'], ['@'], ['.']) are ASCII, so the UTF-8 bytes of a [str] are
      transformed exactly as its code points are.
    - A value produced by [json.load] is a [json] term; a Python [dict] is
      an association list in insertion order ([json.dump] writes it in that
      order).
    - The file system below [PROJECTS_DIR] is a tree of [node]s whose
      directories are finite maps from names to nodes. A [pathlib.Path]
      below [PROJECTS_DIR] is the list of its components. Project
      directory names come out of [encode_path] (never empty, no ['/'],
      no ['.'], because [main] only calls [move_session] with non-empty
      arguments); a session identifier is taken to be a plain file name.
    - A file either holds a JSON document (written by [json.dump] or
      accepted by [json.load], identified by the value [json.load]
      returns) or other bytes, on which [json.load] raises.
    - Effects are threaded through a state-and-exception monad over a
      [world]: the tree, the number of clock readings and of file-system
      calls made so far, the lines printed, and the list of file-system
      changes performed. The environment [env] supplies the clock and
      decides which file-system calls fail (and what a failing call leaves
      behind), so that every claim about failures quantifies over it. *)

From Stdlib Require Import Ascii String.
From stdpp Require Import gmap strings list fin_maps.

Set Warnings "-register-all".
Open Scope string_scope.

(** ** Python values read from and written to JSON *)

(** A [str] is held as the bytes of its UTF-8 encoding. *)
Inductive json :=
| JNull
| JBool (b : bool)
| JNum (n : Z)
| JStr (s : string)
| JArr (l : list json)
| JObj (kvs : list (string * json)).

(** [d.get(k)]: the value of the first binding of [k]. *)
Fixpoint dict_get (k : string) (kvs : list (string * json)) : option json :=
  match kvs with
  | [] => None
  | (k', v) :: rest => if String.eqb k k' then Some v else dict_get k rest
  end.

(** [d[k] = v]: overwrite in place when [k] is bound, append otherwise. *)
Fixpoint dict_set (k : string) (v : json) (kvs : list (string * json))
  : list (string * json) :=
  match kvs with
  | [] => [(k, v)]
  | (k', v') :: rest =>
      if String.eqb k k' then (k', v) :: rest else (k', v') :: dict_set k v rest
  end.

(** [x == s] for a Python value [x] (or a missing one, [None]) and a [str]. *)
Definition py_eq_str (x : option json) (s : string) : bool :=
  match x with
  | Some (JStr s') => String.eqb s' s
  | _ => false
  end.

(** Truthiness of a Python value, as [or] tests it. *)
Definition truthy (x : json) : bool :=
  match x with
  | JNull => false
  | JBool b => b
  | JNum n => negb (Z.eqb n 0)
  | JStr s => negb (String.eqb s EmptyString)
  | JArr l => match l with [] => false | _ => true end
  | JObj kvs => match kvs with [] => false | _ => true end
  end.

(** ** Exceptions *)

Inductive oserror :=
| ENOENT      (* FileNotFoundError *)
| EEXIST      (* FileExistsError *)
| EISDIR      (* IsADirectoryError *)
| ENOTDIR     (* NotADirectoryError *)
| ESAMEFILE   (* shutil.SameFileError *)
| EIO.        (* any failure decided by the environment *)

(** [JSONDecodeError] stands for the [ValueError] with which [json.load]
    rejects a file: [json.JSONDecodeError], or [UnicodeDecodeError] when
    the bytes are not text in the encoding [open] uses. Both are caught
    by [except Exception] alike. *)
Inductive exn :=
| SystemExit (code : Z)
| OSError (e : oserror)
| JSONDecodeError
| AttributeError
| TypeError
| KeyError.

(** [except Exception] catches everything but [SystemExit]. *)
Definition is_Exception (e : exn) : bool :=
  match e with
  | SystemExit _ => false
  | _ => true
  end.

Inductive outcome (A : Type) :=
| Ok (a : A)
| Raise (e : exn).
Arguments Ok {A} a.
Arguments Raise {A} e.

(** The line feed. *)
Definition nl : string := String (ascii_of_nat 10) EmptyString.

(** ** Path encoder *)

(** [s.replace(old, new)] for one-character [old] and [new]. *)
Fixpoint str_replace_char (old new : ascii) (s : string) : string :=
  match s with
  | EmptyString => EmptyString
  | String c rest =>
      String (if Ascii.eqb c old then new else c) (str_replace_char old new rest)
  end.

(** [re.sub("[...]", new, s)] for a character class and a one-character
    replacement. *)
Fixpoint re_sub_class (cls : list ascii) (new : ascii) (s : string) : string :=
  match s with
  | EmptyString => EmptyString
  | String c rest =>
      String (if existsb (Ascii.eqb c) cls then new else c)
             (re_sub_class cls new rest)
  end.

Definition encode_path (path : string) : string :=
  let encoded := str_replace_char "/" "-" path in
  let encoded := re_sub_class ["@"; "."]%char "-" encoded in
  encoded.

(** The encoder as the specification words it: one pass that turns the
    path separator, ['@'] and ['.'] into a hyphen and keeps every other
    character. *)
Definition encode_char (c : ascii) : ascii :=
  if (Ascii.eqb c "/" || Ascii.eqb c "@" || Ascii.eqb c ".")%bool
  then "-"%char else c.

Fixpoint string_map (f : ascii → ascii) (s : string) : string :=
  match s with
  | EmptyString => EmptyString
  | String c rest => String (f c) (string_map f rest)
  end.

Definition encode_spec (path : string) : string := string_map encode_char path.

(** ** Session locator *)

(** What [enumerate(x)] iterates over; [None] when [x] is not iterable. *)
Definition py_iter (x : json) : option (list json) :=
  match x with
  | JArr l => Some l
  | JStr s => Some ((λ c, JStr (String c EmptyString)) <$> list_ascii_of_string s)
  | JObj kvs => Some ((λ kv, JStr kv.1) <$> kvs)
  | _ => None
  end.

(** The loop of [find_session_in_index], from position [i] on. An element
    that is not a [dict] has no [get]. *)
Fixpoint scan_entries (session_id : string) (i : nat) (l : list json)
  : outcome (option (nat * json)) :=
  match l with
  | [] => Ok None
  | session :: rest =>
      match session with
      | JObj kvs =>
          if py_eq_str (dict_get "sessionId" kvs) session_id
          then Ok (Some (i, session))
          else scan_entries session_id (S i) rest
      | _ => Raise AttributeError
      end
  end.

Definition find_session_in_index (index : json) (session_id : string)
  : outcome (option (nat * json)) :=
  match index with
  | JObj kvs =>
      match py_iter (default (JArr []) (dict_get "entries" kvs)) with
      | Some l => scan_entries session_id 0 l
      | None => Raise TypeError
      end
  | _ => Raise AttributeError
  end.

(** ** The file system *)

Inductive content :=
| Raw (bytes : string)
| Doc (j : json).

Inductive node :=
| File (c : content)
| Dir (children : gmap string node).

Abbreviation Path := (list string).

(** [p / name] for a [name] that is one path component. *)
Definition joinpath (p : Path) (name : string) : Path := p ++ [name].
Infix "</>" := joinpath (at level 40, left associativity).

Fixpoint has_char (c : ascii) (s : string) : bool :=
  match s with
  | EmptyString => false
  | String a s' => Ascii.eqb a c || has_char c s'
  end.

(** The names that [pathlib] takes as one component below the directory
    they are joined to: not empty and not ["."] (which [/] drops), not
    [".."] (the parent), and without ['/'] (several components, or an
    absolute path that replaces the directory). For these, and only for
    these, [joinpath] is [/] and [str_path] is [str]. A statement about
    where a path made from a session identifier leads has [plain_name]
    of the identifier among its hypotheses. *)
Definition plain_name (name : string) : bool :=
  negb (String.eqb name EmptyString)
  && negb (String.eqb name ".")
  && negb (String.eqb name "..")
  && negb (has_char "/" name).

Fixpoint lookup_path (n : node) (p : Path) : option node :=
  match p with
  | [] => Some n
  | c :: p' =>
      match n with
      | Dir ch =>
          match ch !! c with
          | Some n' => lookup_path n' p'
          | None => None
          end
      | File _ => None
      end
  end.

(** Replace what is at [p] by [x] ([None]: remove it). Nothing happens
    when the parent of [p] is not a directory of the tree. *)
Fixpoint update_path (x : option node) (n : node) (p : Path) : node :=
  match p with
  | [] => n
  | c :: p' =>
      match n with
      | Dir ch =>
          match p' with
          | [] => Dir (partial_alter (λ _, x) c ch)
          | _ :: _ =>
              match ch !! c with
              | Some n' => Dir (<[c := update_path x n' p']> ch)
              | None => n
              end
          end
      | File _ => n
      end
  end.

(** [os.makedirs(p, exist_ok=True)] on the subtree [n] ([None]: nothing
    there yet); [None] as a result is a failure on a non-directory. *)
Fixpoint makedirs (n : option node) (p : Path) : option node :=
  match n with
  | Some (File _) => None
  | None => Some (foldr (λ c acc, Dir {[c := acc]}) (Dir ∅) p)
  | Some (Dir ch) =>
      match p with
      | [] => Some (Dir ch)
      | c :: p' =>
          match makedirs (ch !! c) p' with
          | Some n' => Some (Dir (<[c := n']> ch))
          | None => None
          end
      end
  end.

(** The last component of a path, [os.path.basename]. *)
Definition basename (p : Path) : string := default EmptyString (last p).

(** ** Worlds and the environment *)

(** A file-system change. *)
Inductive op :=
| Mkdir (p : Path)
| Write (p : Path)
| Copy2 (src dst : Path)
| Copytree (src dst : Path)
| Unlink (p : Path)
| Rmtree (p : Path).

(** A change and whether the call completed ([false]: it raised after
    leaving part of its effect behind). Calls that fail without any effect
    are not recorded. *)
Definition event : Type := op * bool.

(** A printed line. [Summary v] is the line [print(f"Summary: {v}")],
    [Failure prefix e] the line [print(f"{prefix}{e}")] for an exception. *)
Inductive line :=
| Text (s : string)
| Summary (v : json)
| Failure (prefix : string) (e : exn).

(** What the environment decides for one file-system call. *)
Inductive fault :=
| NoFault
| FailClean                    (* raises, nothing changed *)
| FailPartial (residue : node). (* raises, the target is left as [residue] *)

Record env := Env {
  projects_dir : string;   (* str(PROJECTS_DIR) *)
  now : nat → string;      (* the n-th value of datetime.now().isoformat() *)
  io : nat → fault;        (* the fate of the n-th file-system call *)
}.

Record world := World {
  fs : node;
  ticks : nat;
  calls : nat;
  stdout : list line;
  trace : list event;
}.

Definition init (t : node) : world :=
  {| fs := t; ticks := 0; calls := 0; stdout := []; trace := [] |}.

Definition M (A : Type) : Type := world → outcome A * world.

Definition ret {A} (a : A) : M A := λ w, (Ok a, w).

Definition bind {A B} (m : M A) (k : A → M B) : M B :=
  λ w, match m w with
       | (Ok a, w') => k a w'
       | (Raise e, w') => (Raise e, w')
       end.

Definition raise {A} (e : exn) : M A := λ w, (Raise e, w).

(** [try: body except Exception as e: handler(e)]. *)
Definition try_except {A} (body : M A) (handler : exn → M A) : M A :=
  λ w, match body w with
       | (Raise e, w') =>
           if is_Exception e then handler e w' else (Raise e, w')
       | r => r
       end.

Definition lift {A} (r : outcome A) : M A := λ w, (r, w).

Definition when (b : bool) (m : M unit) : M unit := if b then m else ret tt.

Declare Scope prog_scope.
Delimit Scope prog_scope with prog.
Bind Scope prog_scope with M.
Notation "x ← y ; z" := (bind y (λ x, z))
  (at level 20, y at level 100, z at level 200, only parsing) : prog_scope.
Notation "y ;; z" := (bind y (λ _, z))
  (at level 100, z at level 200, right associativity, only parsing) : prog_scope.
Open Scope prog_scope.

Definition print (s : string) : M unit :=
  λ w, (Ok tt, {| fs := fs w; ticks := ticks w; calls := calls w;
                  stdout := stdout w ++ [Text s]; trace := trace w |}).

Definition print_line (l : line) : M unit :=
  λ w, (Ok tt, {| fs := fs w; ticks := ticks w; calls := calls w;
                  stdout := stdout w ++ [l]; trace := trace w |}).

Definition sys_exit {A} (code : Z) : M A := raise (SystemExit code).

Definition set_fs (t : node) : M unit :=
  λ w, (Ok tt, {| fs := t; ticks := ticks w; calls := calls w;
                  stdout := stdout w; trace := trace w |}).

Definition record (o : op) (done : bool) : M unit :=
  λ w, (Ok tt, {| fs := fs w; ticks := ticks w; calls := calls w;
                  stdout := stdout w; trace := trace w ++ [(o, done)] |}).

Definition stat (p : Path) : M (option node) := λ w, (Ok (lookup_path (fs w) p), w).

Definition put_path (p : Path) (x : option node) : M unit :=
  λ w, set_fs (update_path x (fs w) p) w.

Definition parent (p : Path) : Path := removelast p.

(** ** The program *)

Section Program.

Variable E : env.

(** The environment's decision for the next file-system call. *)
Definition io_fault : M fault :=
  λ w, (Ok (io E (calls w)),
        {| fs := fs w; ticks := ticks w; calls := S (calls w);
           stdout := stdout w; trace := trace w |}).

(** [datetime.now().isoformat()]. *)
Definition now_isoformat : M string :=
  λ w, (Ok (now E (ticks w)),
        {| fs := fs w; ticks := S (ticks w); calls := calls w;
           stdout := stdout w; trace := trace w |}).

(** [p.exists()], for a path whose [stat] either succeeds or reports
    that there is nothing: the test is not a call the environment can
    fail. ([exists] re-raises other errors of [stat], such as a name that
    is too long or a directory that cannot be searched; statements about
    what follows a test are made with the proviso that no file-system
    call fails.) *)
Definition path_exists (p : Path) : M bool :=
  n ← stat p;
  ret (match n with Some _ => true | None => false end).

(** What a call does once its arguments have been accepted: the whole
    effect, nothing, or a residue at the target. *)
Definition commit (f : fault) (o : op) (target : Path) (x : option node)
  : M unit :=
  match f with
  | NoFault => put_path target x;; record o true
  | FailClean => raise (OSError EIO)
  | FailPartial r => put_path target (Some r);; record o false;; raise (OSError EIO)
  end.

(** [p.mkdir(parents=True, exist_ok=True)]. *)
Definition mkdir_parents (p : Path) : M unit :=
  f ← io_fault;
  match f with
  | NoFault =>
      t ← (λ w, (Ok (fs w), w));
      match makedirs (Some t) p with
      | Some t' => set_fs t';; record (Mkdir p) true
      | None => raise (OSError EEXIST)
      end
  | _ => raise (OSError EIO)
  end.

(** [with open(p, "r") as f: return json.load(f)]. A file that does not
    hold a JSON document is rejected with the [ValueError] that
    [JSONDecodeError] stands for. *)
Definition read_json (p : Path) : M json :=
  f ← io_fault;
  n ← stat p;
  match f, n with
  | NoFault, Some (File (Doc j)) => ret j
  | NoFault, Some (File (Raw _)) => raise JSONDecodeError
  | NoFault, Some (Dir _) => raise (OSError EISDIR)
  | NoFault, None => raise (OSError ENOENT)
  | _, _ => raise (OSError EIO)
  end.

(** [with open(p, "w") as f: json.dump(j, f, indent=2)]. *)
Definition write_json (p : Path) (j : json) : M unit :=
  f ← io_fault;
  d ← stat (parent p);
  n ← stat p;
  match d, n with
  | Some (Dir _), Some (Dir _) => raise (OSError EISDIR)
  | Some (Dir _), _ => commit f (Write p) p (Some (File (Doc j)))
  | Some (File _), _ => raise (OSError ENOTDIR)
  | None, _ => raise (OSError ENOENT)
  end.

(** [shutil.copy2(src, dst)]: into [dst] when it is a directory;
    [SameFileError] when source and target are the same file. *)
Definition copy2 (src dst : Path) : M unit :=
  f ← io_fault;
  d ← stat dst;
  let dst := match d with Some (Dir _) => dst </> basename src | _ => dst end in
  s ← stat src;
  match s with
  | None => raise (OSError ENOENT)
  | Some s' =>
      if bool_decide (src = dst) then raise (OSError ESAMEFILE)
      else match s' with
           | Dir _ => raise (OSError EISDIR)
           | File c =>
               d ← stat (parent dst);
               n ← stat dst;
               match d, n with
               | Some (Dir _), Some (Dir _) => raise (OSError EISDIR)
               | Some (Dir _), _ => commit f (Copy2 src dst) dst (Some (File c))
               | Some (File _), _ => raise (OSError ENOTDIR)
               | None, _ => raise (OSError ENOENT)
               end
           end
  end.

(** [shutil.copytree(src, dst)]: [src] is scanned, [dst] is made (it must
    not exist; missing parents are made too), then everything is copied. *)
Definition copytree (src dst : Path) : M unit :=
  f ← io_fault;
  s ← stat src;
  match s with
  | None => raise (OSError ENOENT)
  | Some (File _) => raise (OSError ENOTDIR)
  | Some (Dir ch) =>
      n ← stat dst;
      match n with
      | Some _ => raise (OSError EEXIST)
      | None =>
          t ← (λ w, (Ok (fs w), w));
          match makedirs (Some t) dst with
          | None => raise (OSError ENOTDIR)
          | Some t' =>
              match f with
              | FailClean => raise (OSError EIO)
              | _ => set_fs t';; commit f (Copytree src dst) dst (Some (Dir ch))
              end
          end
      end
  end.

(** [p.unlink()]. *)
Definition unlink (p : Path) : M unit :=
  f ← io_fault;
  n ← stat p;
  match n with
  | None => raise (OSError ENOENT)
  | Some (Dir _) => raise (OSError EISDIR)
  | Some (File _) =>
      match f with
      | NoFault => put_path p None;; record (Unlink p) true
      | _ => raise (OSError EIO)
      end
  end.

(** [shutil.rmtree(p)]. *)
Definition rmtree (p : Path) : M unit :=
  f ← io_fault;
  n ← stat p;
  match n with
  | None => raise (OSError ENOENT)
  | Some (File _) => raise (OSError ENOTDIR)
  | Some (Dir _) => commit f (Rmtree p) p None
  end.

Definition PROJECTS_DIR : Path := [].

(** [str(p)] for a path below [PROJECTS_DIR] whose components are plain
    names. *)
Definition str_path (p : Path) : string :=
  foldl (λ acc c, acc ++ "/" ++ c) (projects_dir E) p.

Definition get_project_dir (project_path : string) : Path :=
  let encoded := encode_path project_path in
  PROJECTS_DIR </> encoded.

Definition empty_index (original_path : option string) : json :=
  JObj [("version", JNum 1); ("entries", JArr []);
        ("originalPath",
         JStr (match original_path with
               | Some s => if String.eqb s EmptyString then EmptyString else s
               | None => EmptyString
               end))].

Definition load_sessions_index (project_dir : Path)
    (original_path : option string) : M json :=
  let index_path := project_dir </> "sessions-index.json" in
  present ← path_exists index_path;
  if negb present then ret (empty_index original_path)
  else read_json index_path.

Definition save_sessions_index (project_dir : Path) (index : json) : M unit :=
  let index_path := project_dir </> "sessions-index.json" in
  write_json index_path index.

Definition create_session_entry (session_id : string) (project_dir : Path)
    (project_path : string) : M json :=
  let jsonl_path := project_dir </> (session_id ++ ".jsonl") in
  created ← now_isoformat;
  modified ← now_isoformat;
  ret (JObj [("sessionId", JStr session_id);
              ("fullPath", JStr (str_path jsonl_path));
              ("projectPath", JStr project_path);
              ("summary", JStr "Migrated session");
              ("created", JStr created);
              ("modified", JStr modified)]).

(** A byte that continues a UTF-8 sequence: [10xxxxxx]. *)
Definition is_continuation (c : ascii) : bool :=
  match c with
  | Ascii _ _ _ _ _ _ b6 b7 => b7 && negb b6
  end.

(** [s[:n]] for a [str]: its first [n] code points. *)
Fixpoint take_code_points (n : nat) (s : string) : string :=
  match s with
  | EmptyString => EmptyString
  | String c s' =>
      if is_continuation c then String c (take_code_points n s')
      else match n with
           | O => EmptyString
           | S n' => String c (take_code_points n' s')
           end
  end.

(** [x[:60]]. A value that cannot be sliced raises [TypeError] (for a
    [dict], [KeyError] from Python 3.12 on; both are caught alike). *)
Definition py_slice60 (x : json) : outcome json :=
  match x with
  | JStr s => Ok (JStr (take_code_points 60 s))
  | JArr l => Ok (JArr (take 60 l))
  | _ => Raise TypeError
  end.

(** [session_data.get('summary') or
     session_data.get('firstPrompt', 'No summary')[:60]]. *)
Definition summary_of (session_data : json) : outcome json :=
  match session_data with
  | JObj kvs =>
      let s := default JNull (dict_get "summary" kvs) in
      if truthy s then Ok s
      else py_slice60 (default (JStr "No summary") (dict_get "firstPrompt" kvs))
  | _ => Raise AttributeError
  end.

(** [d = session_data.copy(); d[k] = JStr v]. *)
Definition entry_set (k v : string) (session_data : json) : outcome json :=
  match session_data with
  | JObj kvs => Ok (JObj (dict_set k (JStr v) kvs))
  | _ => Raise TypeError
  end.

(** [index["entries"].append(x)]. *)
Definition append_entry (index x : json) : outcome json :=
  match index with
  | JObj kvs =>
      match dict_get "entries" kvs with
      | None => Raise KeyError
      | Some (JArr l) => Ok (JObj (dict_set "entries" (JArr (l ++ [x])) kvs))
      | Some _ => Raise AttributeError
      end
  | _ => Raise TypeError
  end.

(** [index["entries"].pop(i)]. *)
Definition pop_entry (index : json) (i : nat) : outcome json :=
  match index with
  | JObj kvs =>
      match dict_get "entries" kvs with
      | None => Raise KeyError
      | Some (JArr l) =>
          if bool_decide (i < length l)%nat
          then Ok (JObj (dict_set "entries" (JArr (delete i l)) kvs))
          else Raise KeyError
      | Some _ => Raise AttributeError
      end
  | _ => Raise TypeError
  end.

(** [[s for s in l if s.get("sessionId") != session_id]]. *)
Fixpoint keep_others (session_id : string) (l : list json)
  : outcome (list json) :=
  match l with
  | [] => Ok []
  | s :: rest =>
      match s with
      | JObj kvs =>
          match keep_others session_id rest with
          | Ok rest' =>
              Ok (if py_eq_str (dict_get "sessionId" kvs) session_id
                  then rest' else s :: rest')
          | Raise e => Raise e
          end
      | _ => Raise AttributeError
      end
  end.

(** [index["entries"] = [s for s in index.get("entries", []) if ...]]. *)
Definition without_session (index : json) (session_id : string)
  : outcome json :=
  match index with
  | JObj kvs =>
      match py_iter (default (JArr []) (dict_get "entries" kvs)) with
      | Some l =>
          match keep_others session_id l with
          | Ok l' => Ok (JObj (dict_set "entries" (JArr l') kvs))
          | Raise e => Raise e
          end
      | None => Raise TypeError
      end
  | _ => Raise AttributeError
  end.

(** [move_session], lines 185-211: the [if dry_run:] block. *)
Definition dry_run_report (session_idx : option nat)
    (dest_dir source_jsonl dest_jsonl source_subdir dest_subdir : Path)
  : M unit :=
  print ("DRY RUN - No changes will be made" ++ nl);;
  dest_ok ← path_exists dest_dir;
  when (negb dest_ok)
    (print ("Would create destination directory: " ++ str_path dest_dir));;
  has_jsonl ← path_exists source_jsonl;
  (if has_jsonl
   then print ("Would copy: " ++ str_path source_jsonl ++ " -> " ++ str_path dest_jsonl)
   else print ("Warning: Source JSONL does not exist: " ++ str_path source_jsonl)
   : M unit);;
  has_subdir ← path_exists source_subdir;
  when has_subdir
    (print ("Would copy: " ++ str_path source_subdir ++ "/ -> "
            ++ str_path dest_subdir ++ "/"));;
  print "Would add session to destination sessions-index.json";;
  (match session_idx with
   | Some _ => print "Would remove session from source sessions-index.json"
   | None => print "Session not in source index, no index update needed"
   end : M unit);;
  has_jsonl ← path_exists source_jsonl;
  when has_jsonl (print ("Would delete: " ++ str_path source_jsonl));;
  has_subdir ← path_exists source_subdir;
  when has_subdir (print ("Would delete: " ++ str_path source_subdir ++ "/"));;
  print (nl ++ "Dry run complete.").

(** [move_session], lines 215-221. Step 1: Copy JSONL file. *)
Definition copy_jsonl (verbose : bool) (source_jsonl dest_jsonl : Path) : M unit :=
  has_jsonl ← path_exists source_jsonl;
  if has_jsonl
  then when verbose
         (print ("Copying " ++ str_path source_jsonl ++ " -> " ++ str_path dest_jsonl));;
       copy2 source_jsonl dest_jsonl
  else print ("Warning: Source JSONL does not exist: " ++ str_path source_jsonl).

(** [move_session], lines 223-227. Step 2: Copy session subdirectory if
    exists. *)
Definition copy_subdir (verbose : bool) (source_subdir dest_subdir : Path)
  : M unit :=
  has_subdir ← path_exists source_subdir;
  when has_subdir
    (when verbose
       (print ("Copying " ++ str_path source_subdir ++ "/ -> "
               ++ str_path dest_subdir ++ "/"));;
     copytree source_subdir dest_subdir).

(** [move_session], lines 229-233. Step 3: Add entry to destination
    sessions-index.json. *)
Definition add_to_dest_index (verbose : bool) (dest_dir : Path)
    (dest_index new_session_data : json) : M unit :=
  when verbose (print "Adding session to destination sessions-index.json");;
  dest_index ← lift (append_entry dest_index new_session_data);
  save_sessions_index dest_dir dest_index.

(** [move_session], lines 235-242. Step 4: Remove entry from source
    sessions-index.json (if it was there). *)
Definition remove_from_source_index (verbose : bool) (source_dir : Path)
    (source_index : json) (session_idx : option nat) : M unit :=
  match session_idx with
  | Some i =>
      when verbose (print "Removing session from source sessions-index.json");;
      source_index ← lift (pop_entry source_index i);
      save_sessions_index source_dir source_index
  | None =>
      when verbose (print "Session was not in source index, skipping index update")
  end.

(** [move_session], lines 244-253. Step 5: Delete source files. *)
Definition delete_source_files (verbose : bool) (source_jsonl source_subdir : Path)
  : M unit :=
  has_jsonl ← path_exists source_jsonl;
  when has_jsonl
    (when verbose (print ("Deleting " ++ str_path source_jsonl));;
     unlink source_jsonl);;
  has_subdir ← path_exists source_subdir;
  when has_subdir
    (when verbose (print ("Deleting " ++ str_path source_subdir ++ "/"));;
     rmtree source_subdir).

(** [move_session], lines 215-257: the body of the outer [try]. *)
Definition migrate (session_id source_path dest_path : string) (verbose : bool)
    (source_dir dest_dir source_jsonl dest_jsonl source_subdir dest_subdir : Path)
    (source_index dest_index : json) (session_idx : option nat)
    (new_session_data : json) : M unit :=
  copy_jsonl verbose source_jsonl dest_jsonl;;
  copy_subdir verbose source_subdir dest_subdir;;
  add_to_dest_index verbose dest_dir dest_index new_session_data;;
  remove_from_source_index verbose source_dir source_index session_idx;;
  delete_source_files verbose source_jsonl source_subdir;;
  print ("Successfully moved session " ++ session_id);;
  print ("  From: " ++ source_path);;
  print ("  To: " ++ dest_path).

(** [move_session], lines 265-278: the body of the inner [try], the
    rollback. *)
Definition rollback (session_id : string)
    (dest_dir dest_jsonl dest_subdir : Path) : M unit :=
  has_jsonl ← path_exists dest_jsonl;
  when has_jsonl (unlink dest_jsonl);;
  has_subdir ← path_exists dest_subdir;
  when has_subdir (rmtree dest_subdir);;
  (* Restore destination index *)
  dest_index_restored ← load_sessions_index dest_dir None;
  dest_index_restored ← lift (without_session dest_index_restored session_id);
  save_sessions_index dest_dir dest_index_restored;;
  print "Rollback complete. Source files preserved.".

(** [move_session], lines 259-283: the handler of the outer [try]. *)
Definition on_failure (session_id : string)
    (dest_dir dest_jsonl dest_subdir : Path) (e : exn) : M unit :=
  print_line (Failure "Error during migration: " e);;
  print "Attempting rollback...";;
  try_except (rollback session_id dest_dir dest_jsonl dest_subdir)
    (λ rollback_error,
       print_line (Failure "Rollback failed: " rollback_error);;
       print "Manual intervention may be required.");;
  sys_exit 1.

(** [move_session], lines 122-135: the two project directories. *)
Definition resolve_directories (source_path dest_path : string)
    (dry_run verbose : bool) : M unit :=
  let source_dir := get_project_dir source_path in
  let dest_dir := get_project_dir dest_path in
  (* Validate source project exists *)
  source_ok ← path_exists source_dir;
  when (negb source_ok)
    (print ("Error: Source project directory does not exist: " ++ str_path source_dir);;
     sys_exit 1);;
  (* Create destination project if it doesn't exist *)
  dest_ok ← path_exists dest_dir;
  when (negb dest_ok)
    (when (verbose || dry_run)
       (print ("Destination project does not exist, will create: " ++ str_path dest_dir));;
     when (negb dry_run) (mkdir_parents dest_dir)).

(** What [move_session] knows once the session is located. *)
Record resolved := Resolved {
  source_index : json;
  session_idx : option nat;
  session_data : json;
  dest_index : json;
}.

(** [move_session], lines 137-168: the session in the source, and the
    check that the destination does not have it. *)
Definition locate_session (session_id source_path dest_path : string)
    (verbose : bool) : M resolved :=
  let source_dir := get_project_dir source_path in
  let dest_dir := get_project_dir dest_path in
  (* Load source index and find session *)
  source_index ← load_sessions_index source_dir None;
  session_result ← lift (find_session_in_index source_index session_id);
  (* Check if session file exists even if not indexed *)
  let source_jsonl := source_dir </> (session_id ++ ".jsonl") in
  located ←
    (match session_result with
     | None =>
         has_jsonl ← path_exists source_jsonl;
         if has_jsonl
         then when verbose (print "Session not in index but file exists, creating entry");;
              session_data ← create_session_entry session_id source_dir source_path;
              ret (None, session_data)
         else print ("Error: Session " ++ session_id ++ " not found in source project");;
              sys_exit 1
     | Some (i, session) => ret (Some i, session)
     end : M (option nat * json));
  (* Check if session already exists in destination *)
  dest_index ← load_sessions_index dest_dir (Some dest_path);
  duplicate ← lift (find_session_in_index dest_index session_id);
  when (match duplicate with Some _ => true | None => false end)
    (print ("Error: Session " ++ session_id ++ " already exists in destination project");;
     sys_exit 1);;
  ret {| source_index := source_index; session_idx := located.1;
         session_data := located.2; dest_index := dest_index |}.

(** [move_session], lines 170-183: the report of what was found and the
    new entry for the destination. *)
Definition stage (session_id source_path dest_path : string)
    (dry_run verbose : bool) (session_data : json) : M json :=
  let source_dir := get_project_dir source_path in
  let dest_dir := get_project_dir dest_path in
  let dest_jsonl := dest_dir </> (session_id ++ ".jsonl") in
  when (verbose || dry_run)
    (print ("Source project: " ++ source_path);;
     print ("Source dir: " ++ str_path source_dir);;
     print ("Destination project: " ++ dest_path);;
     print ("Destination dir: " ++ str_path dest_dir);;
     print ("Session ID: " ++ session_id);;
     summary ← lift (summary_of session_data);
     print_line (Summary summary);;
     print EmptyString);;
  (* Prepare new session entry for destination *)
  new_session_data ← lift (entry_set "fullPath" (str_path dest_jsonl) session_data);
  new_session_data ← lift (entry_set "projectPath" dest_path new_session_data);
  modified ← now_isoformat;
  lift (entry_set "modified" modified new_session_data).

Definition move_session (session_id source_path dest_path : string)
    (dry_run verbose : bool) : M unit :=
  let source_dir := get_project_dir source_path in
  let dest_dir := get_project_dir dest_path in
  resolve_directories source_path dest_path dry_run verbose;;
  r ← locate_session session_id source_path dest_path verbose;
  let source_jsonl := source_dir </> (session_id ++ ".jsonl") in
  (* Define source files *)
  let source_subdir := source_dir </> session_id in
  (* Define destination files *)
  let dest_jsonl := dest_dir </> (session_id ++ ".jsonl") in
  let dest_subdir := dest_dir </> session_id in
  new_session_data ←
    stage session_id source_path dest_path dry_run verbose (session_data r);
  if dry_run
  then dry_run_report (session_idx r) dest_dir source_jsonl dest_jsonl
         source_subdir dest_subdir
  else
    (* Perform the migration *)
    try_except
      (migrate session_id source_path dest_path verbose source_dir dest_dir
         source_jsonl dest_jsonl source_subdir dest_subdir
         (source_index r) (dest_index r) (session_idx r) new_session_data)
      (on_failure session_id dest_dir dest_jsonl dest_subdir).

End Program.

(** * Properties *)

(** ** Path encoder *)

Lemma encode_char_two_passes (c : ascii) :
  (let c' := if Ascii.eqb c "/" then "-"%char else c in
   if existsb (Ascii.eqb c') ["@"; "."]%char then "-"%char else c')
  = encode_char c.
Proof.
  unfold encode_char. destruct (Ascii.eqb c "/") eqn:Hs; simpl; [done|].
  destruct (Ascii.eqb c "@"); simpl; [done|].
  by destruct (Ascii.eqb c ".").
Qed.

Lemma encode_path_refines (path : string) : encode_path path = encode_spec path.
Proof.
  unfold encode_path, encode_spec.
  induction path as [|c rest IH]; [done|].
  cbn [str_replace_char re_sub_class string_map].
  f_equal; [apply encode_char_two_passes|apply IH].
Qed.

Lemma string_map_length f (s : string) :
  String.length (string_map f s) = String.length s.
Proof. induction s; simpl; congruence. Qed.

Lemma string_map_get f (s : string) (i : nat) :
  String.get i (string_map f s) = f <$> String.get i s.
Proof.
  revert i. induction s as [|c rest IH]; intros [|i]; simpl; auto.
Qed.

(** C8. [encode_path] is a total function (a Rocq function, so the same
    input always gives the same output) which returns its input with each
    ['/'], ['@'] and ['.'] turned into ['-'] and every other character kept
    in place: same length, same characters elsewhere, so nothing is
    trimmed, folded or otherwise normalised. *)
Theorem encode_path_characterised (path : string) :
  encode_path path = encode_spec path
  ∧ String.length (encode_path path) = String.length path
  ∧ ∀ i, String.get i (encode_path path)
         = (λ c, if bool_decide (c = "/"%char ∨ c = "@"%char ∨ c = "."%char)
                 then "-"%char else c) <$> String.get i path.
Proof.
  split; [apply encode_path_refines|].
  rewrite encode_path_refines. unfold encode_spec.
  split; [apply string_map_length|].
  intros i. rewrite string_map_get.
  destruct (String.get i path) as [c|]; simpl; [|done].
  f_equal. unfold encode_char.
  destruct (Ascii.eqb_spec c "/"); simpl.
  { rewrite bool_decide_eq_true_2; auto. }
  destruct (Ascii.eqb_spec c "@"); simpl.
  { rewrite bool_decide_eq_true_2; auto. }
  destruct (Ascii.eqb_spec c "."); simpl.
  { rewrite bool_decide_eq_true_2; auto. }
  rewrite bool_decide_eq_false_2; [done|]. intros [?|[?|?]]; done.
Qed.

(** ** Session locator *)

(** An entry matches when it is a [dict] whose [sessionId] is the
    identifier. *)
Definition matches (session_id : string) (x : json) : bool :=
  match x with
  | JObj kvs => py_eq_str (dict_get "sessionId" kvs) session_id
  | _ => false
  end.

Lemma scan_entries_found sid (l : list json) k i x :
  scan_entries sid k l = Ok (Some (i, x)) →
  (k ≤ i)%nat ∧ l !! (i - k)%nat = Some x ∧ matches sid x = true
  ∧ ∀ j y, (j < i - k)%nat → l !! j = Some y → matches sid y = false.
Proof.
  revert k. induction l as [|s rest IH]; intros k; simpl; [done|].
  destruct s as [| | | | |kvs]; try done.
  destruct (py_eq_str (dict_get "sessionId" kvs) sid) eqn:Hm.
  - intros [= <- <-]. rewrite Nat.sub_diag. simpl. repeat split; auto. lia.
  - intros H. apply IH in H as (Hle & Hl & Hx & Hfirst).
    replace (i - k) with (S (i - S k)) by lia. simpl.
    repeat split; auto; [lia|].
    intros [|j] y Hj; simpl; [by intros [= <-]|].
    intros Hy. apply (Hfirst j y); [lia|done].
Qed.

Lemma scan_entries_none sid (l : list json) k :
  scan_entries sid k l = Ok None →
  Forall (λ x, (∃ kvs, x = JObj kvs) ∧ matches sid x = false) l.
Proof.
  revert k. induction l as [|s rest IH]; intros k; simpl; [by constructor|].
  destruct s as [| | | | |kvs]; try done.
  destruct (py_eq_str (dict_get "sessionId" kvs) sid) eqn:Hm; [done|].
  intros H. constructor; eauto.
Qed.

Lemma scan_entries_app_none sid (l1 l2 : list json) k :
  scan_entries sid k l1 = Ok None →
  scan_entries sid k (l1 ++ l2) = scan_entries sid (k + length l1)%nat l2.
Proof.
  revert k. induction l1 as [|s rest IH]; intros k; simpl.
  { by rewrite Nat.add_0_r. }
  destruct s as [| | | | |kvs]; try done.
  destruct (py_eq_str (dict_get "sessionId" kvs) sid); [done|].
  intros H. rewrite IH by done. f_equal. lia.
Qed.

Lemma scan_entries_shift sid (l : list json) k k' i x :
  scan_entries sid k l = Ok (Some (i, x)) →
  scan_entries sid k' l = Ok (Some ((i - k + k')%nat, x)).
Proof.
  revert k k'. induction l as [|s rest IH]; intros k k'; simpl; [done|].
  destruct s as [| | | | |kvs]; try done.
  destruct (py_eq_str (dict_get "sessionId" kvs) sid).
  - intros [= <- <-]. by rewrite Nat.sub_diag.
  - intros H. pose proof (scan_entries_found _ _ _ _ _ H) as (Hle & _).
    rewrite (IH _ (S k') H). do 3 f_equal. lia.
Qed.

Lemma dict_get_set_eq k v kvs : dict_get k (dict_set k v kvs) = Some v.
Proof.
  induction kvs as [|[k' v'] rest IH]; simpl.
  { by rewrite String.eqb_refl. }
  destruct (String.eqb k k') eqn:Hk; simpl; rewrite Hk; [done|apply IH].
Qed.

Lemma dict_get_set_ne k k' v kvs :
  k ≠ k' → dict_get k' (dict_set k v kvs) = dict_get k' kvs.
Proof.
  intros Hne. induction kvs as [|[k'' v'] rest IH]; simpl.
  { destruct (String.eqb_spec k' k); [congruence|done]. }
  destruct (String.eqb_spec k k'') as [->|Hk]; simpl.
  - destruct (String.eqb_spec k' k''); [congruence|done].
  - by rewrite IH.
Qed.

(** ** The file-system tree *)

(** Two paths part ways: neither is above the other. *)
Fixpoint diverge (p q : Path) : Prop :=
  match p, q with
  | c :: p', d :: q' => c ≠ d ∨ (c = d ∧ diverge p' q')
  | _, _ => False
  end.

Lemma diverge_sym p q : diverge p q → diverge q p.
Proof.
  revert q. induction p as [|c p IH]; intros [|d q]; simpl; try done.
  intros [?|[-> ?]]; [left; congruence|right; auto].
Qed.

Lemma lookup_update_diverge x n (p q : Path) :
  diverge p q → lookup_path (update_path x n p) q = lookup_path n q.
Proof.
  revert n q. induction p as [|c p IH]; intros n [|d q]; simpl; try done.
  intros Hd. destruct n as [?|ch]; [done|].
  destruct p as [|c' p].
  - destruct Hd as [Hne|[_ []]]. simpl.
    by rewrite lookup_partial_alter_ne.
  - destruct (ch !! c) as [n'|] eqn:Hc; [|done]. simpl.
    destruct Hd as [Hne|[<- Hd]].
    + by rewrite lookup_insert_ne.
    + rewrite lookup_insert_eq, Hc. by apply IH.
Qed.

Lemma lookup_update_eq x n (p : Path) ch :
  p ≠ [] → lookup_path n (parent p) = Some (Dir ch) →
  lookup_path (update_path x n p) p = x.
Proof.
  revert n. induction p as [|c p IH]; intros n Hp; [done|].
  destruct p as [|c' p]; simpl.
  - intros [= ->]. simpl. rewrite lookup_partial_alter_eq. by destruct x.
  - destruct n as [?|chn]; [done|].
    destruct (chn !! c) as [n'|] eqn:Hc; [|done]. intros Hpar.
    simpl. rewrite lookup_insert_eq. by apply IH.
Qed.

Lemma lookup_update_below x n (p : Path) ch c :
  p ≠ [] → lookup_path n (parent p) = Some (Dir ch) →
  lookup_path (update_path x n p) (p ++ [c])
  = match x with Some y => lookup_path y [c] | None => None end.
Proof.
  revert n. induction p as [|d p IH]; intros n Hp; [done|].
  destruct p as [|d' p]; simpl.
  - intros [= ->]. simpl. rewrite lookup_partial_alter_eq. by destruct x.
  - destruct n as [?|chn]; [done|].
    destruct (chn !! d) as [n'|] eqn:Hc; [|done]. intros Hpar.
    simpl. rewrite lookup_insert_eq. by apply IH.
Qed.


Lemma makedirs_one (ch : gmap string node) (d : string) :
  ch !! d = None →
  makedirs (Some (Dir ch)) [d] = Some (Dir (<[d := Dir ∅]> ch)).
Proof. intros H. simpl. by rewrite H. Qed.

Lemma makedirs_exists n (p : Path) ch :
  lookup_path n p = Some (Dir ch) → makedirs (Some n) p = Some n.
Proof.
  revert n. induction p as [|c p IH]; intros n; simpl.
  { by intros [= ->]. }
  destruct n as [?|chn]; [done|].
  destruct (chn !! c) as [n'|] eqn:Hc; [|done]. intros H.
  rewrite (IH _ H). by rewrite insert_id.
Qed.



(** ** Strings *)

Lemma app_cons (c : ascii) (s t : string) : String c s ++ t = String c (s ++ t).
Proof. reflexivity. Qed.

Lemma app_empty (t : string) : EmptyString ++ t = t.
Proof. reflexivity. Qed.

Lemma string_length_app (a b : string) :
  String.length (a ++ b) = (String.length a + String.length b)%nat.
Proof.
  induction a as [|c a IH]; [done|].
  rewrite app_cons. simpl. by rewrite IH.
Qed.

(** The index file is never the log file of a session. *)
Lemma index_name_not_log (sid : string) : "sessions-index.json" ≠ sid ++ ".jsonl".
Proof.
  intros H.
  do 14 (destruct sid as [|? sid];
         [rewrite app_empty in H; discriminate H|];
         rewrite app_cons in H; injection H as _ H).
  apply (f_equal String.length) in H.
  rewrite string_length_app in H. simpl in H. lia.
Qed.

(** Nor is the auxiliary directory of a session its log file. *)
Lemma subdir_name_not_log (sid : string) : sid ≠ sid ++ ".jsonl".
Proof.
  intros H. apply (f_equal String.length) in H.
  rewrite string_length_app in H. simpl in H. lia.
Qed.

(** ** Reasoning about runs *)

(** [wp m w Q]: running [m] from [w] ends in an outcome and a world that
    satisfy [Q]. Every run ends, so this is total correctness. *)
Definition wp {A} (m : M A) (w : world) (Q : outcome A → world → Prop) : Prop :=
  Q (m w).1 (m w).2.

Lemma wp_run {A} (m : M A) w Q :
  wp m w Q ↔ ∀ r w', m w = (r, w') → Q r w'.
Proof.
  unfold wp. split.
  - intros H r w' Hm. by rewrite Hm in H.
  - intros H. apply H. by destruct (m w).
Qed.

Lemma wp_mono {A} (m : M A) w (Q Q' : outcome A → world → Prop) :
  wp m w Q → (∀ r w', Q r w' → Q' r w') → wp m w Q'.
Proof. unfold wp. auto. Qed.

Lemma wp_ret {A} (a : A) w Q : Q (Ok a) w → wp (ret a) w Q.
Proof. done. Qed.

Lemma wp_raise {A} e w (Q : outcome A → world → Prop) :
  Q (Raise e) w → wp (raise e) w Q.
Proof. done. Qed.

Lemma wp_sys_exit {A} c w (Q : outcome A → world → Prop) :
  Q (Raise (SystemExit c)) w → wp (sys_exit c) w Q.
Proof. done. Qed.

Lemma wp_lift {A} (o : outcome A) w Q : Q o w → wp (lift o) w Q.
Proof. done. Qed.

Lemma wp_bind {A B} (m : M A) (k : A → M B) w Q :
  wp m w (λ r w1, match r with
                  | Ok a => wp (k a) w1 Q
                  | Raise e => Q (Raise e) w1
                  end) →
  wp (bind m k) w Q.
Proof. unfold wp, bind. by destruct (m w) as [[a|e] w1]. Qed.

Lemma wp_try {A} (body : M A) handler w Q :
  wp body w (λ r w1, match r with
                     | Ok a => Q (Ok a) w1
                     | Raise e => if is_Exception e then wp (handler e) w1 Q
                                  else Q (Raise e) w1
                     end) →
  wp (try_except body handler) w Q.
Proof.
  unfold wp, try_except. destruct (body w) as [[a|e] w1]; simpl; [done|].
  by destruct (is_Exception e).
Qed.

Lemma wp_when b (m : M unit) w Q :
  (b = true → wp m w Q) → (b = false → Q (Ok tt) w) → wp (when b m) w Q.
Proof. intros H1 H2. destruct b; [by apply H1|by apply H2]. Qed.

Lemma wp_print s w Q :
  Q (Ok tt) {| fs := fs w; ticks := ticks w; calls := calls w;
               stdout := stdout w ++ [Text s]; trace := trace w |} →
  wp (print s) w Q.
Proof. done. Qed.

Lemma wp_print_line l w Q :
  Q (Ok tt) {| fs := fs w; ticks := ticks w; calls := calls w;
               stdout := stdout w ++ [l]; trace := trace w |} →
  wp (print_line l) w Q.
Proof. done. Qed.

Section Calls.

Variable E : env.

Lemma wp_now w Q :
  Q (Ok (now E (ticks w)))
    {| fs := fs w; ticks := S (ticks w); calls := calls w;
       stdout := stdout w; trace := trace w |} →
  wp (now_isoformat E) w Q.
Proof. done. Qed.

Lemma wp_path_exists p w Q :
  (∀ n, lookup_path (fs w) p = Some n → Q (Ok true) w) →
  (lookup_path (fs w) p = None → Q (Ok false) w) →
  wp (path_exists p) w Q.
Proof.
  unfold wp, path_exists, bind, stat, ret. simpl.
  destruct (lookup_path (fs w) p); eauto.
Qed.

(** The world after a call that changed nothing. *)
Abbreviation called w :=
  {| fs := fs w; ticks := ticks w; calls := S (calls w);
     stdout := stdout w; trace := trace w |}.

(** The world after a call that left the tree [t] and recorded [ev]. *)
Abbreviation changed w t ev :=
  {| fs := t; ticks := ticks w; calls := S (calls w);
     stdout := stdout w; trace := trace w ++ [ev] |}.

Lemma wp_mkdir_parents p w Q :
  (∀ t', io E (calls w) = NoFault → makedirs (Some (fs w)) p = Some t' →
         Q (Ok tt) (changed w t' (Mkdir p, true))) →
  (∀ e, io E (calls w) ≠ NoFault ∨ makedirs (Some (fs w)) p = None →
        Q (Raise (OSError e)) (called w)) →
  wp (mkdir_parents E p) w Q.
Proof.
  intros Hok Hfail. unfold wp, mkdir_parents, bind, io_fault. simpl.
  destruct (io E (calls w)) eqn:Hio; simpl.
  - destruct (makedirs (Some (fs w)) p) eqn:Hm; simpl.
    + by apply Hok.
    + apply Hfail. by right.
  - apply Hfail. by left.
  - apply Hfail. by left.
Qed.

Lemma wp_read_json p w Q :
  (∀ j, io E (calls w) = NoFault → lookup_path (fs w) p = Some (File (Doc j)) →
        Q (Ok j) (called w)) →
  (∀ e, is_Exception e = true →
        io E (calls w) ≠ NoFault ∨ (∀ j, lookup_path (fs w) p ≠ Some (File (Doc j))) →
        Q (Raise e) (called w)) →
  wp (read_json E p) w Q.
Proof.
  intros Hok Hfail. unfold wp, read_json, bind, io_fault, stat. simpl.
  destruct (io E (calls w)) eqn:Hio; simpl;
    [|apply Hfail; [done|by left]..].
  destruct (lookup_path (fs w) p) as [[[b|j]|ch]|] eqn:Hl; simpl;
    first [by apply Hok | apply Hfail; [done|by right]].
Qed.

(** A file can be opened for writing at [p]. *)
Definition writable (t : node) (p : Path) : Prop :=
  (∃ ch, lookup_path t (parent p) = Some (Dir ch))
  ∧ ∀ ch, lookup_path t p ≠ Some (Dir ch).

Lemma wp_commit f o target x w Q :
  (f = NoFault →
   Q (Ok tt) {| fs := update_path x (fs w) target; ticks := ticks w;
                calls := calls w; stdout := stdout w;
                trace := trace w ++ [(o, true)] |}) →
  (f = FailClean → Q (Raise (OSError EIO)) w) →
  (∀ r, f = FailPartial r →
        Q (Raise (OSError EIO))
          {| fs := update_path (Some r) (fs w) target; ticks := ticks w;
             calls := calls w; stdout := stdout w;
             trace := trace w ++ [(o, false)] |}) →
  wp (commit f o target x) w Q.
Proof. intros H1 H2 H3. destruct f; [by apply H1|by apply H2|by apply H3]. Qed.

Lemma wp_write_json p j w Q :
  (io E (calls w) = NoFault → writable (fs w) p →
   Q (Ok tt) (changed w (update_path (Some (File (Doc j))) (fs w) p) (Write p, true))) →
  (∀ e, io E (calls w) ≠ NoFault ∨ ¬ writable (fs w) p →
        Q (Raise (OSError e)) (called w)) →
  (∀ r, io E (calls w) = FailPartial r → writable (fs w) p →
        Q (Raise (OSError EIO))
          (changed w (update_path (Some r) (fs w) p) (Write p, false))) →
  wp (write_json E p j) w Q.
Proof.
  intros Hok Hfail Hpart.
  unfold wp, write_json, bind, io_fault, stat, writable in *. simpl.
  destruct (lookup_path (fs w) (parent p)) as [[c|ch]|] eqn:Hd; simpl.
  - apply Hfail. right. intros [[? ?] _]. done.
  - destruct (lookup_path (fs w) p) as [[c|ch']|] eqn:Hn; simpl.
    + destruct (io E (calls w)) eqn:Hio; simpl.
      * apply Hok; [done|]. split; [eauto|done].
      * apply Hfail. by left.
      * apply Hpart; [done|]. split; [eauto|done].
    + apply Hfail. right. intros [_ H]. by eapply H.
    + destruct (io E (calls w)) eqn:Hio; simpl.
      * apply Hok; [done|]. split; [eauto|done].
      * apply Hfail. by left.
      * apply Hpart; [done|]. split; [eauto|done].
  - apply Hfail. right. intros [[? ?] _]. done.
Qed.

(** Where [shutil.copy2] writes. *)
Definition copy2_target (t : node) (src dst : Path) : Path :=
  match lookup_path t dst with
  | Some (Dir _) => dst </> basename src
  | _ => dst
  end.

(** [shutil.copy2] accepts its arguments and would copy [c]. *)
Definition copyable (t : node) (src dst : Path) (c : content) : Prop :=
  lookup_path t src = Some (File c)
  ∧ src ≠ copy2_target t src dst
  ∧ writable t (copy2_target t src dst).

Lemma wp_copy2 src dst w Q :
  (∀ c, io E (calls w) = NoFault → copyable (fs w) src dst c →
        let target := copy2_target (fs w) src dst in
        Q (Ok tt) (changed w (update_path (Some (File c)) (fs w) target)
                     (Copy2 src target, true))) →
  (∀ e, io E (calls w) ≠ NoFault ∨ (∀ c, ¬ copyable (fs w) src dst c) →
        Q (Raise (OSError e)) (called w)) →
  (∀ r c, io E (calls w) = FailPartial r → copyable (fs w) src dst c →
          let target := copy2_target (fs w) src dst in
          Q (Raise (OSError EIO))
            (changed w (update_path (Some r) (fs w) target) (Copy2 src target, false))) →
  wp (copy2 E src dst) w Q.
Proof.
  intros Hok Hfail Hpart.
  unfold wp, copy2, bind, io_fault, stat, ret, raise, copyable, writable in *.
  simpl. fold (copy2_target (fs w) src dst).
  remember (copy2_target (fs w) src dst) as target eqn:Ht in *.
  destruct (lookup_path (fs w) src) as [s|] eqn:Hs; simpl; cycle 1.
  { apply Hfail. right. intros c' (? & _). congruence. }
  case_bool_decide as Hsame; simpl.
  { apply Hfail. right. intros c (_ & ? & _). done. }
  destruct s as [c|ch]; simpl; cycle 1.
  { apply Hfail. right. intros c' (? & _). congruence. }
  destruct (lookup_path (fs w) (parent target)) as [[c'|ch]|] eqn:Hd; simpl.
  - apply Hfail. right. intros ? (_ & _ & [? ?] & _). congruence.
  - destruct (lookup_path (fs w) target) as [[c'|ch']|] eqn:Hn; simpl.
    + destruct (io E (calls w)) eqn:Hio; simpl.
      * apply (Hok c); [done|]. repeat split; eauto; congruence.
      * apply Hfail. by left.
      * apply (Hpart _ c); [done|]. repeat split; eauto; congruence.
    + apply Hfail. right. intros ? (_ & _ & _ & H). by eapply H.
    + destruct (io E (calls w)) eqn:Hio; simpl.
      * apply (Hok c); [done|]. repeat split; eauto; congruence.
      * apply Hfail. by left.
      * apply (Hpart _ c); [done|]. repeat split; eauto; congruence.
  - apply Hfail. right. intros ? (_ & _ & [? ?] & _). congruence.
Qed.

(** [shutil.copytree] accepts its arguments: [ch] is what it would copy
    and [t'] the tree once the target directory has been made. *)
Definition tree_copyable (t : node) (src dst : Path)
    (ch : gmap string node) (t' : node) : Prop :=
  lookup_path t src = Some (Dir ch)
  ∧ lookup_path t dst = None
  ∧ makedirs (Some t) dst = Some t'.

Lemma wp_copytree src dst w Q :
  (∀ ch t', io E (calls w) = NoFault → tree_copyable (fs w) src dst ch t' →
            Q (Ok tt) (changed w (update_path (Some (Dir ch)) t' dst)
                         (Copytree src dst, true))) →
  (∀ e, io E (calls w) ≠ NoFault ∨ (∀ ch t', ¬ tree_copyable (fs w) src dst ch t') →
        Q (Raise (OSError e)) (called w)) →
  (∀ r ch t', io E (calls w) = FailPartial r → tree_copyable (fs w) src dst ch t' →
              Q (Raise (OSError EIO))
                (changed w (update_path (Some r) t' dst) (Copytree src dst, false))) →
  wp (copytree E src dst) w Q.
Proof.
  intros Hok Hfail Hpart.
  unfold wp, copytree, bind, io_fault, stat, tree_copyable in *. simpl.
  destruct (lookup_path (fs w) src) as [[c|ch]|] eqn:Hs; simpl.
  - apply Hfail. right. intros ?? (? & _). congruence.
  - destruct (lookup_path (fs w) dst) as [n|] eqn:Hn; simpl.
    { apply Hfail. right. intros ?? (_ & ? & _). congruence. }
    destruct (makedirs (Some (fs w)) dst) as [t'|] eqn:Hm; simpl; cycle 1.
    { apply Hfail. right. intros ?? (_ & _ & ?). congruence. }
    destruct (io E (calls w)) eqn:Hio; simpl.
    + by apply Hok.
    + apply Hfail. by left.
    + by apply (Hpart _ ch t').
  - apply Hfail. right. intros ?? (? & _). congruence.
Qed.

Lemma wp_unlink p w Q :
  (∀ c, io E (calls w) = NoFault → lookup_path (fs w) p = Some (File c) →
        Q (Ok tt) (changed w (update_path None (fs w) p) (Unlink p, true))) →
  (∀ e, io E (calls w) ≠ NoFault ∨ (∀ c, lookup_path (fs w) p ≠ Some (File c)) →
        Q (Raise (OSError e)) (called w)) →
  wp (unlink E p) w Q.
Proof.
  intros Hok Hfail. unfold wp, unlink, bind, io_fault, stat. simpl.
  destruct (lookup_path (fs w) p) as [[c|ch]|] eqn:Hs; simpl.
  - destruct (io E (calls w)) eqn:Hio; simpl.
    + by apply (Hok c).
    + apply Hfail. by left.
    + apply Hfail. by left.
  - apply Hfail. by right.
  - apply Hfail. by right.
Qed.

Lemma wp_rmtree p w Q :
  (∀ ch, io E (calls w) = NoFault → lookup_path (fs w) p = Some (Dir ch) →
         Q (Ok tt) (changed w (update_path None (fs w) p) (Rmtree p, true))) →
  (∀ e, io E (calls w) ≠ NoFault ∨ (∀ ch, lookup_path (fs w) p ≠ Some (Dir ch)) →
        Q (Raise (OSError e)) (called w)) →
  (∀ r ch, io E (calls w) = FailPartial r → lookup_path (fs w) p = Some (Dir ch) →
           Q (Raise (OSError EIO))
             (changed w (update_path (Some r) (fs w) p) (Rmtree p, false))) →
  wp (rmtree E p) w Q.
Proof.
  intros Hok Hfail Hpart. unfold wp, rmtree, bind, io_fault, stat. simpl.
  destruct (lookup_path (fs w) p) as [[c|ch]|] eqn:Hs; simpl.
  - apply Hfail. by right.
  - destruct (io E (calls w)) eqn:Hio; simpl.
    + by apply (Hok ch).
    + apply Hfail. by left.
    + by apply (Hpart _ ch).
  - apply Hfail. by right.
Qed.

Lemma wp_load_sessions_index dir orig w Q :
  (lookup_path (fs w) (dir </> "sessions-index.json") = None →
   Q (Ok (empty_index orig)) w) →
  (∀ j, io E (calls w) = NoFault →
        lookup_path (fs w) (dir </> "sessions-index.json") = Some (File (Doc j)) →
        Q (Ok j) (called w)) →
  (∀ e, is_Exception e = true →
        lookup_path (fs w) (dir </> "sessions-index.json") ≠ None →
        io E (calls w) ≠ NoFault
        ∨ (∀ j, lookup_path (fs w) (dir </> "sessions-index.json")
                ≠ Some (File (Doc j))) →
        Q (Raise e) (called w)) →
  wp (load_sessions_index E dir orig) w Q.
Proof.
  intros Hnone Hok Hfail. unfold load_sessions_index.
  apply wp_bind, wp_path_exists.
  - intros n Hn. simpl. apply wp_read_json.
    + intros j ? Hj. by apply Hok.
    + intros e ? H. apply Hfail; [done|congruence|done].
  - intros Hn. simpl. by apply wp_ret, Hnone.
Qed.

Lemma wp_save_sessions_index dir j w Q :
  let p := dir </> "sessions-index.json" in
  (io E (calls w) = NoFault → writable (fs w) p →
   Q (Ok tt) (changed w (update_path (Some (File (Doc j))) (fs w) p) (Write p, true))) →
  (∀ e, io E (calls w) ≠ NoFault ∨ ¬ writable (fs w) p →
        Q (Raise (OSError e)) (called w)) →
  (∀ r, io E (calls w) = FailPartial r → writable (fs w) p →
        Q (Raise (OSError EIO))
          (changed w (update_path (Some r) (fs w) p) (Write p, false))) →
  wp (save_sessions_index E dir j) w Q.
Proof. intros p. apply wp_write_json. Qed.

Lemma wp_create_session_entry sid dir project_path w Q :
  Q (Ok (JObj [("sessionId", JStr sid);
               ("fullPath", JStr (str_path E (dir </> (sid ++ ".jsonl"))));
               ("projectPath", JStr project_path);
               ("summary", JStr "Migrated session");
               ("created", JStr (now E (ticks w)));
               ("modified", JStr (now E (S (ticks w))))]))
    {| fs := fs w; ticks := S (S (ticks w)); calls := calls w;
       stdout := stdout w; trace := trace w |} →
  wp (create_session_entry E sid dir project_path) w Q.
Proof. done. Qed.

End Calls.

(** ** Stepping through a run *)

Ltac wp_simpl := cbn [fs ticks calls stdout trace negb orb andb fst snd].

Ltac wp_pure :=
  lazymatch goal with
  | |- wp (bind _ _) _ _ => apply wp_bind
  | |- wp (ret _) _ _ => apply wp_ret
  | |- wp (raise _) _ _ => apply wp_raise
  | |- wp (sys_exit _) _ _ => apply wp_sys_exit
  | |- wp (print _) _ _ => apply wp_print
  | |- wp (print_line _) _ _ => apply wp_print_line
  | |- wp (now_isoformat _) _ _ => apply wp_now
  | |- wp (create_session_entry _ _ _ _) _ _ => apply wp_create_session_entry
  | |- wp (when true _) _ _ => unfold when
  | |- wp (when false _) _ _ => unfold when
  | |- wp (lift (Ok _)) _ _ => apply wp_lift
  | |- wp (lift (Raise _)) _ _ => apply wp_lift
  end; wp_simpl.

(** ** Dry run *)

Section DryRun.

Variable E : env.

(** Reading never changes the tree and records nothing. *)
Definition quiet {A} (m : M A) : Prop :=
  ∀ w, wp m w (λ _ w', fs w' = fs w ∧ trace w' = trace w).

Lemma quiet_bind {A B} (m : M A) (k : A → M B) :
  quiet m → (∀ a, quiet (k a)) → quiet (bind m k).
Proof.
  intros Hm Hk w. apply wp_bind. eapply wp_mono; [apply Hm|].
  intros [a|e] w1 [Hfs Htr]; simpl; [|done].
  eapply wp_mono; [apply Hk|]. simpl. intros _ w2 [-> ->]. done.
Qed.

Lemma quiet_ret {A} (a : A) : quiet (ret a).
Proof. by intros w. Qed.

Lemma quiet_raise {A} e : quiet (raise (A:=A) e).
Proof. by intros w. Qed.

Lemma quiet_sys_exit {A} c : quiet (sys_exit (A:=A) c).
Proof. by intros w. Qed.

Lemma quiet_lift {A} (o : outcome A) : quiet (lift o).
Proof. by intros w. Qed.

Lemma quiet_print s : quiet (print s).
Proof. by intros w. Qed.

Lemma quiet_print_line l : quiet (print_line l).
Proof. by intros w. Qed.

Lemma quiet_now : quiet (now_isoformat E).
Proof. by intros w. Qed.

Lemma quiet_when b m : quiet m → quiet (when b m).
Proof. intros H. destruct b; [done|apply quiet_ret]. Qed.

Lemma quiet_path_exists p : quiet (path_exists p).
Proof. intros w. by apply wp_path_exists. Qed.

Lemma quiet_load_sessions_index dir orig : quiet (load_sessions_index E dir orig).
Proof. intros w. by apply wp_load_sessions_index. Qed.

Lemma quiet_create_session_entry sid dir pp :
  quiet (create_session_entry E sid dir pp).
Proof. by intros w. Qed.

Lemma quiet_summary_of x : quiet (lift (summary_of x)).
Proof. apply quiet_lift. Qed.

Ltac quiet_auto :=
  repeat
    lazymatch goal with
    | |- quiet (bind _ _) => apply quiet_bind; [|intros ?]
    | |- quiet (ret _) => apply quiet_ret
    | |- quiet (print _) => apply quiet_print
    | |- quiet (print_line _) => apply quiet_print_line
    | |- quiet (path_exists _) => apply quiet_path_exists
    | |- quiet (load_sessions_index _ _ _) => apply quiet_load_sessions_index
    | |- quiet (create_session_entry _ _ _ _) => apply quiet_create_session_entry
    | |- quiet (lift _) => apply quiet_lift
    | |- quiet (now_isoformat _) => apply quiet_now
    | |- quiet (sys_exit _) => apply quiet_sys_exit
    | |- quiet (when _ _) => apply quiet_when
    | |- quiet (if ?b then _ else _) => destruct b
    | |- quiet (match ?x with _ => _ end) => destruct x
    end.

Lemma quiet_dry_run_report idx a b c d e :
  quiet (dry_run_report E idx a b c d e).
Proof. unfold dry_run_report. quiet_auto. Qed.

Lemma quiet_resolve_directories sp dp verbose :
  quiet (resolve_directories E sp dp true verbose).
Proof.
  unfold resolve_directories.
  apply quiet_bind; [apply quiet_path_exists|intros ?].
  apply quiet_bind; [quiet_auto|intros ?].
  apply quiet_bind; [apply quiet_path_exists|intros ?].
  apply quiet_when. apply quiet_bind; [quiet_auto|intros ?].
  apply quiet_ret.
Qed.

Lemma quiet_locate_session sid sp dp verbose :
  quiet (locate_session E sid sp dp verbose).
Proof. unfold locate_session. quiet_auto. Qed.

Lemma quiet_stage sid sp dp dry verbose sd :
  quiet (stage E sid sp dp dry verbose sd).
Proof. unfold stage. quiet_auto. Qed.

(** C6. With dry-run enabled the move changes nothing, whatever the
    state of the two project directories, whatever the environment does
    and however the run ends: the tree at the end is the tree at the start
    (so no directory was created, the destination directory in particular,
    no index written, nothing copied, nothing deleted) and no file-system
    change is recorded. *)
Theorem dry_run_changes_nothing sid source_path dest_path verbose w :
  let w' := (move_session E sid source_path dest_path true verbose w).2 in
  fs w' = fs w ∧ trace w' = trace w.
Proof.
  assert (quiet (move_session E sid source_path dest_path true verbose)) as H.
  { unfold move_session.
    apply quiet_bind; [apply quiet_resolve_directories|intros _].
    apply quiet_bind; [apply quiet_locate_session|intros r].
    apply quiet_bind; [apply quiet_stage|intros new].
    apply quiet_dry_run_report. }
  apply H.
Qed.

End DryRun.

(** ** Session index store *)

(** C7. When the project directory holds no [sessions-index.json],
    [load_sessions_index] does not fail: it returns the index with version
    1, no entries, and as [originalPath] the fallback project path when one
    is supplied and the empty string otherwise; the world is left as it
    was. *)
Theorem load_without_index_file E project_dir original_path w :
  lookup_path (fs w) (project_dir </> "sessions-index.json") = None →
  load_sessions_index E project_dir original_path w
  = (Ok (JObj [("version", JNum 1);
               ("entries", JArr []);
               ("originalPath", JStr (default EmptyString original_path))]),
     w).
Proof.
  intros Hnone.
  unfold load_sessions_index, path_exists, bind, stat, ret. simpl.
  rewrite Hnone. simpl. unfold empty_index. do 5 f_equal.
  destruct original_path as [s|]; simpl; [|done].
  by destruct (String.eqb_spec s EmptyString) as [->|].
Qed.

Lemma load_without_index_file_witness :
  let E := {| projects_dir := "/home/alice/.claude/projects";
              now := λ _, "2026-11-03T10:00:00"; io := λ _, FailClean |} in
  let w := init (Dir {[ "-home-alice-app" := Dir ∅ ]}) in
  lookup_path (fs w) (["-home-alice-app"] </> "sessions-index.json") = None
  ∧ load_sessions_index E ["-home-alice-app"] (Some "/home/alice/app") w
    = (Ok (JObj [("version", JNum 1);
                 ("entries", JArr []);
                 ("originalPath", JStr "/home/alice/app")]),
       w).
Proof.
  split; [reflexivity|].
  apply (load_without_index_file _ ["-home-alice-app"] (Some "/home/alice/app")).
  reflexivity.
Defined.

(** ** Where [SystemExit] can come from *)

Section Exits.

Variable E : env.

(** [m] never raises [SystemExit]: whatever it raises, [except Exception]
    catches. *)
Definition caught {A} (m : M A) : Prop :=
  ∀ w, wp m w (λ r _, match r with Raise e => is_Exception e = true | Ok _ => True end).

Lemma caught_bind {A B} (m : M A) (k : A → M B) :
  caught m → (∀ a, caught (k a)) → caught (bind m k).
Proof.
  intros Hm Hk w. apply wp_bind. eapply wp_mono; [apply Hm|].
  intros [a|e] w1 H; simpl; [apply Hk|done].
Qed.

Lemma caught_ret {A} (a : A) : caught (ret a).
Proof. by intros w. Qed.

Lemma caught_print s : caught (print s).
Proof. by intros w. Qed.

Lemma caught_now : caught (now_isoformat E).
Proof. by intros w. Qed.

Lemma caught_when b m : caught m → caught (when b m).
Proof. intros H. destruct b; [done|apply caught_ret]. Qed.

Lemma caught_path_exists p : caught (path_exists p).
Proof. intros w. by apply wp_path_exists. Qed.

Lemma caught_load_sessions_index dir orig : caught (load_sessions_index E dir orig).
Proof. intros w. by apply wp_load_sessions_index. Qed.

Lemma caught_save_sessions_index dir j : caught (save_sessions_index E dir j).
Proof. intros w. by apply wp_save_sessions_index. Qed.

Lemma caught_copy2 src dst : caught (copy2 E src dst).
Proof. intros w. by apply wp_copy2. Qed.

Lemma caught_copytree src dst : caught (copytree E src dst).
Proof. intros w. by apply wp_copytree. Qed.

Lemma caught_unlink p : caught (unlink E p).
Proof. intros w. by apply wp_unlink. Qed.

Lemma caught_rmtree p : caught (rmtree E p).
Proof. intros w. by apply wp_rmtree. Qed.

Lemma caught_append_entry index x : caught (lift (append_entry index x)).
Proof.
  intros w. apply wp_lift. unfold append_entry.
  destruct index as [| | | | |kvs]; try done.
  by destruct (dict_get "entries" kvs) as [[]|].
Qed.

Lemma caught_pop_entry index i : caught (lift (pop_entry index i)).
Proof.
  intros w. apply wp_lift. unfold pop_entry.
  destruct index as [| | | | |kvs]; try done.
  destruct (dict_get "entries" kvs) as [[]|]; try done.
  by case_bool_decide.
Qed.

Lemma keep_others_caught sid l :
  match keep_others sid l with Raise e => is_Exception e = true | Ok _ => True end.
Proof.
  induction l as [|s rest IH]; simpl; [done|].
  destruct s; try done. by destruct (keep_others sid rest).
Qed.

Lemma caught_without_session index sid : caught (lift (without_session index sid)).
Proof.
  intros w. apply wp_lift. unfold without_session.
  destruct index as [| | | | |kvs]; try done.
  destruct (py_iter _) as [l|]; [|done].
  pose proof (keep_others_caught sid l). by destruct (keep_others sid l).
Qed.

Lemma caught_entry_set k v x : caught (lift (entry_set k v x)).
Proof. intros w. apply wp_lift. by destruct x. Qed.

Lemma caught_summary_of x : caught (lift (summary_of x)).
Proof.
  intros w. apply wp_lift. unfold summary_of. destruct x as [| | | | |kvs]; try done.
  destruct (truthy _); [done|]. by destruct (default _ _).
Qed.

Lemma caught_print_line l : caught (print_line l).
Proof. by intros w. Qed.

Ltac caught_auto :=
  repeat
    lazymatch goal with
    | |- caught (bind _ _) => apply caught_bind; [|intros ?]
    | |- caught (ret _) => apply caught_ret
    | |- caught (print _) => apply caught_print
    | |- caught (print_line _) => apply caught_print_line
    | |- caught (now_isoformat _) => apply caught_now
    | |- caught (path_exists _) => apply caught_path_exists
    | |- caught (load_sessions_index _ _ _) => apply caught_load_sessions_index
    | |- caught (save_sessions_index _ _ _) => apply caught_save_sessions_index
    | |- caught (copy2 _ _ _) => apply caught_copy2
    | |- caught (copytree _ _ _) => apply caught_copytree
    | |- caught (unlink _ _) => apply caught_unlink
    | |- caught (rmtree _ _) => apply caught_rmtree
    | |- caught (lift (append_entry _ _)) => apply caught_append_entry
    | |- caught (lift (pop_entry _ _)) => apply caught_pop_entry
    | |- caught (lift (without_session _ _)) => apply caught_without_session
    | |- caught (lift (entry_set _ _ _)) => apply caught_entry_set
    | |- caught (lift (summary_of _)) => apply caught_summary_of
    | |- caught (when _ _) => apply caught_when
    | |- caught (if ?b then _ else _) => destruct b
    | |- caught (match ?x with _ => _ end) => destruct x
    end.

Lemma caught_migrate sid sp dp verbose a b c d e f si di idx new :
  caught (migrate E sid sp dp verbose a b c d e f si di idx new).
Proof.
  unfold migrate, copy_jsonl, copy_subdir, add_to_dest_index,
    remove_from_source_index, delete_source_files.
  caught_auto.
Qed.

Lemma caught_rollback sid a b c : caught (rollback E sid a b c).
Proof. unfold rollback. caught_auto. Qed.

Lemma caught_stage sid sp dp dry verbose sd :
  caught (stage E sid sp dp dry verbose sd).
Proof.
  unfold stage. caught_auto.
Qed.

Lemma caught_dry_run_report idx a b c d e :
  caught (dry_run_report E idx a b c d e).
Proof. unfold dry_run_report. caught_auto. Qed.

Lemma wp_after_caught {A B} (m : M A) (k : A → M B) w Q :
  caught m → (∀ a w1, wp (k a) w1 Q) →
  (∀ e w1, is_Exception e = true → Q (Raise e) w1) →
  wp (bind m k) w Q.
Proof.
  intros Hm Hk HQ. apply wp_bind. eapply wp_mono; [apply Hm|].
  intros [a|e] w1 H; simpl in *; auto.
Qed.

(** The rollback, when it returns, has just printed its last line. *)
Lemma rollback_last_line sid a b c w :
  wp (rollback E sid a b c) w
    (λ r w', match r with
             | Ok _ => last (stdout w')
                       = Some (Text "Rollback complete. Source files preserved.")
             | Raise e => is_Exception e = true
             end).
Proof.
  unfold rollback.
  do 7 (apply wp_after_caught; [caught_auto|intros ? ?|done]).
  apply wp_print. wp_simpl. by rewrite last_snoc.
Qed.

(** The handler always ends the process with status 1, right after one
    of the two lines that close a rollback. *)
Lemma on_failure_exits sid a b c e w :
  wp (on_failure E sid a b c e) w
    (λ r w', r = Raise (SystemExit 1)
             ∧ (last (stdout w') = Some (Text "Rollback complete. Source files preserved.")
                ∨ last (stdout w') = Some (Text "Manual intervention may be required."))).
Proof.
  unfold on_failure.
  apply wp_bind, wp_print_line. apply wp_bind, wp_print.
  apply wp_bind, wp_try. eapply wp_mono; [apply rollback_last_line|].
  intros [[]|e'] w1 H; simpl.
  - apply wp_sys_exit. split; [done|by left].
  - rewrite H. apply wp_bind, wp_print_line. apply wp_print.
    apply wp_sys_exit. wp_simpl.
    split; [done|]. right. by rewrite last_snoc.
Qed.

End Exits.

(** ** Resolving the directories and locating the session *)

Ltac wp_call :=
  lazymatch goal with
  | |- wp (path_exists _) _ _ => apply wp_path_exists
  | |- wp (mkdir_parents _ _) _ _ => apply wp_mkdir_parents
  | |- wp (load_sessions_index _ _ _) _ _ => apply wp_load_sessions_index
  | |- wp (save_sessions_index _ _ _) _ _ => apply wp_save_sessions_index
  | |- wp (copy2 _ _ _) _ _ => apply wp_copy2
  | |- wp (copytree _ _ _) _ _ => apply wp_copytree
  | |- wp (unlink _ _) _ _ => apply wp_unlink
  | |- wp (rmtree _ _) _ _ => apply wp_rmtree
  end; wp_simpl.

Section Resolve.

Variable E : env.

(** The index [load_sessions_index] finds in a tree, when it can read it. *)
Definition index_at (t : node) (dir : Path) (orig : option string) : option json :=
  match lookup_path t (dir </> "sessions-index.json") with
  | None => Some (empty_index orig)
  | Some (File (Doc j)) => Some j
  | Some _ => None
  end.

(** The entry [create_session_entry] makes at clock reading [n]. *)
Definition synthetic_entry (sid source_path : string) (n : nat) : json :=
  JObj [("sessionId", JStr sid);
        ("fullPath",
         JStr (str_path E (get_project_dir source_path </> (sid ++ ".jsonl"))));
        ("projectPath", JStr source_path);
        ("summary", JStr "Migrated session");
        ("created", JStr (now E n));
        ("modified", JStr (now E (S n)))].

Definition msg_source_missing (source_path : string) : line :=
  Text ("Error: Source project directory does not exist: "
        ++ str_path E (get_project_dir source_path)).

Definition msg_not_found (sid : string) : line :=
  Text ("Error: Session " ++ sid ++ " not found in source project").

Definition msg_duplicate (sid : string) : line :=
  Text ("Error: Session " ++ sid ++ " already exists in destination project").

Definition dirs_post (sp dp : string) (dry : bool) (w : world)
    (r : outcome unit) (w' : world) : Prop :=
  let sdir := get_project_dir sp in
  let ddir := get_project_dir dp in
  ticks w' = ticks w ∧
  match r with
  | Ok _ =>
      is_Some (lookup_path (fs w) sdir)
      ∧ ((fs w' = fs w ∧ trace w' = trace w ∧ calls w' = calls w
          ∧ (dry = false → is_Some (lookup_path (fs w) ddir)))
         ∨ (dry = false ∧ lookup_path (fs w) ddir = None
            ∧ io E (calls w) = NoFault
            ∧ fs w' = update_path (Some (Dir ∅)) (fs w) ddir
            ∧ trace w' = (trace w ++ [(Mkdir ddir, true)])%list
            ∧ calls w' = S (calls w)))
  | Raise e =>
      fs w' = fs w ∧ trace w' = trace w
      ∧ ∀ c, e = SystemExit c →
             c = 1%Z ∧ last (stdout w') = Some (msg_source_missing sp)
  end.

Lemma makedirs_fresh t (d s : string) n :
  lookup_path t [s] = Some n → lookup_path t [d] = None →
  makedirs (Some t) [d] = Some (update_path (Some (Dir ∅)) t [d]).
Proof.
  destruct t as [c|ch]; simpl; [done|]. intros _.
  destruct (ch !! d) eqn:Hd; [done|]. done.
Qed.

Lemma resolve_directories_sound sp dp dry verbose w :
  wp (resolve_directories E sp dp dry verbose) w (dirs_post sp dp dry w).
Proof.
  unfold resolve_directories, dirs_post.
  apply wp_bind. wp_call.
  - (* the source directory exists *)
    intros n Hsrc.
    apply wp_bind. unfold when at 1. apply wp_ret.
    apply wp_bind. wp_call.
    + intros n' Hdst. unfold when at 1. apply wp_ret. wp_simpl.
      split; [done|]. split; [eauto|]. left. eauto.
    + intros Hdst. unfold when at 1. wp_simpl.
      assert (∀ w1, fs w1 = fs w → trace w1 = trace w → calls w1 = calls w →
                    ticks w1 = ticks w →
                wp (when (negb dry) (mkdir_parents E (get_project_dir dp))) w1
                   (dirs_post sp dp dry w)) as Hmk.
      { intros w1 Hfs Htr Hcalls Hticks. unfold dirs_post.
        destruct dry; simpl.
        - apply wp_ret. split; [done|]. split; [eauto|]. left.
          repeat split; auto. done.
        - wp_call.
          + intros t' Hio Hmk. split; [done|]. split; [eauto|]. right.
            rewrite Hfs, Htr, Hcalls in *.
            change (get_project_dir dp) with [encode_path dp] in *.
            change (get_project_dir sp) with [encode_path sp] in *.
            erewrite makedirs_fresh in Hmk by eauto.
            injection Hmk as <-. repeat split; auto.
          + intros e _. rewrite Hfs, Htr. split; [done|].
            split; [done|]. split; [done|]. intros ? [=]. }
      apply wp_bind. apply wp_when; intros _.
      * apply wp_print. wp_simpl. eapply wp_mono; [by apply Hmk|].
        by intros [[]|e] w2.
      * eapply wp_mono; [by apply Hmk|]. by intros [[]|e] w2.
  - (* no source directory *)
    intros Hsrc.
    apply wp_bind. unfold when at 1. wp_simpl.
    apply wp_bind, wp_print. apply wp_sys_exit. wp_simpl.
    split; [done|]. split; [done|]. split; [done|].
    intros ? [= <-]. by rewrite last_snoc.
Qed.

(** Loading an index reads the tree and nothing else. *)
Lemma load_sessions_index_sound dir orig w :
  wp (load_sessions_index E dir orig) w
    (λ r w', fs w' = fs w ∧ trace w' = trace w ∧ ticks w' = ticks w
             ∧ stdout w' = stdout w
             ∧ match r with
               | Ok j => index_at (fs w) dir orig = Some j
               | Raise e => is_Exception e = true
               end).
Proof.
  wp_call.
  - intros Hnone. unfold index_at. by rewrite Hnone.
  - intros j _ Hj. unfold index_at. by rewrite Hj.
  - intros e He _ _. done.
Qed.

Lemma scan_entries_caught sid k l :
  match scan_entries sid k l with Raise e => is_Exception e = true | Ok _ => True end.
Proof.
  revert k. induction l as [|s rest IH]; intros k; simpl; [done|].
  destruct s as [| | | | |kvs]; try done.
  destruct (py_eq_str _ _); [done|apply IH].
Qed.

Lemma find_session_in_index_caught index sid :
  match find_session_in_index index sid with
  | Raise e => is_Exception e = true
  | Ok _ => True
  end.
Proof.
  unfold find_session_in_index. destruct index as [| | | | |kvs]; try done.
  destruct (py_iter _) as [l|]; [apply scan_entries_caught|done].
Qed.

Definition locate_post (sid sp dp : string) (w : world)
    (r : outcome resolved) (w' : world) : Prop :=
  let sdir := get_project_dir sp in
  let ddir := get_project_dir dp in
  fs w' = fs w ∧ trace w' = trace w ∧
  match r with
  | Ok x =>
      index_at (fs w) sdir None = Some (source_index x)
      ∧ index_at (fs w) ddir (Some dp) = Some (dest_index x)
      ∧ find_session_in_index (dest_index x) sid = Ok None
      ∧ ((∃ i, find_session_in_index (source_index x) sid
               = Ok (Some (i, session_data x))
               ∧ session_idx x = Some i ∧ ticks w' = ticks w)
         ∨ (find_session_in_index (source_index x) sid = Ok None
            ∧ session_idx x = None
            ∧ is_Some (lookup_path (fs w) (sdir </> (sid ++ ".jsonl")))
            ∧ session_data x = synthetic_entry sid sp (ticks w)
            ∧ ticks w' = S (S (ticks w))))
  | Raise e =>
      ∀ c, e = SystemExit c →
           c = 1%Z
           ∧ (last (stdout w') = Some (msg_not_found sid)
              ∨ (last (stdout w') = Some (msg_duplicate sid)
                 ∧ lookup_path (fs w) (ddir </> "sessions-index.json") ≠ None))
  end.

Lemma locate_session_sound sid sp dp verbose w :
  wp (locate_session E sid sp dp verbose) w (locate_post sid sp dp w).
Proof.
  unfold locate_session, locate_post.
  apply wp_bind. eapply wp_mono; [apply load_sessions_index_sound|].
  intros [si|e] w1 (Hfs1 & Htr1 & Hti1 & _ & H1); cbn beta iota; cycle 1.
  { rewrite Hfs1, Htr1. split; [done|]. split; [done|]. by intros c ->. }
  apply wp_bind, wp_lift.
  pose proof (find_session_in_index_caught si sid) as Hc.
  destruct (find_session_in_index si sid) as [found|e] eqn:Hfind; cycle 1.
  { rewrite Hfs1, Htr1. split; [done|]. split; [done|]. by intros c ->. }
  clear Hc. apply wp_bind.
  eapply (wp_mono _ _
    (λ r w2, fs w2 = fs w ∧ trace w2 = trace w ∧
       match r with
       | Ok loc =>
           (∃ i, found = Some (i, loc.2) ∧ loc.1 = Some i ∧ ticks w2 = ticks w)
           ∨ (found = None ∧ loc.1 = None
              ∧ is_Some (lookup_path (fs w)
                           (get_project_dir sp </> (sid ++ ".jsonl")))
              ∧ loc.2 = synthetic_entry sid sp (ticks w)
              ∧ ticks w2 = S (S (ticks w)))
       | Raise e => ∀ c, e = SystemExit c →
                         c = 1%Z ∧ last (stdout w2) = Some (msg_not_found sid)
       end)).
  { destruct found as [[i sd]|].
    - apply wp_ret. split; [done|]. split; [done|]. left. eauto.
    - apply wp_bind. wp_call.
      + intros n Hn. rewrite Hfs1 in Hn.
        apply wp_bind, wp_when; intros _.
        * apply wp_print. wp_simpl. apply wp_bind, wp_create_session_entry.
          apply wp_ret. wp_simpl. split; [done|]. split; [done|]. right.
          rewrite Hti1. repeat split; eauto.
        * apply wp_bind, wp_create_session_entry.
          apply wp_ret. wp_simpl. split; [done|]. split; [done|]. right.
          rewrite Hti1. repeat split; eauto.
      + intros _. apply wp_bind, wp_print. apply wp_sys_exit. wp_simpl.
        split; [done|]. split; [done|]. intros c [= <-].
        split; [done|]. by rewrite last_snoc. }
  intros [loc|e] w2 (Hfs2 & Htr2 & H2); cbn beta iota; cycle 1.
  { split; [done|]. split; [done|]. intros c Hc.
    destruct (H2 c Hc) as [-> ?]. eauto. }
  apply wp_bind. eapply wp_mono; [apply load_sessions_index_sound|].
  intros [di|e] w3 (Hfs3 & Htr3 & Hti3 & Hso3 & H3); cbn beta iota; cycle 1.
  { rewrite Hfs3, Htr3. split; [done|]. split; [done|]. by intros c ->. }
  rewrite Hfs2 in H3.
  apply wp_bind, wp_lift.
  pose proof (find_session_in_index_caught di sid) as Hc.
  destruct (find_session_in_index di sid) as [[dup|]|e] eqn:Hdup.
  - (* already in the destination *)
    unfold when at 1. apply wp_bind. apply wp_bind, wp_print.
    apply wp_sys_exit. wp_simpl. rewrite Hfs3, Htr3.
    split; [done|]. split; [done|]. intros c [= <-]. split; [done|].
    right. split; [by rewrite last_snoc|].
    intros Hnone. unfold index_at in H3. rewrite Hnone in H3.
    injection H3 as <-. discriminate Hdup.
  - unfold when at 1. apply wp_bind, wp_ret. apply wp_ret. simpl.
    rewrite Hfs3, Htr3, Hti3. split; [done|]. split; [done|].
    split; [done|]. split; [done|]. split; [done|].
    destruct H2 as [(i & -> & Hi & Ht)|(-> & Hi & Hlog & Hsd & Ht)].
    + left. exists i. by rewrite Hi.
    + right. by rewrite Hi, Hsd.
  - rewrite Hfs3, Htr3. split; [done|]. split; [done|]. by intros c ->.
Qed.

End Resolve.

(** ** Validation failures *)

Ltac str_discr H :=
  unfold msg_source_missing, msg_not_found, msg_duplicate in H;
  repeat rewrite app_cons in H; discriminate H.

Lemma lookup_fresh_dir t (d c : string) (q : Path) :
  lookup_path t [d] = None →
  lookup_path (update_path (Some (Dir ∅)) t [d]) (d :: c :: q) = None
  ∧ lookup_path t (d :: c :: q) = None.
Proof.
  destruct t as [?|ch]; simpl; [done|].
  destruct (ch !! d) eqn:Hd; [done|]. intros _.
  by rewrite lookup_partial_alter_eq.
Qed.

Section Validation.

Variable E : env.

(** The run ended in [sys.exit(1)] right after printing [msg]. *)
Definition aborted_after (msg : line) (r : outcome unit) (w' : world) : Prop :=
  r = Raise (SystemExit 1) ∧ last (stdout w') = Some msg.

(** What a run that stops on a validation error may have done to the
    tree [t]: nothing, or made the missing destination directory. *)
Definition at_most_mkdir (dest_path : string) (dry_run : bool) (t : node)
    (w' : world) : Prop :=
  (fs w' = t ∧ trace w' = [])
  ∨ (dry_run = false
     ∧ lookup_path t (get_project_dir dest_path) = None
     ∧ fs w' = update_path (Some (Dir ∅)) t (get_project_dir dest_path)
     ∧ trace w' = [(Mkdir (get_project_dir dest_path), true)]).

Lemma move_session_validation sid sp dp dry verbose t :
  wp (move_session E sid sp dp dry verbose) (init t)
    (λ r w',
       (aborted_after (msg_not_found sid) r w' → at_most_mkdir dp dry t w')
       ∧ (aborted_after (msg_duplicate sid) r w' → fs w' = t ∧ trace w' = [])).
Proof.
  unfold move_session, aborted_after, at_most_mkdir.
  apply wp_bind. eapply wp_mono; [apply resolve_directories_sound|].
  intros [[]|e] w1 (Hti1 & H1); cbn beta iota; cycle 1.
  { destruct H1 as (_ & _ & H1).
    split; intros [[= ->] Hl]; destruct (H1 _ eq_refl) as [_ Hm];
      rewrite Hm in Hl; injection Hl as Hl; str_discr Hl. }
  destruct H1 as (Hsrc & Hframe). unfold init in Hframe.
  cbn [fs trace calls] in Hframe.
  apply wp_bind. eapply wp_mono; [apply locate_session_sound|].
  intros [x|e] w2 (Hfs2 & Htr2 & H2); cbn beta iota; cycle 1.
  { split.
    - intros [[= ->] Hl].
      destruct Hframe as [(Hfs1 & Htr1 & _)|(Hdry & Hd & _ & Hfs1 & Htr1 & _)].
      + left. by rewrite Hfs2, Htr2, Hfs1, Htr1.
      + right. by rewrite Hfs2, Htr2, Hfs1, Htr1.
    - intros [[= ->] Hl].
      destruct Hframe as [(Hfs1 & Htr1 & _)|(Hdry & Hd & _ & Hfs1 & Htr1 & _)].
      { by rewrite Hfs2, Htr2, Hfs1, Htr1. }
      exfalso. destruct (H2 _ eq_refl) as [_ [Hnf|[_ Hidx]]].
      + rewrite Hnf in Hl. injection Hl as Hl.
        apply String.app_inj in Hl. apply String.app_inj in Hl.
        discriminate Hl.
      + apply Hidx. rewrite Hfs1.
        change (get_project_dir dp) with [encode_path dp] in *.
        by destruct (lookup_fresh_dir t (encode_path dp)
                       "sessions-index.json" [] Hd) as [H _]. }
  assert (∀ r' w', (∃ e, r' = Raise e ∧ is_Exception e = true) ∨ r' = Ok tt
                   ∨ (r' = Raise (SystemExit 1)
                      ∧ (last (stdout w')
                         = Some (Text "Rollback complete. Source files preserved.")
                         ∨ last (stdout w')
                           = Some (Text "Manual intervention may be required."))) →
     ((r' = Raise (SystemExit 1)
       ∧ last (stdout w') = Some (msg_not_found sid)) →
      fs w' = t ∧ trace w' = []
      ∨ dry = false
        ∧ lookup_path t (get_project_dir dp) = None
          ∧ fs w' = update_path (Some (Dir ∅)) t (get_project_dir dp)
            ∧ trace w' = [(Mkdir (get_project_dir dp), true)])
     ∧ ((r' = Raise (SystemExit 1)
         ∧ last (stdout w') = Some (msg_duplicate sid)) →
        fs w' = t ∧ trace w' = [])) as Hrest.
  { intros r' w' [(e & -> & He)|[->|(-> & [Hl|Hl])]].
    - split; intros [[= ->] _]; done.
    - split; intros [[=] _].
    - split; intros [_ Hl']; rewrite Hl in Hl'; injection Hl' as Hl'; str_discr Hl'.
    - split; intros [_ Hl']; rewrite Hl in Hl'; injection Hl' as Hl'; str_discr Hl'. }
  apply wp_after_caught; [apply caught_stage| |].
  2:{ intros e w3 He. apply Hrest. left. eauto. }
  intros new w3. destruct dry.
  - eapply wp_mono; [apply caught_dry_run_report|].
    intros [[]|e] w4 H4; apply Hrest; [by right; left|left; eauto].
  - apply wp_try. eapply wp_mono; [apply caught_migrate|].
    intros [[]|e] w4 H4; [apply Hrest; by right; left|]. rewrite H4.
    eapply wp_mono; [apply on_failure_exits|].
    intros r' w5 [-> Hl]. apply Hrest. right. right. done.
Qed.

End Validation.

(** C3, as the code has it. When a move stops with [SessionNotFound] or
    with [DuplicateSession] (it printed that error and left with status
    1), nothing that existed has been touched: no index file was written,
    nothing was copied, nothing was deleted. The one change that can have
    happened is that the destination project directory, when it was
    missing and the run is not a dry run, has been created (empty) before
    the session was looked for; on [DuplicateSession] not even that. *)
Theorem validation_failure_leaves_files E sid source_path dest_path dry_run verbose
    t r w' :
  move_session E sid source_path dest_path dry_run verbose (init t) = (r, w') →
  aborted_after (msg_not_found sid) r w' ∨ aborted_after (msg_duplicate sid) r w' →
  at_most_mkdir dest_path dry_run t w'
  ∧ (aborted_after (msg_duplicate sid) r w' → fs w' = t ∧ trace w' = [])
  ∧ ∀ c q, c :: q ≠ get_project_dir dest_path →
           lookup_path (fs w') (c :: q) = lookup_path t (c :: q).
Proof.
  intros Hrun Habort.
  pose proof (move_session_validation E sid source_path dest_path dry_run verbose t)
    as H.
  apply wp_run with (r := r) (w' := w') in H; [|done].
  destruct H as [Hnf Hdup].
  assert (at_most_mkdir dest_path dry_run t w') as Hframe.
  { destruct Habort as [Ha|Ha]; [by apply Hnf|]. left. by apply Hdup. }
  split; [done|]. split; [done|].
  intros c q Hne.
  destruct Hframe as [[-> _]|(_ & Hd & -> & _)]; [done|].
  change (get_project_dir dest_path) with [encode_path dest_path] in *.
  destruct (decide (c = encode_path dest_path)) as [->|Hc].
  - destruct q as [|c' q]; [done|].
    destruct (lookup_fresh_dir t (encode_path dest_path) c' q Hd) as [-> ->].
    done.
  - apply lookup_update_diverge. simpl. left. congruence.
Qed.

Lemma validation_failure_leaves_files_witness :
  let E := {| projects_dir := "/home/alice/.claude/projects";
              now := λ _, "2026-11-03T10:00:00"; io := λ _, NoFault |} in
  let t := Dir {[ "-home-alice-app" := Dir ∅ ]} in
  let run := move_session E "abc123" "/home/alice/app" "/home/alice/app2"
               false false (init t) in
  aborted_after (msg_not_found "abc123") run.1 run.2
  ∧ at_most_mkdir "/home/alice/app2" false t run.2.
Proof.
  intros E t run.
  assert (aborted_after (msg_not_found "abc123") run.1 run.2) as Ha.
  { vm_compute. split; reflexivity. }
  split; [exact Ha|].
  refine (proj1 (validation_failure_leaves_files E "abc123" "/home/alice/app"
                   "/home/alice/app2" false false t run.1 run.2 _ (or_introl Ha))).
  apply surjective_pairing.
Defined.

(** C3 as stated fails: the session is not found, yet the destination
    project directory, missing before the call, exists afterwards. *)
Lemma not_found_after_mkdir :
  let E := {| projects_dir := "/home/alice/.claude/projects";
              now := λ _, "2026-11-03T10:00:00"; io := λ _, NoFault |} in
  let t := Dir {[ "-home-alice-app" := Dir ∅ ]} in
  let run := move_session E "abc123" "/home/alice/app" "/home/alice/app2"
               false false (init t) in
  aborted_after (msg_not_found "abc123") run.1 run.2
  ∧ lookup_path t ["-home-alice-app2"] = None
  ∧ lookup_path (fs run.2) ["-home-alice-app2"] = Some (Dir ∅)
  ∧ trace run.2 = [(Mkdir ["-home-alice-app2"], true)]
  ∧ fs run.2 ≠ t.
Proof.
  vm_compute. repeat split; try reflexivity. discriminate.
Qed.

(** ** Rollback *)

Lemma lookup_delete_none (p q : Path) t :
  lookup_path t q = None → lookup_path (update_path None t p) q = None.
Proof.
  revert t q. induction p as [|c p IH]; intros t q; simpl; [done|].
  destruct t as [?|ch]; [done|].
  destruct q as [|d q]; [done|]. simpl.
  destruct p as [|c' p].
  - simpl. destruct (decide (c = d)) as [->|Hne].
    + by rewrite lookup_partial_alter_eq.
    + by rewrite lookup_partial_alter_ne.
  - destruct (ch !! c) as [n'|] eqn:Hc; [|done]. simpl.
    destruct (decide (c = d)) as [->|Hne].
    + rewrite lookup_insert_eq, Hc. apply IH.
    + by rewrite lookup_insert_ne.
Qed.

Lemma parent_joinpath (p : Path) (name : string) : parent (p </> name) = p.
Proof. unfold parent, joinpath. apply removelast_last. Qed.

Lemma joinpath_not_nil (p : Path) (name : string) : p </> name ≠ [].
Proof. unfold joinpath. by destruct p. Qed.



Section Rollback.

Variable E : env.


End Rollback.


(** The same in a whole run: the destination has no index file, the copy
    of the log file fails, and the rollback leaves an index file behind. *)
Example failed_copy_leaves_an_index :
  let E := {| projects_dir := "/home/alice/.claude/projects";
              now := λ _, "2026-11-03T10:00:00";
              io := λ n, if Nat.eqb n 0 then FailClean else NoFault |} in
  let t := Dir {[ "-home-alice-app" :=
                    Dir {[ "abc123.jsonl" := File (Raw "0123456789") ]};
                  "-home-alice-app2" := Dir ∅ ]} in
  let run := move_session E "abc123" "/home/alice/app" "/home/alice/app2"
               false false (init t) in
  run.1 = Raise (SystemExit 1)
  ∧ lookup_path t ["-home-alice-app2"; "sessions-index.json"] = None
  ∧ trace run.2 = [(Write ["-home-alice-app2"; "sessions-index.json"], true)]
  ∧ lookup_path (fs run.2) ["-home-alice-app2"; "sessions-index.json"]
    = Some (File (Doc (JObj [("version", JNum 1);
                             ("entries", JArr []);
                             ("originalPath", JStr EmptyString)]))).
Proof. vm_compute. repeat split; reflexivity. Qed.

(** ** The source after a rollback *)

(** A project with one indexed session that has a log file and an
    auxiliary directory. *)
Definition app_entry : json :=
  JObj [("sessionId", JStr "abc123");
        ("fullPath", JStr "/home/alice/.claude/projects/-home-alice-app/abc123.jsonl");
        ("projectPath", JStr "/home/alice/app");
        ("summary", JStr "Fix bug");
        ("created", JStr "2026-01-01T00:00:00");
        ("modified", JStr "2026-01-02T00:00:00")].

Definition app_index : json :=
  JObj [("version", JNum 1); ("entries", JArr [app_entry]);
        ("originalPath", JStr "/home/alice/app")].

Definition app_tree : node :=
  Dir {[ "-home-alice-app" :=
           Dir {[ "sessions-index.json" := File (Doc app_index);
                  "abc123.jsonl" := File (Raw "0123456789");
                  "abc123" := Dir {[ "notes.txt" := File (Raw "n") ]} ]} ]}.

(** An environment whose [k]-th file-system call fails without effect. *)
Definition failing_at (k : nat) : env :=
  {| projects_dir := "/home/alice/.claude/projects";
     now := λ _, "2026-11-03T10:00:00";
     io := λ n, if Nat.eqb n k then FailClean else NoFault |}.

(** An environment in which no file-system call fails. *)
Definition reliable : env :=
  {| projects_dir := "/home/alice/.claude/projects";
     now := λ _, "2026-11-03T10:00:00";
     io := λ _, NoFault |}.

(** C1 does not hold of the code. The session is moved, both indexes are
    committed, the source log file is deleted, and then the deletion of
    the source auxiliary directory fails (the eighth file-system call).
    The rollback removes the copies in the destination and reports
    "Source files preserved", but the source log file is gone: the
    transcript now exists nowhere. *)
Theorem rollback_after_source_deletion_loses_log :
  let run := move_session (failing_at 7) "abc123" "/home/alice/app"
               "/home/alice/app2" false false (init app_tree) in
  lookup_path app_tree ["-home-alice-app"; "abc123.jsonl"]
  = Some (File (Raw "0123456789"))
  ∧ run.1 = Raise (SystemExit 1)
  ∧ stdout run.2 = [Failure "Error during migration: " (OSError EIO);
                    Text "Attempting rollback...";
                    Text "Rollback complete. Source files preserved."]
  ∧ lookup_path (fs run.2) ["-home-alice-app"; "abc123.jsonl"] = None
  ∧ lookup_path (fs run.2) ["-home-alice-app2"; "abc123.jsonl"] = None
  ∧ lookup_path (fs run.2) ["-home-alice-app"; "sessions-index.json"]
    = Some (File (Doc (JObj [("version", JNum 1); ("entries", JArr []);
                             ("originalPath", JStr "/home/alice/app")]))).
Proof. vm_compute. repeat split; reflexivity. Qed.

(** A project with a session that is not in the index. *)
Definition my_app_tree : node :=
  Dir {[ "-home-alice-my-app" :=
           Dir {[ "abc123.jsonl" := File (Raw "0123456789");
                  "abc123" := Dir {[ "notes.txt" := File (Raw "n") ]} ]} ]}.

(** C2 does not hold of the code. The two project paths are encoded to
    the same directory, so the destination log file "is" the source log
    file: [shutil.copy2] refuses to copy a file onto itself, and the
    rollback, which deletes the destination artifacts, deletes the source
    log file and the source auxiliary directory. These are the first
    changes of the run: no index had been written before them. *)
Theorem same_directory_rollback_deletes_source :
  let run := move_session reliable "abc123" "/home/alice/my.app"
               "/home/alice/my-app" false false (init my_app_tree) in
  get_project_dir "/home/alice/my.app" = get_project_dir "/home/alice/my-app"
  ∧ run.1 = Raise (SystemExit 1)
  ∧ stdout run.2 = [Failure "Error during migration: " (OSError ESAMEFILE);
                    Text "Attempting rollback...";
                    Text "Rollback complete. Source files preserved."]
  ∧ trace run.2 = [(Unlink ["-home-alice-my-app"; "abc123.jsonl"], true);
                   (Rmtree ["-home-alice-my-app"; "abc123"], true);
                   (Write ["-home-alice-my-app"; "sessions-index.json"], true)]
  ∧ lookup_path (fs run.2) ["-home-alice-my-app"; "abc123.jsonl"] = None
  ∧ lookup_path (fs run.2) ["-home-alice-my-app"; "abc123"] = None.
Proof. vm_compute. repeat split; reflexivity. Qed.

(** ** More on [makedirs] and on diverging paths *)

Lemma makedirs_none (p : Path) :
  makedirs None p = Some (foldr (λ c acc, Dir {[c := acc]}) (Dir ∅) p).
Proof. by destruct p. Qed.

Lemma lookup_fresh_chain (p q : Path) :
  diverge p q →
  lookup_path (foldr (λ c acc, Dir {[c := acc]}) (Dir ∅) p) q = None.
Proof.
  revert q. induction p as [|c p IH]; intros [|d q]; simpl; try done.
  intros [Hne|[<- Hd]].
  - by rewrite lookup_singleton_ne.
  - rewrite lookup_singleton_eq. by apply IH.
Qed.

Lemma makedirs_diverge (p q : Path) t t' :
  makedirs (Some t) p = Some t' → diverge p q →
  lookup_path t' q = lookup_path t q.
Proof.
  revert t t' q. induction p as [|c p IH]; intros t t' q; simpl.
  { by destruct q. }
  destruct t as [?|ch]; [done|].
  destruct q as [|d q]; [done|].
  destruct (ch !! c) as [n|] eqn:Hc.
  - destruct (makedirs (Some n) p) as [n'|] eqn:Hm; [|done].
    intros [= <-] [Hne|[<- Hd]]; simpl.
    + by rewrite lookup_insert_ne.
    + rewrite lookup_insert_eq, Hc. by eapply IH.
  - rewrite makedirs_none. intros [= <-] [Hne|[<- Hd]]; simpl.
    + by rewrite lookup_insert_ne.
    + rewrite lookup_insert_eq, Hc. by apply lookup_fresh_chain.
Qed.

Ltac solve_diverge :=
  simpl;
  first
    [ left; first [done | congruence]
    | right; split; [reflexivity|];
      first [ left; first [ done | congruence
                          | apply index_name_not_log
                          | apply not_eq_sym, index_name_not_log
                          | apply subdir_name_not_log
                          | apply not_eq_sym, subdir_name_not_log ] ] ].

Lemma wp_when_print {B} b s (k : unit → M B) w Q :
  (∀ out, wp (k tt) {| fs := fs w; ticks := ticks w; calls := calls w;
                       stdout := out; trace := trace w |} Q) →
  wp (bind (when b (print s)) k) w Q.
Proof.
  intros H. apply wp_bind. destruct b; simpl.
  - apply wp_print. apply H.
  - apply wp_ret. destruct w. apply H.
Qed.

(** ** The five steps of the migration *)

Section Steps.

Variable E : env.

(** Nothing happened to the tree, the record of changes, or the count of
    file-system calls. *)
Definition untouched (w w' : world) : Prop :=
  fs w' = fs w ∧ trace w' = trace w ∧ calls w' = calls w.

(** One file-system call was made and it completed: the tree is [t'] and
    [o] is recorded. *)
Definition completed (w w' : world) (o : op) (t' : node) : Prop :=
  io E (calls w) = NoFault
  ∧ fs w' = t' ∧ trace w' = (trace w ++ [(o, true)])%list
  ∧ calls w' = S (calls w).

(** One file-system call was made and it failed: either nothing changed,
    or (when [pre] held and the environment said so) it left a residue at
    [target] in the tree [base]. *)
Definition failed (w w' : world) (o : op) (pre : Prop) (base : node)
    (target : Path) : Prop :=
  calls w' = S (calls w)
  ∧ (((io E (calls w) ≠ NoFault ∨ ¬ pre) ∧ fs w' = fs w ∧ trace w' = trace w)
     ∨ (∃ res, io E (calls w) = FailPartial res ∧ pre
               ∧ fs w' = update_path (Some res) base target
               ∧ trace w' = (trace w ++ [(o, false)])%list)).

Definition copy_jsonl_post (src dst : Path) (w : world) (r : outcome unit)
    (w' : world) : Prop :=
  let target := copy2_target (fs w) src dst in
  ticks w' = ticks w ∧
  match r with
  | Ok _ =>
      (lookup_path (fs w) src = None ∧ untouched w w')
      ∨ (∃ c, copyable (fs w) src dst c
              ∧ completed w w' (Copy2 src target)
                  (update_path (Some (File c)) (fs w) target))
  | Raise e =>
      is_Exception e = true
      ∧ is_Some (lookup_path (fs w) src)
      ∧ failed w w' (Copy2 src target) (∃ c, copyable (fs w) src dst c)
          (fs w) target
  end.

Lemma copy_jsonl_sound verbose src dst w :
  wp (copy_jsonl E verbose src dst) w (copy_jsonl_post src dst w).
Proof.
  unfold copy_jsonl, copy_jsonl_post, untouched, completed, failed.
  apply wp_bind. wp_call.
  - intros n Hn. apply wp_when_print. intros out. wp_call.
    + intros c Hio Hc. cbv zeta. wp_simpl. split; [done|]. right. eauto 10.
    + intros e He. wp_simpl. split; [done|]. split; [done|]. split; [eauto|].
      split; [done|].
      left. split; [|done]. destruct He as [?|He]; [by left|right].
      intros [c Hc]. by eapply He.
    + intros res c Hio Hc. cbv zeta. wp_simpl.
      split; [done|]. split; [done|]. split; [eauto|]. split; [done|].
      right. eauto 10.
  - intros Hn. apply wp_print. wp_simpl. split; [done|]. by left.
Qed.

Definition copy_subdir_post (src dst : Path) (w : world) (r : outcome unit)
    (w' : world) : Prop :=
  ticks w' = ticks w ∧
  match r with
  | Ok _ =>
      (lookup_path (fs w) src = None ∧ untouched w w')
      ∨ (∃ ch t', tree_copyable (fs w) src dst ch t'
                  ∧ completed w w' (Copytree src dst)
                      (update_path (Some (Dir ch)) t' dst))
  | Raise e =>
      is_Exception e = true
      ∧ is_Some (lookup_path (fs w) src)
      ∧ calls w' = S (calls w)
      ∧ (((io E (calls w) ≠ NoFault ∨ ∀ ch t', ¬ tree_copyable (fs w) src dst ch t')
          ∧ fs w' = fs w ∧ trace w' = trace w)
         ∨ (∃ res ch t', io E (calls w) = FailPartial res
                         ∧ tree_copyable (fs w) src dst ch t'
                         ∧ fs w' = update_path (Some res) t' dst
                         ∧ trace w' = (trace w ++ [(Copytree src dst, false)])%list))
  end.

Lemma copy_subdir_sound verbose src dst w :
  wp (copy_subdir E verbose src dst) w (copy_subdir_post src dst w).
Proof.
  unfold copy_subdir, copy_subdir_post, untouched, completed.
  apply wp_bind. wp_call.
  - intros n Hn. unfold when at 1. apply wp_when_print. intros out. wp_call.
    + intros ch t' Hio Hc. split; [done|]. right. eauto 10.
    + intros e He. split; [done|]. split; [done|]. split; [eauto|].
      split; [done|]. by left.
    + intros res ch t' Hio Hc. split; [done|]. split; [done|].
      split; [eauto|]. split; [done|]. right. eauto 10.
  - intros Hn. unfold when at 1. apply wp_ret. split; [done|]. by left.
Qed.

Definition save_post (p : Path) (j : json) (w : world) (r : outcome unit)
    (w' : world) : Prop :=
  ticks w' = ticks w ∧
  match r with
  | Ok _ =>
      writable (fs w) p
      ∧ completed w w' (Write p) (update_path (Some (File (Doc j))) (fs w) p)
  | Raise e =>
      is_Exception e = true
      ∧ failed w w' (Write p) (writable (fs w) p) (fs w) p
  end.

Lemma save_sessions_index_sound dir j w :
  wp (save_sessions_index E dir j) w (save_post (dir </> "sessions-index.json") j w).
Proof.
  unfold save_post, completed, failed. wp_call.
  - intros Hio Hw. eauto 10.
  - intros e He. split; [done|]. split; [done|]. split; [done|]. by left.
  - intros res Hio Hw. split; [done|]. split; [done|]. split; [done|].
    right. eauto 10.
Qed.

Definition add_to_dest_index_post (dir : Path) (di new : json) (w : world)
    (r : outcome unit) (w' : world) : Prop :=
  match append_entry di new with
  | Ok di' => save_post (dir </> "sessions-index.json") di' w r w'
  | Raise e => r = Raise e ∧ is_Exception e = true ∧ ticks w' = ticks w
               ∧ untouched w w'
  end.

Lemma add_to_dest_index_sound verbose dir di new w :
  wp (add_to_dest_index E verbose dir di new) w
    (add_to_dest_index_post dir di new w).
Proof.
  unfold add_to_dest_index, add_to_dest_index_post.
  apply wp_when_print. intros out. apply wp_bind, wp_lift.
  pose proof (caught_append_entry di new w) as Hc. unfold wp in Hc. simpl in Hc.
  destruct (append_entry di new) as [di'|e]; [|done].
  eapply wp_mono; [apply save_sessions_index_sound|]. done.
Qed.

Definition remove_from_source_index_post (dir : Path) (si : json)
    (sidx : option nat) (w : world) (r : outcome unit) (w' : world) : Prop :=
  match sidx with
  | None => r = Ok tt ∧ ticks w' = ticks w ∧ untouched w w'
  | Some i =>
      match pop_entry si i with
      | Ok si' => save_post (dir </> "sessions-index.json") si' w r w'
      | Raise e => r = Raise e ∧ is_Exception e = true ∧ ticks w' = ticks w
                   ∧ untouched w w'
      end
  end.

Lemma remove_from_source_index_sound verbose dir si sidx w :
  wp (remove_from_source_index E verbose dir si sidx) w
    (remove_from_source_index_post dir si sidx w).
Proof.
  unfold remove_from_source_index, remove_from_source_index_post.
  destruct sidx as [i|].
  - apply wp_when_print. intros out. apply wp_bind, wp_lift.
    pose proof (caught_pop_entry si i w) as Hc. unfold wp in Hc. simpl in Hc.
    destruct (pop_entry si i) as [si'|e]; [|done].
    eapply wp_mono; [apply save_sessions_index_sound|]. done.
  - destruct verbose; simpl; [apply wp_print|apply wp_ret]; done.
Qed.

(** What is at [p], if anything, was deleted by the call [o]. *)
Definition removed (w w' : world) (o : op) (p : Path) : Prop :=
  ticks w' = ticks w
  ∧ ((lookup_path (fs w) p = None ∧ untouched w w')
     ∨ (is_Some (lookup_path (fs w) p)
        ∧ completed w w' o (update_path None (fs w) p))).

Definition delete_source_files_post (log sub : Path) (w : world)
    (r : outcome unit) (w' : world) : Prop :=
  ticks w' = ticks w ∧
  match r with
  | Ok _ =>
      ∃ w1, removed w w1 (Unlink log) log
            ∧ (∀ n, lookup_path (fs w) log = Some n → ∃ c, n = File c)
            ∧ removed w1 w' (Rmtree sub) sub
            ∧ (∀ n, lookup_path (fs w1) sub = Some n → ∃ ch, n = Dir ch)
  | Raise e =>
      is_Exception e = true
      ∧ ((is_Some (lookup_path (fs w) log)
          ∧ (io E (calls w) ≠ NoFault
             ∨ ∀ c, lookup_path (fs w) log ≠ Some (File c))
          ∧ calls w' = S (calls w) ∧ fs w' = fs w ∧ trace w' = trace w)
         ∨ (∃ w1, removed w w1 (Unlink log) log
                  ∧ is_Some (lookup_path (fs w1) sub)
                  ∧ failed w1 w' (Rmtree sub)
                      (∃ ch, lookup_path (fs w1) sub = Some (Dir ch))
                      (fs w1) sub))
  end.

Lemma delete_source_files_sound verbose log sub w :
  wp (delete_source_files E verbose log sub) w
    (delete_source_files_post log sub w).
Proof.
  unfold delete_source_files, delete_source_files_post.
  assert (∀ w1, ticks w1 = ticks w →
     wp (bind (path_exists sub)
           (λ has_subdir, when has_subdir
              (bind (when verbose
                       (print ("Deleting " ++ str_path E sub ++ "/")))
                 (λ _, rmtree E sub)))) w1
       (λ r w', ticks w' = ticks w ∧
          match r with
          | Ok _ => removed w1 w' (Rmtree sub) sub
                    ∧ (∀ n, lookup_path (fs w1) sub = Some n → ∃ ch, n = Dir ch)
          | Raise e =>
              is_Exception e = true
              ∧ is_Some (lookup_path (fs w1) sub)
              ∧ failed w1 w' (Rmtree sub)
                  (∃ ch, lookup_path (fs w1) sub = Some (Dir ch)) (fs w1) sub
          end)) as Hsub.
  { intros w1 Ht1. unfold removed, untouched, completed, failed.
    apply wp_bind. wp_call.
    - intros n Hn. unfold when at 1. apply wp_when_print. intros out. wp_call.
      + intros ch Hio Hch. split; [done|]. split.
        * split; [done|]. right. eauto 10.
        * intros n' Hn'. rewrite Hch in Hn'. injection Hn' as <-. eauto.
      + intros e He. split; [done|]. split; [done|]. split; [eauto|].
        split; [done|]. left. split; [|done].
        destruct He as [?|He]; [by left|right]. intros [ch Hch]. by eapply He.
      + intros res ch Hio Hch. split; [done|]. split; [done|]. split; [eauto|].
        split; [done|]. right. eauto 10.
    - intros Hn. unfold when at 1. apply wp_ret. split; [done|]. split.
      + split; [done|]. by left.
      + intros n' Hn'. congruence. }
  apply wp_bind. wp_call.
  - intros n Hn. apply wp_bind. unfold when at 1. apply wp_when_print.
    intros out. wp_call.
    + intros c Hio Hc. eapply wp_mono; [by apply Hsub|].
      intros [[]|e] w' [Ht' H']; cbn beta iota in H'.
      * split; [done|]. destruct H' as [Hrm Hdir].
        eexists. split; [|split; [|split; [exact Hrm|exact Hdir]]].
        -- unfold removed, completed. wp_simpl. split; [done|]. right. eauto 10.
        -- intros n' Hn'. rewrite Hc in Hn'. injection Hn' as <-. eauto.
      * split; [done|]. destruct H' as (He & Hsome & Hfail). split; [done|].
        right. eexists. split; [|split; [exact Hsome|exact Hfail]].
        unfold removed, completed. wp_simpl. split; [done|]. right. eauto 10.
    + intros e He. split; [done|]. split; [done|]. left. eauto 10.
  - intros Hn. apply wp_bind. unfold when at 1. apply wp_ret.
    eapply wp_mono; [by apply Hsub|].
    intros [[]|e] w' [Ht' H'].
    + split; [done|]. destruct H' as [Hrm Hdir].
      exists w. split; [|split; [|split; [exact Hrm|exact Hdir]]].
      * unfold removed, untouched. split; [done|]. by left.
      * intros n' Hn'. congruence.
    + split; [done|]. destruct H' as (He & Hsome & Hfail). split; [done|].
      right. exists w. split; [|split; [exact Hsome|exact Hfail]].
      unfold removed, untouched. split; [done|]. by left.
Qed.

End Steps.

(** ** The migration, step by step *)

Section Migration.

Variable E : env.

(** How a run of [migrate] goes: it fails in one of its five steps, or
    goes through all of them and prints its three closing lines. *)
Inductive migrate_run (sdir ddir log dlog sub dsub : Path) (si di : json)
    (sidx : option nat) (new : json) (w : world)
  : outcome unit → world → Prop :=
| failed_in_step_1 e w1 :
    copy_jsonl_post E log dlog w (Raise e) w1 →
    migrate_run sdir ddir log dlog sub dsub si di sidx new w (Raise e) w1
| failed_in_step_2 e w1 w2 :
    copy_jsonl_post E log dlog w (Ok tt) w1 →
    copy_subdir_post E sub dsub w1 (Raise e) w2 →
    migrate_run sdir ddir log dlog sub dsub si di sidx new w (Raise e) w2
| failed_in_step_3 e w1 w2 w3 :
    copy_jsonl_post E log dlog w (Ok tt) w1 →
    copy_subdir_post E sub dsub w1 (Ok tt) w2 →
    add_to_dest_index_post E ddir di new w2 (Raise e) w3 →
    migrate_run sdir ddir log dlog sub dsub si di sidx new w (Raise e) w3
| failed_in_step_4 e w1 w2 w3 w4 :
    copy_jsonl_post E log dlog w (Ok tt) w1 →
    copy_subdir_post E sub dsub w1 (Ok tt) w2 →
    add_to_dest_index_post E ddir di new w2 (Ok tt) w3 →
    remove_from_source_index_post E sdir si sidx w3 (Raise e) w4 →
    migrate_run sdir ddir log dlog sub dsub si di sidx new w (Raise e) w4
| failed_in_step_5 e w1 w2 w3 w4 w5 :
    copy_jsonl_post E log dlog w (Ok tt) w1 →
    copy_subdir_post E sub dsub w1 (Ok tt) w2 →
    add_to_dest_index_post E ddir di new w2 (Ok tt) w3 →
    remove_from_source_index_post E sdir si sidx w3 (Ok tt) w4 →
    delete_source_files_post E log sub w4 (Raise e) w5 →
    migrate_run sdir ddir log dlog sub dsub si di sidx new w (Raise e) w5
| migrated w1 w2 w3 w4 w5 w' :
    copy_jsonl_post E log dlog w (Ok tt) w1 →
    copy_subdir_post E sub dsub w1 (Ok tt) w2 →
    add_to_dest_index_post E ddir di new w2 (Ok tt) w3 →
    remove_from_source_index_post E sdir si sidx w3 (Ok tt) w4 →
    delete_source_files_post E log sub w4 (Ok tt) w5 →
    fs w' = fs w5 → trace w' = trace w5 → ticks w' = ticks w5 →
    calls w' = calls w5 →
    migrate_run sdir ddir log dlog sub dsub si di sidx new w (Ok tt) w'.

Lemma migrate_sound sid sp dp verbose sdir ddir log dlog sub dsub si di sidx new w :
  wp (migrate E sid sp dp verbose sdir ddir log dlog sub dsub si di sidx new) w
    (migrate_run sdir ddir log dlog sub dsub si di sidx new w).
Proof.
  unfold migrate.
  apply wp_bind. eapply wp_mono; [apply copy_jsonl_sound|].
  intros [[]|e] w1 H1; [|by apply failed_in_step_1].
  apply wp_bind. eapply wp_mono; [apply copy_subdir_sound|].
  intros [[]|e] w2 H2; [|by eapply failed_in_step_2].
  apply wp_bind. eapply wp_mono; [apply add_to_dest_index_sound|].
  intros [[]|e] w3 H3; [|by eapply failed_in_step_3].
  apply wp_bind. eapply wp_mono; [apply remove_from_source_index_sound|].
  intros [[]|e] w4 H4; [|by eapply failed_in_step_4].
  apply wp_bind. eapply wp_mono; [apply delete_source_files_sound|].
  intros [[]|e] w5 H5; [|by eapply failed_in_step_5].
  apply wp_bind, wp_print. apply wp_bind, wp_print. apply wp_print.
  by eapply migrated.
Qed.

End Migration.

(** ** What a step leaves alone *)

(** Everything outside the top-level directory [c] is the same in [t']
    as in [t]. *)
Definition outside (c : string) (t t' : node) : Prop :=
  ∀ e q, e ≠ c → lookup_path t' (e :: q) = lookup_path t (e :: q).

Lemma outside_refl c t : outside c t t.
Proof. by intros e q _. Qed.

Lemma outside_trans c t1 t2 t3 :
  outside c t1 t2 → outside c t2 t3 → outside c t1 t3.
Proof. intros H12 H23 e q He. by rewrite H23, H12. Qed.

Lemma outside_eq c t t' : t' = t → outside c t t'.
Proof. intros ->. apply outside_refl. Qed.

Lemma outside_update c (p : Path) x t : outside c t (update_path x t (c :: p)).
Proof.
  intros e q He. apply lookup_update_diverge. simpl. left. congruence.
Qed.

Lemma outside_makedirs c (p : Path) t t' :
  makedirs (Some t) (c :: p) = Some t' → outside c t t'.
Proof.
  intros Hm e q He. eapply makedirs_diverge; [done|]. simpl. left. congruence.
Qed.

Lemma copy2_target_below t (src : Path) (d n : string) :
  ∃ p, copy2_target t src [d; n] = d :: p.
Proof. unfold copy2_target. destruct (lookup_path t [d; n]) as [[|]|]; eauto. Qed.

Section Frames.

Variable E : env.

Lemma failed_outside w w' o pre base (c : string) (p : Path) :
  failed E w w' o pre base (c :: p) → outside c (fs w) base →
  outside c (fs w) (fs w').
Proof.
  intros (_ & [(_ & -> & _)|(res & _ & _ & -> & _)]) Hbase.
  - apply outside_refl.
  - eapply outside_trans; [done|apply outside_update].
Qed.

Lemma copy_jsonl_outside src (d n : string) w r w' :
  copy_jsonl_post E src [d; n] w r w' → outside d (fs w) (fs w').
Proof.
  intros [_ H]. destruct (copy2_target_below (fs w) src d n) as [p Hp].
  rewrite Hp in H. destruct r as [[]|e].
  - destruct H as [(_ & -> & _)|(c & _ & _ & -> & _)].
    + apply outside_refl.
    + apply outside_update.
  - destruct H as (_ & _ & H). eapply failed_outside; [done|apply outside_refl].
Qed.

Lemma copy_subdir_outside src (d n : string) w r w' :
  copy_subdir_post E src [d; n] w r w' → outside d (fs w) (fs w').
Proof.
  intros [_ H]. destruct r as [[]|e].
  - destruct H as [(_ & -> & _)|(ch & t' & (_ & _ & Hm) & _ & -> & _)].
    + apply outside_refl.
    + eapply outside_trans; [by eapply outside_makedirs|apply outside_update].
  - destruct H as (_ & _ & _ & [(_ & -> & _)|(res & ch & t' & _ & (_ & _ & Hm) & -> & _)]).
    + apply outside_refl.
    + eapply outside_trans; [by eapply outside_makedirs|apply outside_update].
Qed.

Lemma save_outside (c n : string) j w r w' :
  save_post E [c; n] j w r w' → outside c (fs w) (fs w').
Proof.
  intros [_ H]. destruct r as [[]|e].
  - destruct H as (_ & _ & -> & _). apply outside_update.
  - destruct H as [_ H]. eapply failed_outside; [done|apply outside_refl].
Qed.

Lemma add_to_dest_index_outside (d : string) di new w r w' :
  add_to_dest_index_post E [d] di new w r w' → outside d (fs w) (fs w').
Proof.
  unfold add_to_dest_index_post. destruct (append_entry di new).
  - apply save_outside.
  - intros (_ & _ & _ & -> & _). apply outside_refl.
Qed.

Lemma remove_from_source_index_outside (s : string) si sidx w r w' :
  remove_from_source_index_post E [s] si sidx w r w' → outside s (fs w) (fs w').
Proof.
  unfold remove_from_source_index_post. destruct sidx as [i|].
  - destruct (pop_entry si i).
    + apply save_outside.
    + intros (_ & _ & _ & -> & _). apply outside_refl.
  - intros (_ & _ & -> & _). apply outside_refl.
Qed.

Lemma removed_outside (c : string) (p : Path) o w w' :
  removed E w w' o (c :: p) → outside c (fs w) (fs w').
Proof.
  intros (_ & [(_ & -> & _)|(_ & _ & -> & _)]).
  - apply outside_refl.
  - apply outside_update.
Qed.

Lemma delete_source_files_outside (s a b : string) w r w' :
  delete_source_files_post E [s; a] [s; b] w r w' → outside s (fs w) (fs w').
Proof.
  intros [_ H]. destruct r as [[]|e].
  - destruct H as (w1 & H1 & _ & H2 & _).
    eapply outside_trans; by eapply removed_outside.
  - destruct H as (_ & [(_ & _ & _ & -> & _)|(w1 & H1 & _ & H2)]).
    + apply outside_refl.
    + eapply outside_trans; [by eapply removed_outside|].
      eapply failed_outside; [done|apply outside_refl].
Qed.

(** Deleting a session's log file and auxiliary directory leaves the
    index file of the same project directory alone, as long as that index
    file is not itself a directory. *)
Lemma delete_source_files_index (s sid : string) w w' :
  delete_source_files_post E [s; sid ++ ".jsonl"] [s; sid] w (Ok tt) w' →
  (∀ ch, lookup_path (fs w) [s; "sessions-index.json"] ≠ Some (Dir ch)) →
  lookup_path (fs w') [s; "sessions-index.json"]
  = lookup_path (fs w) [s; "sessions-index.json"].
Proof.
  intros (_ & w1 & (_ & H1) & _ & (_ & H2) & Hdir) Hidx.
  assert (lookup_path (fs w1) [s; "sessions-index.json"]
          = lookup_path (fs w) [s; "sessions-index.json"]) as H01.
  { destruct H1 as [(_ & -> & _)|(_ & _ & -> & _)]; [done|].
    apply lookup_update_diverge. solve_diverge. }
  rewrite <-H01.
  destruct H2 as [(_ & -> & _)|([n Hn] & _ & -> & _)]; [done|].
  destruct (Hdir n Hn) as [ch ->].
  destruct (decide (sid = "sessions-index.json")) as [->|Hne].
  - rewrite H01 in Hn. by apply Hidx in Hn.
  - apply lookup_update_diverge. solve_diverge.
Qed.

End Frames.

(** ** What a step records *)

(** The record of changes of [w'] is that of [w] followed by events that
    all satisfy [P]. *)
Definition appended (P : event → Prop) (w w' : world) : Prop :=
  ∃ evs, trace w' = (trace w ++ evs)%list ∧ Forall P evs.

Lemma appended_same P w w' : trace w' = trace w → appended P w w'.
Proof. intros H. exists []. by rewrite app_nil_r. Qed.

Lemma appended_one P w w' ev :
  trace w' = (trace w ++ [ev])%list → P ev → appended P w w'.
Proof. intros H Hev. exists [ev]. split; [done|]. by constructor. Qed.

Lemma appended_trans P w1 w2 w3 :
  appended P w1 w2 → appended P w2 w3 → appended P w1 w3.
Proof.
  intros (e1 & H1 & F1) (e2 & H2 & F2). exists (e1 ++ e2)%list.
  split; [by rewrite H2, H1, app_assoc|]. by apply Forall_app.
Qed.

Lemma appended_mono (P Q : event → Prop) w w' :
  (∀ ev, P ev → Q ev) → appended P w w' → appended Q w w'.
Proof.
  intros HPQ (evs & H & F). exists evs. split; [done|].
  eapply Forall_impl; eauto.
Qed.

Section Records.

Variable E : env.

Lemma failed_appended (P : event → Prop) w w' o pre base target :
  failed E w w' o pre base target → P (o, false) → appended P w w'.
Proof.
  intros (_ & [(_ & _ & Htr)|(res & _ & _ & _ & Htr)]) HP.
  - by apply appended_same.
  - by eapply appended_one.
Qed.

Lemma copy_jsonl_appended src dst w r w' :
  copy_jsonl_post E src dst w r w' →
  appended (λ ev, ∃ target, ev.1 = Copy2 src target) w w'.
Proof.
  intros [_ H]. destruct r as [[]|e].
  - destruct H as [(_ & _ & Htr & _)|(c & _ & _ & _ & Htr & _)].
    + by apply appended_same.
    + eapply appended_one; [done|]. simpl. eauto.
  - destruct H as (_ & _ & H). eapply failed_appended; [done|]. simpl. eauto.
Qed.

Lemma copy_subdir_appended src dst w r w' :
  copy_subdir_post E src dst w r w' →
  appended (λ ev, ev.1 = Copytree src dst) w w'.
Proof.
  intros [_ H]. destruct r as [[]|e].
  - destruct H as [(_ & _ & Htr & _)|(ch & t' & _ & _ & _ & Htr & _)].
    + by apply appended_same.
    + by eapply appended_one.
  - destruct H as (_ & _ & _ & [(_ & _ & Htr)|(res & ch & t' & _ & _ & _ & Htr)]).
    + by apply appended_same.
    + by eapply appended_one.
Qed.

Lemma save_appended p j w r w' :
  save_post E p j w r w' → appended (λ ev, ev.1 = Write p) w w'.
Proof.
  intros [_ H]. destruct r as [[]|e].
  - destruct H as (_ & _ & _ & Htr & _). by eapply appended_one.
  - destruct H as [_ H]. by eapply failed_appended.
Qed.

Lemma add_to_dest_index_appended dir di new w r w' :
  add_to_dest_index_post E dir di new w r w' →
  appended (λ ev, ev.1 = Write (dir </> "sessions-index.json")) w w'.
Proof.
  unfold add_to_dest_index_post. destruct (append_entry di new).
  - apply save_appended.
  - intros (_ & _ & _ & _ & Htr & _). by apply appended_same.
Qed.

Lemma remove_from_source_index_appended dir si sidx w r w' :
  remove_from_source_index_post E dir si sidx w r w' →
  appended (λ ev, sidx ≠ None ∧ ev.1 = Write (dir </> "sessions-index.json")) w w'.
Proof.
  unfold remove_from_source_index_post. destruct sidx as [i|].
  - destruct (pop_entry si i).
    + intros H. eapply appended_mono; [|by eapply save_appended].
      by intros ev ->.
    + intros (_ & _ & _ & _ & Htr & _). by apply appended_same.
  - intros (_ & _ & _ & Htr & _). by apply appended_same.
Qed.

Lemma removed_appended o p w w' :
  removed E w w' o p → appended (λ ev, ev.1 = o) w w'.
Proof.
  intros (_ & [(_ & _ & Htr & _)|(_ & _ & _ & Htr & _)]).
  - by apply appended_same.
  - by eapply appended_one.
Qed.

Lemma delete_source_files_appended log sub w r w' :
  delete_source_files_post E log sub w r w' →
  appended (λ ev, ev.1 = Unlink log ∨ ev.1 = Rmtree sub) w w'.
Proof.
  intros [_ H]. destruct r as [[]|e].
  - destruct H as (w1 & H1 & _ & H2 & _).
    eapply appended_trans.
    + eapply appended_mono; [|by eapply removed_appended]. by left.
    + eapply appended_mono; [|by eapply removed_appended]. by right.
  - destruct H as (_ & [(_ & _ & _ & _ & Htr)|(w1 & H1 & _ & H2)]).
    + by apply appended_same.
    + eapply appended_trans.
      * eapply appended_mono; [|by eapply removed_appended]. by left.
      * eapply failed_appended; [done|]. by right.
Qed.

End Records.

(** ** A move that succeeds *)

Lemma mkdir_keeps_entries t (d c n : string) (q : Path) :
  lookup_path t [d] = None →
  lookup_path (update_path (Some (Dir ∅)) t [d]) (c :: n :: q)
  = lookup_path t (c :: n :: q).
Proof.
  intros Hd. destruct (decide (c = d)) as [->|Hne].
  - by destruct (lookup_fresh_dir t d n q Hd) as [-> ->].
  - apply lookup_update_diverge. simpl. left. congruence.
Qed.

Section Success.

Variable E : env.

(** The entry staged for the destination from the fields [kvs] of the
    session's entry, at clock reading [n]. *)
Definition staged_entry (sid dest_path : string) (n : nat)
    (kvs : list (string * json)) : json :=
  JObj (dict_set "modified" (JStr (now E n))
          (dict_set "projectPath" (JStr dest_path)
             (dict_set "fullPath"
                (JStr (str_path E (get_project_dir dest_path </> (sid ++ ".jsonl"))))
                kvs))).

(** Printing changes neither the tree, nor the record of changes, nor
    the counters. *)
Definition silent {A} (m : M A) : Prop :=
  ∀ w, wp m w (λ r w', fs w' = fs w ∧ trace w' = trace w
                       ∧ calls w' = calls w ∧ ticks w' = ticks w
                       ∧ match r with
                         | Raise e => is_Exception e = true
                         | Ok _ => True
                         end).

Lemma silent_bind {A B} (m : M A) (k : A → M B) :
  silent m → (∀ a, silent (k a)) → silent (bind m k).
Proof.
  intros Hm Hk w. apply wp_bind. eapply wp_mono; [apply Hm|].
  intros [a|e] w1 (Hfs & Htr & Hc & Ht & He); cbn beta iota; [|done].
  eapply wp_mono; [apply Hk|]. cbn beta.
  intros r w2 (-> & -> & -> & -> & Hr). done.
Qed.

Lemma silent_print s : silent (print s).
Proof. by intros w. Qed.

Lemma silent_print_line l : silent (print_line l).
Proof. by intros w. Qed.

Lemma silent_ret {A} (a : A) : silent (ret a).
Proof. by intros w. Qed.

Lemma silent_when b m : silent m → silent (when b m).
Proof. intros H. destruct b; [done|apply silent_ret]. Qed.

Lemma silent_summary_of x : silent (lift (summary_of x)).
Proof.
  intros w. pose proof (caught_summary_of x w) as H. unfold wp in *.
  cbn [lift fst snd] in *. by destruct (summary_of x).
Qed.

Lemma stage_sound sid sp dp dry verbose sd w :
  wp (stage E sid sp dp dry verbose sd) w
    (λ r w', fs w' = fs w ∧ trace w' = trace w ∧ calls w' = calls w ∧
       match r with
       | Ok new => ∃ kvs, sd = JObj kvs
                          ∧ new = staged_entry sid dp (ticks w) kvs
                          ∧ ticks w' = S (ticks w)
       | Raise e => is_Exception e = true
       end).
Proof.
  unfold stage. apply wp_bind.
  eapply wp_mono.
  { apply silent_when.
    repeat lazymatch goal with
           | |- silent (bind _ _) => apply silent_bind; [|intros ?]
           | |- silent (print _) => apply silent_print
           | |- silent (print_line _) => apply silent_print_line
           | |- silent (lift (summary_of _)) => apply silent_summary_of
           end. }
  intros [[]|e] w1 (Hfs & Htr & Hc & Ht & He); cbn beta iota; [|done].
  apply wp_bind, wp_lift.
  destruct sd as [| | | | |kvs]; try done. simpl.
  apply wp_bind, wp_lift. apply wp_bind, wp_now. apply wp_lift. simpl.
  rewrite Ht. eauto 10.
Qed.

(** A run of the handler never ends normally. *)
Lemma on_failure_not_ok sid a b c e w w' :
  on_failure E sid a b c e w ≠ (Ok tt, w').
Proof.
  intros H. pose proof (on_failure_exits E sid a b c e w) as Hx.
  apply wp_run with (r := Ok tt) (w' := w') in Hx; [|done]. by destruct Hx.
Qed.

Lemma index_at_not_dir t (dir : Path) orig j :
  index_at t dir orig = Some j →
  ∀ ch, lookup_path t (dir </> "sessions-index.json") ≠ Some (Dir ch).
Proof. unfold index_at. intros H ch Hch. by rewrite Hch in H. Qed.

Lemma migrated_indexes (s d sid : string) si di sidx new w w' :
  s ≠ d →
  (∀ ch, lookup_path (fs w) [s; "sessions-index.json"] ≠ Some (Dir ch)) →
  migrate_run E [s] [d] [s; sid ++ ".jsonl"] [d; sid ++ ".jsonl"]
    [s; sid] [d; sid] si di sidx new w (Ok tt) w' →
  ∃ di', append_entry di new = Ok di'
    ∧ lookup_path (fs w') [d; "sessions-index.json"] = Some (File (Doc di'))
    ∧ match sidx with
      | Some i =>
          ∃ si', pop_entry si i = Ok si'
                 ∧ lookup_path (fs w') [s; "sessions-index.json"]
                   = Some (File (Doc si'))
      | None =>
          lookup_path (fs w') [s; "sessions-index.json"]
          = lookup_path (fs w) [s; "sessions-index.json"]
          ∧ appended (λ ev, ev.1 ≠ Write [s; "sessions-index.json"]) w w'
      end.
Proof.
  intros Hsd Hidx Hrun.
  inversion Hrun as [| | | | |w1 w2 w3 w4 w5 w'' H1 H2 H3 H4 H5 Hfs Htr _ _]; subst.
  assert (appended (λ ev, sidx = None → ev.1 ≠ Write [s; "sessions-index.json"]) w w')
    as Happended.
  { eapply appended_trans; [|eapply appended_trans; [|eapply appended_trans;
      [|eapply appended_trans; [|eapply appended_trans]]]].
    - eapply appended_mono; [|by eapply copy_jsonl_appended].
      by intros ev [tgt ->] _.
    - eapply appended_mono; [|by eapply copy_subdir_appended].
      by intros ev -> _.
    - eapply appended_mono; [|by eapply add_to_dest_index_appended].
      intros ev -> _. intros [= ?]. done.
    - eapply appended_mono; [|by eapply remove_from_source_index_appended].
      by intros ev [? _] ?.
    - eapply appended_mono; [|by eapply delete_source_files_appended].
      by intros ev [->| ->] _.
    - by apply appended_same. }
  pose proof (copy_jsonl_outside E _ _ _ _ _ _ H1) as O1.
  pose proof (copy_subdir_outside E _ _ _ _ _ _ H2) as O2.
  pose proof (add_to_dest_index_outside E _ _ _ _ _ _ H3) as O3.
  pose proof (remove_from_source_index_outside E _ _ _ _ _ _ H4) as O4.
  pose proof (delete_source_files_outside E _ _ _ _ _ _ H5) as O5.
  unfold add_to_dest_index_post in H3.
  destruct (append_entry di new) as [di'|e]; [|by destruct H3].
  exists di'. split; [done|]. rewrite Hfs.
  destruct H3 as (_ & [[ch Hpar] _] & _ & Hfs3 & _).
  assert (lookup_path (fs w3) [d; "sessions-index.json"] = Some (File (Doc di')))
    as Hd3.
  { rewrite Hfs3. by eapply lookup_update_eq. }
  split.
  { rewrite (O5 d), (O4 d) by done. exact Hd3. }
  assert (lookup_path (fs w3) [s; "sessions-index.json"]
          = lookup_path (fs w) [s; "sessions-index.json"]) as Hs3.
  { by rewrite (O3 s), (O2 s), (O1 s). }
  unfold remove_from_source_index_post in H4. destruct sidx as [i|].
  - destruct (pop_entry si i) as [si'|e]; [|by destruct H4].
    exists si'. split; [done|].
    destruct H4 as (_ & [[ch' Hpar'] _] & _ & Hfs4 & _).
    assert (lookup_path (fs w4) [s; "sessions-index.json"] = Some (File (Doc si')))
      as Hs4.
    { rewrite Hfs4. by eapply lookup_update_eq. }
    rewrite (delete_source_files_index E _ _ _ _ H5); [done|].
    intros ch''. by rewrite Hs4.
  - destruct H4 as (_ & _ & Hfs4 & _). split.
    + rewrite (delete_source_files_index E _ _ _ _ H5).
      * by rewrite Hfs4.
      * rewrite Hfs4, Hs3. done.
    + eapply appended_mono; [|exact Happended]. intros ev H. by apply H.
Qed.

Lemma index_at_same t t' (c : string) orig :
  lookup_path t' [c; "sessions-index.json"] = lookup_path t [c; "sessions-index.json"] →
  index_at t' [c] orig = index_at t [c] orig.
Proof.
  unfold index_at.
  change ([c] </> "sessions-index.json") with [c; "sessions-index.json"].
  by intros ->.
Qed.

(** A log file is never copied onto itself. *)
Lemma migrated_needs_distinct (s d sid : string) si di sidx new w w' :
  migrate_run E [s] [d] [s; sid ++ ".jsonl"] [d; sid ++ ".jsonl"]
    [s; sid] [d; sid] si di sidx new w (Ok tt) w' →
  is_Some (lookup_path (fs w) [s; sid ++ ".jsonl"]) → s ≠ d.
Proof.
  intros Hrun [n Hn] ->.
  inversion Hrun as [| | | | |w1 w2 w3 w4 w5 w'' H1 _ _ _ _ _ _ _ _]; subst.
  destruct H1 as (_ & [(Hnone & _)|(c & (Hsrc & Hne & _) & _)]); [congruence|].
  apply Hne. unfold copy2_target. by rewrite Hsrc.
Qed.

Lemma scan_entries_is_dict sid k l i x :
  scan_entries sid k l = Ok (Some (i, x)) → ∃ kvs, x = JObj kvs.
Proof.
  revert k. induction l as [|y rest IH]; intros k; simpl; [done|].
  destruct y as [| | | | |kvs]; try done.
  destruct (py_eq_str _ _); [|apply IH]. intros [= _ <-]. eauto.
Qed.

Lemma find_session_is_dict index sid i x :
  find_session_in_index index sid = Ok (Some (i, x)) → ∃ kvs, x = JObj kvs.
Proof.
  unfold find_session_in_index. destruct index as [| | | | |kvs]; try done.
  destruct (py_iter _) as [l|]; [|done]. apply scan_entries_is_dict.
Qed.

(** What a successful move has done, in terms of the tree [t] it
    started from. *)
Definition moved (sid sp dp : string) (t : node) (w' : world) : Prop :=
  let s := encode_path sp in
  let d := encode_path dp in
  ∃ x kvs di' k,
    s ≠ d
    ∧ index_at t [s] None = Some (source_index x)
    ∧ index_at t [d] (Some dp) = Some (dest_index x)
    ∧ find_session_in_index (dest_index x) sid = Ok None
    ∧ session_data x = JObj kvs
    ∧ ((∃ i, find_session_in_index (source_index x) sid
             = Ok (Some (i, session_data x))
             ∧ session_idx x = Some i ∧ k = 0)
       ∨ (find_session_in_index (source_index x) sid = Ok None
          ∧ session_idx x = None
          ∧ session_data x = synthetic_entry E sid sp 0 ∧ k = 2))
    ∧ append_entry (dest_index x) (staged_entry sid dp k kvs) = Ok di'
    ∧ lookup_path (fs w') [d; "sessions-index.json"] = Some (File (Doc di'))
    ∧ match session_idx x with
      | Some i =>
          ∃ si', pop_entry (source_index x) i = Ok si'
                 ∧ lookup_path (fs w') [s; "sessions-index.json"]
                   = Some (File (Doc si'))
      | None =>
          lookup_path (fs w') [s; "sessions-index.json"]
          = lookup_path t [s; "sessions-index.json"]
          ∧ Forall (λ ev, ev.1 ≠ Write [s; "sessions-index.json"]) (trace w')
      end.

Lemma move_session_success sid sp dp verbose t :
  wp (move_session E sid sp dp false verbose) (init t)
    (λ r w', r = Ok tt → moved sid sp dp t w').
Proof.
  unfold move_session.
  apply wp_bind. eapply wp_mono; [apply resolve_directories_sound|].
  intros [[]|e] w1 (Hti1 & H1); cbn beta iota; [|done].
  destruct H1 as (Hsrc & Hframe). unfold init in Hframe, Hsrc, Hti1.
  cbn [fs trace calls ticks] in Hframe, Hsrc, Hti1.
  change (get_project_dir sp) with [encode_path sp] in *.
  change (get_project_dir dp) with [encode_path dp] in *.
  set (s := encode_path sp) in *. set (d := encode_path dp) in *.
  assert (∀ c n, lookup_path (fs w1) [c; n] = lookup_path t [c; n]) as Hsame.
  { intros c n.
    destruct Hframe as [(-> & _)|(_ & Hd & _ & -> & _)]; [done|].
    by apply mkdir_keeps_entries. }
  apply wp_bind. eapply wp_mono; [apply locate_session_sound|].
  intros [x|e] w2 (Hfs2 & Htr2 & H2); cbn beta iota; [|done].
  change (get_project_dir sp) with [s] in *.
  change (get_project_dir dp) with [d] in *.
  destruct H2 as (Hsi & Hdi & Hnodup & Hloc).
  assert (index_at t [s] None = Some (source_index x)) as Hsi'.
  { rewrite <-Hsi. symmetry. apply index_at_same, Hsame. }
  assert (index_at t [d] (Some dp) = Some (dest_index x)) as Hdi'.
  { rewrite <-Hdi. symmetry. apply index_at_same, Hsame. }
  apply wp_bind. eapply wp_mono; [apply stage_sound|].
  intros [new|e] w3 (Hfs3 & Htr3 & Hc3 & H3); cbn beta iota; [|done].
  destruct H3 as (kvs & Hkvs & -> & Hti3).
  apply wp_try. eapply wp_mono; [apply migrate_sound|].
  intros [[]|e] w4 Hrun; cycle 1.
  { destruct (is_Exception e); [|done].
    apply wp_run. intros r w5 Hh [= ->]. by apply on_failure_not_ok in Hh. }
  intros _.
  change (get_project_dir sp) with [s] in *.
  change (get_project_dir dp) with [d] in *.
  change ([s] </> (sid ++ ".jsonl")) with [s; sid ++ ".jsonl"] in *.
  change ([d] </> (sid ++ ".jsonl")) with [d; sid ++ ".jsonl"] in *.
  change ([s] </> sid) with [s; sid] in *.
  change ([d] </> sid) with [d; sid] in *.
  assert (s ≠ d) as Hsd.
  { destruct Hloc as [(i & Hfound & _)|(_ & _ & Hlog & _)].
    - intros Heq. rewrite <-Heq in Hdi'. unfold index_at in Hsi', Hdi'.
      destruct (lookup_path t ([s] </> "sessions-index.json")) as [[[|j]|]|];
        try done.
      + congruence.
      + injection Hsi' as Hj. rewrite <-Hj in Hfound. discriminate Hfound.
    - eapply migrated_needs_distinct; [done|]. by rewrite Hfs3, Hfs2. }
  assert (∀ ch, lookup_path (fs w3) [s; "sessions-index.json"] ≠ Some (Dir ch))
    as Hnd.
  { rewrite Hfs3, Hfs2. by eapply (index_at_not_dir _ [s]). }
  destruct (migrated_indexes _ _ _ _ _ _ _ _ _ Hsd Hnd Hrun)
    as (di' & Happ & Hd' & Hs').
  subst s d. exists x, kvs, di', (ticks w2).
  split; [done|]. split; [done|]. split; [done|]. split; [done|].
  split; [done|]. split.
  { destruct Hloc as [(i & Hfound & Hi & Ht)|(Hnone & Hi & _ & Hsd' & Ht)].
    - left. exists i. rewrite Ht, Hti1. done.
    - right. rewrite Ht, Hsd', !Hti1. done. }
  split; [done|]. split; [done|].
  revert Hs'. destruct (session_idx x); [done|]. intros [Hs' (evs & Hevs & Fevs)].
  split; [by rewrite Hs', Hfs3, Hfs2, Hsame|].
  rewrite Hevs, Htr3, Htr2. apply Forall_app. split; [|done].
  destruct Hframe as [(_ & -> & _)|(_ & _ & _ & _ & -> & _)]; [done|].
  simpl. by repeat constructor.
Qed.

End Success.

(** ** Entries after a successful move *)

(** The entries of an index (none when it is not a [dict] with a list
    under "entries"). *)
Definition entries_of (index : json) : list json :=
  match index with
  | JObj kvs =>
      match dict_get "entries" kvs with
      | Some (JArr l) => l
      | _ => []
      end
  | _ => []
  end.

(** A field of an entry. *)
Definition field (k : string) (entry : json) : option json :=
  match entry with
  | JObj kvs => dict_get k kvs
  | _ => None
  end.

Lemma scan_entries_strings sid k (A : Type) (f : A → string) (l : list A) i x :
  scan_entries sid k ((λ a, JStr (f a)) <$> l) ≠ Ok (Some (i, x)).
Proof. by destruct l. Qed.

Lemma find_session_found index sid i x :
  find_session_in_index index sid = Ok (Some (i, x)) →
  scan_entries sid 0 (entries_of index) = Ok (Some (i, x)).
Proof.
  unfold find_session_in_index, entries_of.
  destruct index as [| | | | |kvs]; try done.
  destruct (dict_get "entries" kvs) as [[| | |s|l|kvs']|]; simpl; try done.
  - intros H. by apply (scan_entries_strings sid 0 _ (λ c, String c EmptyString)) in H.
  - intros H. by apply (scan_entries_strings sid 0 _ (λ kv, kv.1)) in H.
Qed.

Lemma append_entry_entries index new index' :
  append_entry index new = Ok index' →
  entries_of index' = (entries_of index ++ [new])%list.
Proof.
  unfold append_entry, entries_of. destruct index as [| | | | |kvs]; try done.
  destruct (dict_get "entries" kvs) as [[| | | |l|]|] eqn:He; try done.
  intros [= <-]. by rewrite dict_get_set_eq.
Qed.

Lemma find_none_entries index sid :
  find_session_in_index index sid = Ok None →
  (∃ kvs l, index = JObj kvs ∧ dict_get "entries" kvs = Some (JArr l)) →
  scan_entries sid 0 (entries_of index) = Ok None.
Proof.
  intros H (kvs & l & -> & He). unfold find_session_in_index, entries_of in *.
  by rewrite He in *.
Qed.

Lemma filter_no_match sid (l : list json) :
  Forall (λ x, (∃ kvs, x = JObj kvs) ∧ matches sid x = false) l →
  filter (λ y, matches sid y = true) l = [].
Proof.
  induction 1 as [|y l' [_ Hy] _ IH]; [done|].
  rewrite filter_cons_False; [done|]. by rewrite Hy.
Qed.

Lemma append_entry_find index new index' sid :
  append_entry index new = Ok index' →
  find_session_in_index index sid = Ok None →
  matches sid new = true →
  find_session_in_index index' sid = Ok (Some (length (entries_of index), new))
  ∧ entries_of index' = (entries_of index ++ [new])%list
  ∧ filter (λ y, matches sid y = true) (entries_of index') = [new].
Proof.
  intros Happ Hfind Hm.
  pose proof (append_entry_entries _ _ _ Happ) as Hent.
  unfold append_entry in Happ. destruct index as [| | | | |kvs]; try done.
  destruct (dict_get "entries" kvs) as [[| | | |l|]|] eqn:He; try done.
  injection Happ as <-.
  assert (scan_entries sid 0 l = Ok None) as Hscan.
  { unfold find_session_in_index in Hfind. by rewrite He in Hfind. }
  assert (entries_of (JObj kvs) = l) as Hl.
  { unfold entries_of. by rewrite He. }
  rewrite Hl in *. split; [|split; [done|]].
  - unfold find_session_in_index. rewrite dict_get_set_eq. simpl.
    rewrite scan_entries_app_none by done. simpl.
    destruct new as [| | | | |nkvs]; try done. simpl in Hm. by rewrite Hm.
  - rewrite Hent, filter_app.
    apply scan_entries_none in Hscan.
    rewrite (filter_no_match _ _ Hscan).
    simpl. by rewrite filter_cons_True, filter_nil.
Qed.

Lemma pop_entry_entries index i index' :
  pop_entry index i = Ok index' →
  entries_of index' = delete i (entries_of index).
Proof.
  unfold pop_entry, entries_of. destruct index as [| | | | |kvs]; try done.
  destruct (dict_get "entries" kvs) as [[| | | |l|]|] eqn:He; try done.
  case_bool_decide; [|done]. intros [= <-]. by rewrite dict_get_set_eq.
Qed.

Section Moved.

Variable E : env.

Lemma indexed_move sid sp dp verbose t w' si i entry :
  move_session E sid sp dp false verbose (init t) = (Ok tt, w') →
  index_at t (get_project_dir sp) None = Some si →
  find_session_in_index si sid = Ok (Some (i, entry)) →
  ∃ kvs di di' si',
    entry = JObj kvs
    ∧ index_at t (get_project_dir dp) (Some dp) = Some di
    ∧ find_session_in_index di sid = Ok None
    ∧ append_entry di (staged_entry E sid dp 0 kvs) = Ok di'
    ∧ lookup_path (fs w') (get_project_dir dp </> "sessions-index.json")
      = Some (File (Doc di'))
    ∧ pop_entry si i = Ok si'
    ∧ lookup_path (fs w') (get_project_dir sp </> "sessions-index.json")
      = Some (File (Doc si')).
Proof.
  intros Hrun Hsi Hfind.
  pose proof (move_session_success E sid sp dp verbose t) as H.
  apply wp_run with (r := Ok tt) (w' := w') in H; [|done].
  destruct (H eq_refl)
    as (x & kvs & di' & k & Hsd & Hsi' & Hdi & Hnodup & Hkvs & Hloc & Happ & Hd & Hs).
  change (get_project_dir sp) with [encode_path sp] in *.
  change (get_project_dir dp) with [encode_path dp] in *.
  rewrite Hsi in Hsi'. injection Hsi' as Hsi'. rewrite <-Hsi' in *.
  destruct Hloc as [(i' & Hfound & Hi & ->)|(Hnone & _)]; [|congruence].
  rewrite Hfind in Hfound. injection Hfound as <- Hentry.
  rewrite Hi in Hs. destruct Hs as (si' & Hpop & Hs).
  exists kvs, (dest_index x), di', si'. rewrite Hentry. eauto 10.
Qed.

Lemma staged_entry_fields sid dp n kvs k :
  k ≠ "fullPath" → k ≠ "projectPath" → k ≠ "modified" →
  field k (staged_entry E sid dp n kvs) = dict_get k kvs.
Proof.
  intros H1 H2 H3. unfold staged_entry, field.
  rewrite !dict_get_set_ne by congruence. done.
Qed.

(** C4, as the code has it. After a successful move of a session that
    was in the source index, the destination index file holds an entry for
    the identifier, and the locator finds it there. That entry carries
    the source entry's [sessionId], [created] and [summary] (indeed every
    field but the three below) unchanged; its [fullPath] is the
    destination log-file path, its [projectPath] the destination project
    path, and its [modified] is the reading of the clock taken when the
    entry was staged. The code does not compare that reading with the
    value it replaces. *)
Theorem moved_entry_metadata sid source_path dest_path verbose t w' si i entry :
  move_session E sid source_path dest_path false verbose (init t) = (Ok tt, w') →
  index_at t (get_project_dir source_path) None = Some si →
  find_session_in_index si sid = Ok (Some (i, entry)) →
  ∃ di' n entry',
    lookup_path (fs w') (get_project_dir dest_path </> "sessions-index.json")
    = Some (File (Doc di'))
    ∧ find_session_in_index di' sid = Ok (Some (n, entry'))
    ∧ field "sessionId" entry' = field "sessionId" entry
    ∧ field "created" entry' = field "created" entry
    ∧ field "summary" entry' = field "summary" entry
    ∧ (∀ k, k ≠ "fullPath" → k ≠ "projectPath" → k ≠ "modified" →
            field k entry' = field k entry)
    ∧ field "fullPath" entry'
      = Some (JStr (str_path E (get_project_dir dest_path </> (sid ++ ".jsonl"))))
    ∧ field "projectPath" entry' = Some (JStr dest_path)
    ∧ field "modified" entry' = Some (JStr (now E 0)).
Proof.
  intros Hrun Hsi Hfind.
  destruct (indexed_move _ _ _ _ _ _ _ _ _ Hrun Hsi Hfind)
    as (kvs & di & di' & si' & -> & Hdi & Hnodup & Happ & Hd & _).
  assert (matches sid (staged_entry E sid dest_path 0 kvs) = true) as Hm.
  { apply find_session_found, scan_entries_found in Hfind.
    destruct Hfind as (_ & _ & Hm & _). simpl in Hm. unfold staged_entry. simpl.
    rewrite !dict_get_set_ne by done. exact Hm. }
  destruct (append_entry_find _ _ _ _ Happ Hnodup Hm) as (Hfind' & _).
  exists di', (length (entries_of di)), (staged_entry E sid dest_path 0 kvs).
  split; [done|]. split; [done|].
  split; [by apply staged_entry_fields|].
  split; [by apply staged_entry_fields|].
  split; [by apply staged_entry_fields|].
  split; [intros k; apply staged_entry_fields|].
  unfold staged_entry, field.
  split; [|split].
  - rewrite !dict_get_set_ne by done. apply dict_get_set_eq.
  - rewrite dict_get_set_ne by done. apply dict_get_set_eq.
  - apply dict_get_set_eq.
Qed.

(** C10. With several entries for the identifier in the source index,
    the locator returns the one at the lowest position; a successful move
    pops exactly that position from the list the source index holds
    afterwards, so every other entry, later duplicates included, stays,
    in order; and the destination index holds what it held plus one entry
    at the end, the only one there for the identifier. *)
Theorem first_duplicate_moves sid source_path dest_path verbose t w' si i entry :
  move_session E sid source_path dest_path false verbose (init t) = (Ok tt, w') →
  index_at t (get_project_dir source_path) None = Some si →
  find_session_in_index si sid = Ok (Some (i, entry)) →
  (entries_of si !! i = Some entry ∧ matches sid entry = true
   ∧ ∀ j y, (j < i)%nat → entries_of si !! j = Some y → matches sid y = false)
  ∧ ∃ si' di di' new,
      lookup_path (fs w') (get_project_dir source_path </> "sessions-index.json")
      = Some (File (Doc si'))
      ∧ entries_of si' = delete i (entries_of si)
      ∧ (∀ j, (i ≤ j)%nat → entries_of si' !! j = entries_of si !! S j)
      ∧ (∀ j, (j < i)%nat → entries_of si' !! j = entries_of si !! j)
      ∧ index_at t (get_project_dir dest_path) (Some dest_path) = Some di
      ∧ lookup_path (fs w') (get_project_dir dest_path </> "sessions-index.json")
        = Some (File (Doc di'))
      ∧ entries_of di' = (entries_of di ++ [new])%list
      ∧ filter (λ y, matches sid y = true) (entries_of di') = [new].
Proof.
  intros Hrun Hsi Hfind.
  destruct (indexed_move _ _ _ _ _ _ _ _ _ Hrun Hsi Hfind)
    as (kvs & di & di' & si' & -> & Hdi & Hnodup & Happ & Hd & Hpop & Hs).
  pose proof (find_session_found _ _ _ _ Hfind) as Hscan.
  apply scan_entries_found in Hscan. destruct Hscan as (_ & Hi & Hm & Hfirst).
  rewrite Nat.sub_0_r in Hi, Hfirst.
  split; [done|].
  assert (matches sid (staged_entry E sid dest_path 0 kvs) = true) as Hm'.
  { simpl in Hm. unfold staged_entry. simpl.
    rewrite !dict_get_set_ne by done. exact Hm. }
  destruct (append_entry_find _ _ _ _ Happ Hnodup Hm') as (_ & Hent & Hone).
  pose proof (pop_entry_entries _ _ _ Hpop) as Hpopped.
  exists si', di, di', (staged_entry E sid dest_path 0 kvs).
  split; [done|]. split; [done|].
  split. { intros j Hj. rewrite Hpopped. by apply list_lookup_delete_ge. }
  split. { intros j Hj. rewrite Hpopped. by apply list_lookup_delete_lt. }
  done.
Qed.

End Moved.

Lemma moved_entry_metadata_witness :
  let run := move_session reliable "abc123" "/home/alice/app" "/home/alice/app2"
               false false (init app_tree) in
  (run = (Ok tt, run.2)
   ∧ index_at app_tree (get_project_dir "/home/alice/app") None = Some app_index
   ∧ find_session_in_index app_index "abc123" = Ok (Some (0, app_entry)))
  ∧ ∃ di' n entry',
      lookup_path (fs run.2) (get_project_dir "/home/alice/app2" </> "sessions-index.json")
      = Some (File (Doc di'))
      ∧ find_session_in_index di' "abc123" = Ok (Some (n, entry'))
      ∧ field "sessionId" entry' = field "sessionId" app_entry
      ∧ field "created" entry' = field "created" app_entry
      ∧ field "summary" entry' = field "summary" app_entry
      ∧ (∀ k, k ≠ "fullPath" → k ≠ "projectPath" → k ≠ "modified" →
              field k entry' = field k app_entry)
      ∧ field "fullPath" entry'
        = Some (JStr (str_path reliable
                        (get_project_dir "/home/alice/app2" </> ("abc123" ++ ".jsonl"))))
      ∧ field "projectPath" entry' = Some (JStr "/home/alice/app2")
      ∧ field "modified" entry' = Some (JStr (now reliable 0)).
Proof.
  intros run.
  assert (run = (Ok tt, run.2)) as Hrun by (vm_compute; reflexivity).
  assert (index_at app_tree (get_project_dir "/home/alice/app") None = Some app_index)
    as Hsi by (vm_compute; reflexivity).
  assert (find_session_in_index app_index "abc123" = Ok (Some (0, app_entry)))
    as Hfind by (vm_compute; reflexivity).
  split; [exact (conj Hrun (conj Hsi Hfind))|].
  exact (moved_entry_metadata reliable "abc123" "/home/alice/app" "/home/alice/app2"
           false app_tree run.2 app_index 0 app_entry Hrun Hsi Hfind).
Defined.

(** C4 as stated fails: [datetime.now()] is the local wall clock, which
    goes back when daylight saving time ends. The entry was modified at
    01:59 before the change; the move happens at 01:05 after it. Both
    timestamps are in the layout [isoformat()] produces, in which the
    order of the strings is the order of the readings. The move succeeds
    and the destination entry's [modified] is earlier than the value it
    replaced. *)
Lemma modified_can_go_back :
  let E := {| projects_dir := "/home/alice/.claude/projects";
              now := λ _, "2026-11-01T01:05:00.000000";
              io := λ _, NoFault |} in
  let entry := JObj [("sessionId", JStr "abc123");
                     ("summary", JStr "Fix bug");
                     ("created", JStr "2026-10-31T09:00:00.000000");
                     ("modified", JStr "2026-11-01T01:59:00.000000")] in
  let index := JObj [("version", JNum 1); ("entries", JArr [entry]);
                     ("originalPath", JStr "/home/alice/app")] in
  let t := Dir {[ "-home-alice-app" :=
                    Dir {[ "sessions-index.json" := File (Doc index);
                           "abc123.jsonl" := File (Raw "0123456789") ]} ]} in
  let run := move_session E "abc123" "/home/alice/app" "/home/alice/app2"
               false false (init t) in
  run.1 = Ok tt
  ∧ index_at t (get_project_dir "/home/alice/app") None = Some index
  ∧ find_session_in_index index "abc123" = Ok (Some (0, entry))
  ∧ field "modified" entry = Some (JStr "2026-11-01T01:59:00.000000")
  ∧ match lookup_path (fs run.2)
            (get_project_dir "/home/alice/app2" </> "sessions-index.json") with
    | Some (File (Doc di')) =>
        match find_session_in_index di' "abc123" with
        | Ok (Some (_, entry')) => field "modified" entry'
        | _ => None
        end
    | _ => None
    end = Some (JStr "2026-11-01T01:05:00.000000")
  ∧ ¬ ("2026-11-01T01:59:00.000000" ≤ "2026-11-01T01:05:00.000000")%string.
Proof.
  vm_compute. repeat split; try reflexivity. auto.
Qed.

(** A source index with two entries for the same identifier, after an
    entry for another session. *)
Definition dup_index : json :=
  JObj [("version", JNum 1);
        ("entries",
         JArr [JObj [("sessionId", JStr "other"); ("summary", JStr "Other")];
               JObj [("sessionId", JStr "abc123"); ("summary", JStr "First")];
               JObj [("sessionId", JStr "abc123"); ("summary", JStr "Second")]]);
        ("originalPath", JStr "/home/alice/app")].

Definition dup_tree : node :=
  Dir {[ "-home-alice-app" :=
           Dir {[ "sessions-index.json" := File (Doc dup_index);
                  "abc123.jsonl" := File (Raw "0123456789") ]} ]}.

Lemma first_duplicate_moves_witness :
  let run := move_session reliable "abc123" "/home/alice/app" "/home/alice/app2"
               false false (init dup_tree) in
  let entry := JObj [("sessionId", JStr "abc123"); ("summary", JStr "First")] in
  (run = (Ok tt, run.2)
   ∧ index_at dup_tree (get_project_dir "/home/alice/app") None = Some dup_index
   ∧ find_session_in_index dup_index "abc123" = Ok (Some (1, entry)))
  ∧ (entries_of dup_index !! 1 = Some entry ∧ matches "abc123" entry = true
     ∧ ∀ j y, (j < 1)%nat → entries_of dup_index !! j = Some y →
              matches "abc123" y = false)
  ∧ ∃ si' di di' new,
      lookup_path (fs run.2) (get_project_dir "/home/alice/app" </> "sessions-index.json")
      = Some (File (Doc si'))
      ∧ entries_of si' = delete 1 (entries_of dup_index)
      ∧ (∀ j, (1 ≤ j)%nat → entries_of si' !! j = entries_of dup_index !! S j)
      ∧ (∀ j, (j < 1)%nat → entries_of si' !! j = entries_of dup_index !! j)
      ∧ index_at dup_tree (get_project_dir "/home/alice/app2") (Some "/home/alice/app2")
        = Some di
      ∧ lookup_path (fs run.2) (get_project_dir "/home/alice/app2" </> "sessions-index.json")
        = Some (File (Doc di'))
      ∧ entries_of di' = (entries_of di ++ [new])%list
      ∧ filter (λ y, matches "abc123" y = true) (entries_of di') = [new].
Proof.
  intros run entry.
  assert (run = (Ok tt, run.2)) as Hrun by (vm_compute; reflexivity).
  assert (index_at dup_tree (get_project_dir "/home/alice/app") None = Some dup_index)
    as Hsi by (vm_compute; reflexivity).
  assert (find_session_in_index dup_index "abc123" = Ok (Some (1, entry)))
    as Hfind by (vm_compute; reflexivity).
  split; [exact (conj Hrun (conj Hsi Hfind))|].
  exact (first_duplicate_moves reliable "abc123" "/home/alice/app" "/home/alice/app2"
           false dup_tree run.2 dup_index 1 entry Hrun Hsi Hfind).
Defined.

(** The run of [first_duplicate_moves_witness], evaluated: the later
    duplicate is still in the source index. *)
Example later_duplicate_stays :
  let run := move_session reliable "abc123" "/home/alice/app" "/home/alice/app2"
               false false (init dup_tree) in
  (entries_of <$> (match lookup_path (fs run.2) ["-home-alice-app"; "sessions-index.json"] with
                   | Some (File (Doc j)) => Some j
                   | _ => None
                   end))
  = Some [JObj [("sessionId", JStr "other"); ("summary", JStr "Other")];
          JObj [("sessionId", JStr "abc123"); ("summary", JStr "Second")]].
Proof. vm_compute. reflexivity. Qed.

(** ** A move that cannot fail *)

Lemma lookup_child t (s n : string) x :
  lookup_path t [s; n] = Some x →
  ∃ ch, lookup_path t [s] = Some (Dir ch) ∧ ch !! n = Some x.
Proof.
  simpl. destruct t as [?|top]; [done|].
  destruct (top !! s) as [[?|ch]|]; try done.
  destruct (ch !! n) eqn:Hn; [|done]. intros [= <-]. eauto.
Qed.


Section Progress.

Variable E : env.

Lemma resolve_directories_progress sp dp verbose w :
  io E (calls w) = NoFault →
  is_Some (lookup_path (fs w) (get_project_dir sp)) →
  wp (resolve_directories E sp dp false verbose) w (λ r _, r = Ok tt).
Proof.
  intros Hio [n Hsrc]. unfold resolve_directories.
  apply wp_bind. wp_call; [|congruence]. intros _ _.
  apply wp_bind. unfold when at 1. apply wp_ret.
  apply wp_bind. wp_call.
  - intros n' _. unfold when at 1. by apply wp_ret.
  - intros Hdst. unfold when at 1. apply wp_when_print. intros out.
    unfold when. wp_simpl. wp_call; [done|].
    intros e [?|Hmk]; [done|]. exfalso.
    change (get_project_dir dp) with [encode_path dp] in *.
    change (get_project_dir sp) with [encode_path sp] in *.
    erewrite makedirs_fresh in Hmk by eauto. done.
Qed.

Lemma index_at_load dir orig w j Q :
  (∀ n, io E n = NoFault) →
  index_at (fs w) dir orig = Some j →
  (∀ w', fs w' = fs w → trace w' = trace w → ticks w' = ticks w → Q (Ok j) w') →
  wp (load_sessions_index E dir orig) w Q.
Proof.
  intros Hio Hidx HQ. unfold index_at in Hidx. wp_call.
  - intros Hnone. rewrite Hnone in Hidx. injection Hidx as <-. by apply HQ.
  - intros j' _ Hj. rewrite Hj in Hidx. injection Hidx as <-. by apply HQ.
  - intros e _ Hsome [?|Hno]; [by rewrite Hio in *|]. exfalso.
    destruct (lookup_path (fs w) (dir </> "sessions-index.json"))
      as [[[|j']|]|]; try done. by eapply Hno.
Qed.




End Progress.

Lemma wp_and {A} (m : M A) w (Q1 Q2 : outcome A → world → Prop) :
  wp m w Q1 → wp m w Q2 → wp m w (λ r w', Q1 r w' ∧ Q2 r w').
Proof. unfold wp. auto. Qed.


(** A project without an index that holds the session [xyz789], next to
    a project whose index has an entry for another session. *)
Definition unindexed_tree : node :=
  Dir {[ "-home-alice-old" :=
           Dir {[ "xyz789.jsonl" := File (Raw "0123456789");
                  "xyz789" := Dir {[ "notes.txt" := File (Raw "n") ]} ]};
         "-home-alice-app" :=
           Dir {[ "sessions-index.json" := File (Doc app_index);
                  "abc123.jsonl" := File (Raw "9876543210") ]} ]}.


(** ** Where the files are after a move *)

Lemma makedirs_child_parent t (d n : string) t' :
  makedirs (Some t) [d; n] = Some t' → ∃ ch, lookup_path t' [d] = Some (Dir ch).
Proof.
  destruct t as [?|top]; [done|]. simpl.
  destruct (top !! d) as [[?|chd]|] eqn:Hd; simpl; [done| |].
  - destruct (chd !! n) as [[?|chn]|]; simpl; [done| |];
      intros [= <-]; simpl; rewrite lookup_insert_eq; eauto.
  - intros [= <-]. simpl. rewrite lookup_insert_eq. eauto.
Qed.

Section Files.

Variable E : env.

Lemma removed_gone o (s n : string) w w' :
  removed E w w' o [s; n] → lookup_path (fs w') [s; n] = None.
Proof.
  intros (_ & [(Hnone & -> & _)|([x Hx] & _ & -> & _)]); [done|].
  destruct (lookup_child _ _ _ _ Hx) as (ch & Hs & _).
  by apply (lookup_update_eq _ _ [s; n] ch).
Qed.

Lemma removed_other o (s n m : string) w w' :
  removed E w w' o [s; n] → n ≠ m →
  lookup_path (fs w') [s; m] = lookup_path (fs w) [s; m].
Proof.
  intros (_ & [(_ & -> & _)|(_ & _ & -> & _)]) Hne; [done|].
  apply lookup_update_diverge. simpl. right. split; [done|by left].
Qed.

(** After a migration that went through: the log file is in the
    destination, with the content it had in the source, and no longer in
    the source; the auxiliary directory, when there was one, likewise. *)
Lemma migrated_files (s d sid : string) si di sidx new c w w' :
  lookup_path (fs w) [s; sid ++ ".jsonl"] = Some (File c) →
  (∀ ch, lookup_path (fs w) [d; sid ++ ".jsonl"] ≠ Some (Dir ch)) →
  (∀ ch, lookup_path (fs w) [s; "sessions-index.json"] ≠ Some (Dir ch)) →
  migrate_run E [s] [d] [s; sid ++ ".jsonl"] [d; sid ++ ".jsonl"]
    [s; sid] [d; sid] si di sidx new w (Ok tt) w' →
  lookup_path (fs w') [d; sid ++ ".jsonl"] = Some (File c)
  ∧ lookup_path (fs w') [s; sid ++ ".jsonl"] = None
  ∧ lookup_path (fs w') [s; sid] = None
  ∧ ∀ x, lookup_path (fs w) [s; sid] = Some x →
         lookup_path (fs w') [d; sid] = Some x.
Proof.
  intros Hlog Hdlog Hsidx Hrun.
  assert (s ≠ d) as Hsd by (eapply migrated_needs_distinct; eauto).
  inversion Hrun as [| | | | |w1 w2 w3 w4 w5 w'' H1 H2 H3 H4 H5 Hfs _ _ _]; subst.
  pose proof (copy_jsonl_outside E _ _ _ _ _ _ H1) as O1.
  pose proof (copy_subdir_outside E _ _ _ _ _ _ H2) as O2.
  pose proof (add_to_dest_index_outside E _ _ _ _ _ _ H3) as O3.
  pose proof (remove_from_source_index_outside E _ _ _ _ _ _ H4) as O4.
  pose proof (delete_source_files_outside E _ _ _ _ _ _ H5) as O5.
  rewrite !Hfs.
  (* step 1 *)
  assert (copy2_target (fs w) [s; sid ++ ".jsonl"] [d; sid ++ ".jsonl"]
          = [d; sid ++ ".jsonl"]) as Htgt.
  { unfold copy2_target.
    destruct (lookup_path (fs w) [d; sid ++ ".jsonl"]) as [[?|ch]|] eqn:Hl;
      try done. by destruct (Hdlog ch). }
  destruct H1 as (_ & [(Hnone & _)|(c' & (Hsrc & _ & [dch Hd] & _) & _ & Hfs1 & _)]);
    [congruence|].
  rewrite Htgt in Hfs1, Hd. change (parent [d; sid ++ ".jsonl"]) with [d] in Hd.
  assert (c' = c) as -> by congruence.
  assert (lookup_path (fs w1) [d; sid ++ ".jsonl"] = Some (File c)) as Hl1.
  { rewrite Hfs1. by apply (lookup_update_eq _ _ [d; sid ++ ".jsonl"] dch). }
  (* step 2 *)
  assert (lookup_path (fs w2) [d; sid ++ ".jsonl"] = Some (File c)
          ∧ ∀ x, lookup_path (fs w) [s; sid] = Some x →
                 lookup_path (fs w2) [d; sid] = Some x
                 ∧ sid ≠ "sessions-index.json") as [Hl2 Hsub2].
  { destruct H2 as (_ & [(Hnone & -> & _)|(ch & t' & (Hsub & _ & Hmk) & _ & Hfs2 & _)]).
    { split; [done|]. intros x Hx. rewrite (O1 s) in Hnone by done. congruence. }
    destruct (makedirs_child_parent _ _ _ _ Hmk) as [dch' Hd'].
    rewrite Hfs2. split.
    - rewrite lookup_update_diverge by solve_diverge.
      erewrite makedirs_diverge; [exact Hl1|exact Hmk|solve_diverge].
    - intros x Hx. rewrite (O1 s) in Hsub by done.
      assert (x = Dir ch) as -> by congruence. split.
      + by apply (lookup_update_eq _ _ [d; sid] dch').
      + intros ->. by eapply Hsidx. }
  (* step 3 *)
  assert (lookup_path (fs w3) [d; sid ++ ".jsonl"] = Some (File c)
          ∧ ∀ x, lookup_path (fs w) [s; sid] = Some x →
                 lookup_path (fs w3) [d; sid] = Some x) as [Hl3 Hsub3].
  { unfold add_to_dest_index_post in H3.
    destruct (append_entry di new) as [di'|e]; [|by destruct H3].
    destruct H3 as (_ & _ & _ & Hfs3 & _). rewrite Hfs3. split.
    - rewrite lookup_update_diverge by solve_diverge. done.
    - intros x Hx. destruct (Hsub2 x Hx) as [Hx2 Hne].
      rewrite lookup_update_diverge by solve_diverge. done. }
  split; [by rewrite (O5 d), (O4 d)|].
  destruct H5 as (_ & w5' & Hrm1 & _ & Hrm2 & _).
  split; [|split].
  - rewrite (removed_other _ _ _ (sid ++ ".jsonl") _ _ Hrm2)
      by apply subdir_name_not_log.
    by eapply removed_gone.
  - by eapply removed_gone.
  - intros x Hx. rewrite (O5 d), (O4 d) by done. by apply Hsub3.
Qed.

(** How a call that returned normally got to the migration: the world
    [w3] in which the migration started has the files of the initial
    tree. *)
Lemma move_session_migrated sid sp dp verbose t :
  wp (move_session E sid sp dp false verbose) (init t)
    (λ r w',
       r = Ok tt →
       ∃ x new w3,
         (∀ c n, lookup_path (fs w3) [c; n] = lookup_path t [c; n])
         ∧ index_at t [encode_path sp] None = Some (source_index x)
         ∧ index_at t [encode_path dp] (Some dp) = Some (dest_index x)
         ∧ migrate_run E [encode_path sp] [encode_path dp]
             [encode_path sp; sid ++ ".jsonl"] [encode_path dp; sid ++ ".jsonl"]
             [encode_path sp; sid] [encode_path dp; sid]
             (source_index x) (dest_index x) (session_idx x) new w3 (Ok tt) w').
Proof.
  unfold move_session.
  apply wp_bind. eapply wp_mono; [apply resolve_directories_sound|].
  intros [[]|e] w1 (Hti1 & H1); cbn beta iota; [|done].
  destruct H1 as (Hsrc & Hframe). unfold init in Hframe, Hsrc, Hti1.
  cbn [fs trace calls ticks] in Hframe, Hsrc, Hti1.
  change (get_project_dir sp) with [encode_path sp] in *.
  change (get_project_dir dp) with [encode_path dp] in *.
  set (s := encode_path sp) in *. set (d := encode_path dp) in *.
  assert (∀ c n, lookup_path (fs w1) [c; n] = lookup_path t [c; n]) as Hsame.
  { intros c n.
    destruct Hframe as [(-> & _)|(_ & Hd & _ & -> & _)]; [done|].
    by apply mkdir_keeps_entries. }
  apply wp_bind. eapply wp_mono; [apply locate_session_sound|].
  intros [x|e] w2 (Hfs2 & Htr2 & H2); cbn beta iota; [|done].
  change (get_project_dir sp) with [s] in *.
  change (get_project_dir dp) with [d] in *.
  destruct H2 as (Hsi & Hdi & Hnodup & Hloc).
  apply wp_bind. eapply wp_mono; [apply stage_sound|].
  intros [new|e] w3 (Hfs3 & Htr3 & Hc3 & H3); cbn beta iota; [|done].
  apply wp_try. eapply wp_mono; [apply migrate_sound|].
  intros [[]|e] w4 Hrun; cycle 1.
  { destruct (is_Exception e); [|done].
    apply wp_run. intros r w5 Hh [= ->]. by apply on_failure_not_ok in Hh. }
  intros _. exists x, new, w3.
  split; [intros c n; by rewrite Hfs3, Hfs2|].
  split; [rewrite <-Hsi; symmetry; apply index_at_same, Hsame|].
  split; [rewrite <-Hdi; symmetry; apply index_at_same, Hsame|].
  exact Hrun.
Qed.

Lemma moved_files sid source_path dest_path verbose t w' c :
  move_session E sid source_path dest_path false verbose (init t) = (Ok tt, w') →
  lookup_path t (get_project_dir source_path </> (sid ++ ".jsonl"))
  = Some (File c) →
  (∀ ch, lookup_path t (get_project_dir dest_path </> (sid ++ ".jsonl"))
         ≠ Some (Dir ch)) →
  lookup_path (fs w') (get_project_dir dest_path </> (sid ++ ".jsonl"))
  = Some (File c)
  ∧ lookup_path (fs w') (get_project_dir source_path </> (sid ++ ".jsonl")) = None
  ∧ lookup_path (fs w') (get_project_dir source_path </> sid) = None
  ∧ ∀ x, lookup_path t (get_project_dir source_path </> sid) = Some x →
         lookup_path (fs w') (get_project_dir dest_path </> sid) = Some x.
Proof.
  intros Hrun Hlog Hdlog.
  pose proof (move_session_migrated sid source_path dest_path verbose t) as H.
  apply wp_run with (r := Ok tt) (w' := w') in H; [|done].
  destruct (H eq_refl) as (x & new & w3 & Hsame & Hsi & _ & Hmig).
  change (get_project_dir source_path) with [encode_path source_path] in *.
  change (get_project_dir dest_path) with [encode_path dest_path] in *.
  set (s := encode_path source_path) in *. set (d := encode_path dest_path) in *.
  change ([s] </> (sid ++ ".jsonl")) with [s; sid ++ ".jsonl"] in *.
  change ([d] </> (sid ++ ".jsonl")) with [d; sid ++ ".jsonl"] in *.
  change ([s] </> sid) with [s; sid]. change ([d] </> sid) with [d; sid].
  assert (lookup_path (fs w3) [s; sid ++ ".jsonl"] = Some (File c)) as Ha.
  { by rewrite Hsame. }
  assert (∀ ch, lookup_path (fs w3) [d; sid ++ ".jsonl"] ≠ Some (Dir ch)) as Hb.
  { intros ch. rewrite Hsame. apply Hdlog. }
  assert (∀ ch, lookup_path (fs w3) [s; "sessions-index.json"] ≠ Some (Dir ch))
    as Hc.
  { intros ch. rewrite Hsame. by eapply (index_at_not_dir _ [s]). }
  destruct (migrated_files _ _ _ _ _ _ _ _ _ _ Ha Hb Hc Hmig) as (H1 & H2 & H3 & H4).
  split; [done|]. split; [done|]. split; [done|].
  intros x0 Hx0. apply H4. by rewrite Hsame.
Qed.

(** X9. After a move that returned normally, of a session whose log
    file was in the source project directory (and whose name in the
    destination was not taken by a directory): the destination holds the
    log file with the content it had in the source and the source no
    longer holds it; the source no longer holds anything under the
    session's name, and what it held there (the auxiliary directory) is in
    the destination, with everything below it. *)
Theorem session_files_moved sid source_path dest_path verbose t w' c :
  move_session E sid source_path dest_path false verbose (init t) = (Ok tt, w') →
  lookup_path t (get_project_dir source_path </> (sid ++ ".jsonl"))
  = Some (File c) →
  (∀ ch, lookup_path t (get_project_dir dest_path </> (sid ++ ".jsonl"))
         ≠ Some (Dir ch)) →
  lookup_path (fs w') (get_project_dir dest_path </> (sid ++ ".jsonl"))
  = Some (File c)
  ∧ lookup_path (fs w') (get_project_dir source_path </> (sid ++ ".jsonl")) = None
  ∧ lookup_path (fs w') (get_project_dir source_path </> sid) = None
  ∧ ∀ x, lookup_path t (get_project_dir source_path </> sid) = Some x →
         lookup_path (fs w') (get_project_dir dest_path </> sid) = Some x.
Proof. apply moved_files. Qed.

End Files.

Lemma session_files_moved_witness :
  let run := move_session reliable "xyz789" "/home/alice/old" "/home/alice/app"
               false false (init unindexed_tree) in
  let c := Raw "0123456789" in
  (run = (Ok tt, run.2)
   ∧ lookup_path unindexed_tree (get_project_dir "/home/alice/old" </> ("xyz789" ++ ".jsonl"))
     = Some (File c)
   ∧ ∀ ch, lookup_path unindexed_tree
             (get_project_dir "/home/alice/app" </> ("xyz789" ++ ".jsonl"))
           ≠ Some (Dir ch))
  ∧ lookup_path (fs run.2) (get_project_dir "/home/alice/app" </> ("xyz789" ++ ".jsonl"))
    = Some (File c)
  ∧ lookup_path (fs run.2) (get_project_dir "/home/alice/old" </> ("xyz789" ++ ".jsonl"))
    = None
  ∧ lookup_path (fs run.2) (get_project_dir "/home/alice/old" </> "xyz789") = None
  ∧ ∀ x, lookup_path unindexed_tree (get_project_dir "/home/alice/old" </> "xyz789")
         = Some x →
         lookup_path (fs run.2) (get_project_dir "/home/alice/app" </> "xyz789")
         = Some x.
Proof.
  intros run c.
  assert (run = (Ok tt, run.2)) as Hrun by (vm_compute; reflexivity).
  assert (lookup_path unindexed_tree
            (get_project_dir "/home/alice/old" </> ("xyz789" ++ ".jsonl"))
          = Some (File c)) as Hlog by (vm_compute; reflexivity).
  assert (∀ ch, lookup_path unindexed_tree
                  (get_project_dir "/home/alice/app" </> ("xyz789" ++ ".jsonl"))
                ≠ Some (Dir ch)) as Hdlog by (intros ch; vm_compute; discriminate).
  split; [exact (conj Hrun (conj Hlog Hdlog))|].
  exact (session_files_moved reliable "xyz789" "/home/alice/old" "/home/alice/app"
           false unindexed_tree run.2 c Hrun Hlog Hdlog).
Defined.
Section Unindexed.

Variable E : env.






End Unindexed.


(** * Further properties of the code *)

(** ** More on the path encoder *)

Lemma string_map_app f (a b : string) :
  string_map f (a ++ b) = string_map f a ++ string_map f b.
Proof.
  induction a as [|c a IH]; [done|].
  rewrite app_cons. simpl. rewrite app_cons. by rewrite IH.
Qed.

Lemma encode_char_idem (c : ascii) : encode_char (encode_char c) = encode_char c.
Proof.
  unfold encode_char.
  destruct (Ascii.eqb c "/" || Ascii.eqb c "@" || Ascii.eqb c ".")%bool eqn:H;
    [done|by rewrite H].
Qed.

Lemma encode_char_clean (c : ascii) :
  encode_char c ≠ "/"%char ∧ encode_char c ≠ "@"%char ∧ encode_char c ≠ "."%char.
Proof.
  unfold encode_char.
  destruct (Ascii.eqb_spec c "/"); simpl; [done|].
  destruct (Ascii.eqb_spec c "@"); simpl; [done|].
  destruct (Ascii.eqb_spec c "."); simpl; done.
Qed.

(** X1. The name [encode_path] returns holds none of the characters
    ['/'], ['@'] and ['.'] (so it is a single path component, never [.]
    or [..]), and encoding a name that is already encoded changes
    nothing. *)
Theorem encode_path_clean_and_idempotent (path : string) :
  (∀ i, String.get i (encode_path path) ≠ Some "/"%char
        ∧ String.get i (encode_path path) ≠ Some "@"%char
        ∧ String.get i (encode_path path) ≠ Some "."%char)
  ∧ encode_path (encode_path path) = encode_path path.
Proof.
  rewrite !encode_path_refines. unfold encode_spec. split.
  - intros i. rewrite string_map_get.
    destruct (String.get i path) as [c|]; simpl; [|done].
    destruct (encode_char_clean c) as (H1 & H2 & H3).
    repeat split; congruence.
  - induction path as [|c rest IH]; [done|].
    simpl. by rewrite encode_char_idem, IH.
Qed.

(** X2. [encode_path] works character by character: the encoding of a
    concatenation is the concatenation of the encodings. In particular
    the encoding of a path below a directory starts with the encoding of
    that directory. *)
Theorem encode_path_app (a b : string) :
  encode_path (a ++ b) = encode_path a ++ encode_path b.
Proof. rewrite !encode_path_refines. apply string_map_app. Qed.

(** X3. The encoding is lossy: two project paths that differ only in
    which of ['/'], ['@'], ['.'] and ['-'] stands at some position get
    the same directory name, and so the same project directory. *)
Theorem encode_path_confuses (a b : string) (c c' : ascii) :
  c ∈ ["/"; "@"; "."; "-"]%char → c' ∈ ["/"; "@"; "."; "-"]%char →
  encode_path (a ++ String c b) = encode_path (a ++ String c' b)
  ∧ get_project_dir (a ++ String c b) = get_project_dir (a ++ String c' b).
Proof.
  intros Hc Hc'.
  assert (∀ x, x ∈ ["/"; "@"; "."; "-"]%char → encode_char x = "-"%char) as H.
  { intros x Hx. repeat (apply elem_of_cons in Hx as [->|Hx]; [done|]).
    by apply elem_of_nil in Hx. }
  assert (encode_path (a ++ String c b) = encode_path (a ++ String c' b)) as Heq.
  { rewrite !encode_path_refines. unfold encode_spec.
    rewrite !string_map_app. simpl. by rewrite (H c), (H c'). }
  split; [done|]. unfold get_project_dir. by rewrite Heq.
Qed.

Lemma encode_path_confuses_witness :
  ("."%char ∈ ["/"; "@"; "."; "-"]%char ∧ "-"%char ∈ ["/"; "@"; "."; "-"]%char)
  ∧ encode_path ("/home/alice/my" ++ String "." "app")
    = encode_path ("/home/alice/my" ++ String "-" "app")
  ∧ get_project_dir ("/home/alice/my" ++ String "." "app")
    = get_project_dir ("/home/alice/my" ++ String "-" "app").
Proof.
  assert ("."%char ∈ ["/"; "@"; "."; "-"]%char) as H1 by repeat constructor.
  assert ("-"%char ∈ ["/"; "@"; "."; "-"]%char) as H2 by repeat constructor.
  split; [exact (conj H1 H2)|].
  exact (encode_path_confuses "/home/alice/my" "app" "." "-" H1 H2).
Defined.

(** ** Plain names *)

Lemma has_char_encoded (s : string) :
  has_char "/" (string_map encode_char s) = false.
Proof.
  induction s as [|a s IH]; [done|]. simpl.
  destruct (encode_char_clean a) as (H & _ & _).
  apply Ascii.eqb_neq in H. by rewrite H, IH.
Qed.

(** The directory name of a project path that is not empty is a plain
    name: the project directory is one level below [PROJECTS_DIR]. (The
    empty project path is encoded to the empty name, with which [/] gives
    [PROJECTS_DIR] itself.) *)
Lemma encode_path_plain (path : string) :
  path ≠ EmptyString → plain_name (encode_path path) = true.
Proof.
  intros Hne. rewrite encode_path_refines. unfold encode_spec, plain_name.
  rewrite has_char_encoded.
  destruct path as [|c rest]; [done|]. cbn [string_map].
  destruct (encode_char_clean c) as (_ & _ & H).
  apply Ascii.eqb_neq in H. simpl. by rewrite H.
Qed.

(** On a string of one-byte characters, code points are bytes. *)
Lemma take_code_points_ascii (n : nat) (s : string) :
  (∀ i c, String.get i s = Some c → is_continuation c = false) →
  take_code_points n s = substring 0 n s.
Proof.
  revert n. induction s as [|a s IH]; intros n H.
  - by destruct n.
  - pose proof (H 0 a eq_refl) as Ha. simpl. rewrite Ha.
    destruct n as [|n]; [done|]. f_equal. apply IH.
    intros i c Hc. by apply (H (S i)).
Qed.

(** ** More on the session locator *)

Definition is_dict (x : json) : bool :=
  match x with JObj _ => true | _ => false end.

(** Every element of [l] before position [i] is a [dict] for another
    session. *)
Definition others_before (sid : string) (l : list json) (i : nat) : Prop :=
  ∀ j y, (j < i)%nat → l !! j = Some y → is_dict y = true ∧ matches sid y = false.

Lemma scan_entries_spec sid (l : list json) k :
  match scan_entries sid k l with
  | Ok (Some (i, x)) =>
      (k ≤ i)%nat ∧ l !! (i - k)%nat = Some x ∧ matches sid x = true
      ∧ others_before sid l (i - k)
  | Ok None => others_before sid l (length l)
  | Raise e =>
      e = AttributeError
      ∧ ∃ i x, l !! i = Some x ∧ is_dict x = false ∧ others_before sid l i
  end.
Proof.
  revert k. induction l as [|s rest IH]; intros k; simpl.
  { intros j y Hj. lia. }
  destruct s as [| | | | |kvs];
    try (split; [done|]; exists 0%nat; eexists; split; [done|]; split; [done|];
         intros j y Hj; lia).
  destruct (py_eq_str (dict_get "sessionId" kvs) sid) eqn:Hm.
  - split; [done|]. rewrite Nat.sub_diag. split; [done|]. split; [done|].
    intros j y Hj. lia.
  - specialize (IH (S k)).
    destruct (scan_entries sid (S k) rest) as [[[i x]|]|e].
    + destruct IH as (Hle & Hi & Hx & Hbefore).
      replace (i - k)%nat with (S (i - S k)) by lia.
      split; [lia|]. split; [done|]. split; [done|].
      intros [|j] y Hj; simpl; [by intros [= <-]|].
      apply Hbefore. lia.
    + intros [|j] y Hj; simpl; [by intros [= <-]|]. apply IH. lia.
    + destruct IH as (-> & i & x & Hi & Hx & Hbefore). split; [done|].
      exists (S i), x. split; [done|]. split; [done|].
      intros [|j] y Hj; simpl; [by intros [= <-]|]. apply Hbefore. lia.
Qed.

(** X4. What [find_session_in_index] returns on an index whose
    ["entries"] is a list. It returns the first entry whose [sessionId]
    is the identifier, with its position; [None] exactly when every
    element is a [dict] for another session; and it raises
    [AttributeError] when it meets an element that is not a [dict]
    before any match (elements after the first match are not looked
    at). *)
Theorem find_session_in_index_spec kvs (l : list json) sid :
  dict_get "entries" kvs = Some (JArr l) →
  match find_session_in_index (JObj kvs) sid with
  | Ok (Some (i, x)) =>
      l !! i = Some x ∧ matches sid x = true ∧ others_before sid l i
  | Ok None => others_before sid l (length l)
  | Raise e =>
      e = AttributeError
      ∧ ∃ i x, l !! i = Some x ∧ is_dict x = false ∧ others_before sid l i
  end.
Proof.
  intros He. unfold find_session_in_index. rewrite He. simpl.
  pose proof (scan_entries_spec sid l 0) as H.
  destruct (scan_entries sid 0 l) as [[[i x]|]|e]; [|done..].
  rewrite Nat.sub_0_r in H. by destruct H as (_ & ? & ? & ?).
Qed.

Lemma find_session_in_index_spec_witness :
  let kvs := [("version", JNum 1);
              ("entries",
               JArr [JObj [("sessionId", JStr "other")];
                     JObj [("sessionId", JStr "abc123"); ("summary", JStr "First")];
                     JStr "not an entry"])] in
  let l := [JObj [("sessionId", JStr "other")];
            JObj [("sessionId", JStr "abc123"); ("summary", JStr "First")];
            JStr "not an entry"] in
  dict_get "entries" kvs = Some (JArr l)
  ∧ match find_session_in_index (JObj kvs) "abc123" with
    | Ok (Some (i, x)) =>
        l !! i = Some x ∧ matches "abc123" x = true ∧ others_before "abc123" l i
    | Ok None => others_before "abc123" l (length l)
    | Raise e =>
        e = AttributeError
        ∧ ∃ i x, l !! i = Some x ∧ is_dict x = false ∧ others_before "abc123" l i
    end.
Proof.
  intros kvs l.
  assert (dict_get "entries" kvs = Some (JArr l)) as H by reflexivity.
  split; [exact H|].
  exact (find_session_in_index_spec kvs l "abc123" H).
Defined.

Lemma dict_set_fresh k v kvs :
  dict_get k kvs = None → dict_set k v kvs = (kvs ++ [(k, v)])%list.
Proof.
  induction kvs as [|[k' v'] rest IH]; simpl; [done|].
  destruct (String.eqb k k'); [done|]. intros H. by rewrite IH.
Qed.

(** X5. An index [dict] without the key ["entries"] is read as an index
    without sessions by the locator ([index.get("entries", [])]) and by
    the rollback filter, which adds an empty list under that key, while
    appending an entry to it ([index["entries"].append]) raises
    [KeyError]: such a destination index passes the duplicate check and
    makes step 3 of the migration fail. *)
Theorem index_without_entries kvs sid x :
  dict_get "entries" kvs = None →
  find_session_in_index (JObj kvs) sid = Ok None
  ∧ append_entry (JObj kvs) x = Raise KeyError
  ∧ without_session (JObj kvs) sid
    = Ok (JObj (kvs ++ [("entries", JArr [])])%list).
Proof.
  intros H. unfold find_session_in_index, append_entry, without_session.
  rewrite H. simpl. by rewrite dict_set_fresh.
Qed.

Lemma index_without_entries_witness :
  dict_get "entries" [("version", JNum 1)] = None
  ∧ find_session_in_index (JObj [("version", JNum 1)]) "abc123" = Ok None
  ∧ append_entry (JObj [("version", JNum 1)]) JNull = Raise KeyError
  ∧ without_session (JObj [("version", JNum 1)]) "abc123"
    = Ok (JObj ([("version", JNum 1)] ++ [("entries", JArr [])])%list).
Proof.
  assert (dict_get "entries" [("version", JNum 1)] = None) as H by reflexivity.
  split; [exact H|].
  exact (index_without_entries [("version", JNum 1)] "abc123" JNull H).
Defined.

(** ** Exit status and uncaught exceptions *)

Section ExitStatus.

Variable E : env.

(** Whenever [m] ends the process, it is with status 1. *)
Definition exits_1 {A} (m : M A) : Prop :=
  ∀ w, wp m w (λ r _, ∀ c, r = Raise (SystemExit c) → c = 1%Z).

Lemma exits_1_caught {A} (m : M A) : caught m → exits_1 m.
Proof.
  intros H w. eapply wp_mono; [apply H|].
  intros [a|e] _ He c; [done|]. by intros [= ->].
Qed.

Lemma exits_1_bind {A B} (m : M A) (k : A → M B) :
  exits_1 m → (∀ a, exits_1 (k a)) → exits_1 (bind m k).
Proof.
  intros Hm Hk w. apply wp_bind. eapply wp_mono; [apply Hm|].
  intros [a|e] w1 H; simpl; [apply Hk|].
  intros c [= ->]. by apply (H c).
Qed.

Lemma exits_1_sys_exit {A} : exits_1 (sys_exit (A:=A) 1).
Proof. intros w c. by intros [= <-]. Qed.

Lemma exits_1_when b m : exits_1 m → exits_1 (when b m).
Proof. intros H. destruct b; [done|]. apply exits_1_caught, caught_ret. Qed.

Lemma exits_1_try {A} (body : M A) handler :
  exits_1 body → (∀ e, exits_1 (handler e)) → exits_1 (try_except body handler).
Proof.
  intros Hb Hh w. apply wp_try. eapply wp_mono; [apply Hb|].
  intros [a|e] w1 H; simpl; [done|].
  destruct (is_Exception e); [apply Hh|done].
Qed.

Lemma caught_mkdir_parents p : caught (mkdir_parents E p).
Proof. intros w. by apply wp_mkdir_parents. Qed.

Lemma caught_find_session_in_index index sid :
  caught (lift (find_session_in_index index sid)).
Proof. intros w. apply wp_lift. apply find_session_in_index_caught. Qed.

Lemma caught_create_session_entry sid dir pp :
  caught (create_session_entry E sid dir pp).
Proof. by intros w. Qed.

Lemma exits_1_resolve_directories sp dp dry verbose :
  exits_1 (resolve_directories E sp dp dry verbose).
Proof.
  unfold resolve_directories.
  apply exits_1_bind; [apply exits_1_caught, caught_path_exists|intros ok].
  apply exits_1_bind.
  { apply exits_1_when, exits_1_bind; [apply exits_1_caught, caught_print|].
    intros _. apply exits_1_sys_exit. }
  intros _. apply exits_1_caught.
  apply caught_bind; [apply caught_path_exists|intros ok'].
  apply caught_when, caught_bind.
  - apply caught_when, caught_print.
  - intros _. apply caught_when, caught_mkdir_parents.
Qed.

Lemma exits_1_locate_session sid sp dp verbose :
  exits_1 (locate_session E sid sp dp verbose).
Proof.
  unfold locate_session.
  apply exits_1_bind; [apply exits_1_caught, caught_load_sessions_index|intros si].
  apply exits_1_bind; [apply exits_1_caught, caught_find_session_in_index|].
  intros found. apply exits_1_bind.
  { destruct found as [[i x]|]; [apply exits_1_caught, caught_ret|].
    apply exits_1_bind; [apply exits_1_caught, caught_path_exists|].
    intros [|].
    - apply exits_1_caught.
      apply caught_bind; [apply caught_when, caught_print|intros _].
      apply caught_bind; [apply caught_create_session_entry|intros ?].
      apply caught_ret.
    - apply exits_1_bind; [apply exits_1_caught, caught_print|intros _].
      apply exits_1_sys_exit. }
  intros located.
  apply exits_1_bind; [apply exits_1_caught, caught_load_sessions_index|intros di].
  apply exits_1_bind; [apply exits_1_caught, caught_find_session_in_index|].
  intros dup. apply exits_1_bind; [|intros _; apply exits_1_caught, caught_ret].
  apply exits_1_when, exits_1_bind; [apply exits_1_caught, caught_print|].
  intros _. apply exits_1_sys_exit.
Qed.

Lemma exits_1_on_failure sid a b c e : exits_1 (on_failure E sid a b c e).
Proof.
  intros w. eapply wp_mono; [apply on_failure_exits|].
  intros r w' [-> _] c'. by intros [= <-].
Qed.

Lemma exits_1_move_session sid sp dp dry verbose :
  exits_1 (move_session E sid sp dp dry verbose).
Proof.
  unfold move_session.
  apply exits_1_bind; [apply exits_1_resolve_directories|intros _].
  apply exits_1_bind; [apply exits_1_locate_session|intros r].
  apply exits_1_bind; [apply exits_1_caught, caught_stage|intros new].
  destruct dry.
  - apply exits_1_caught, caught_dry_run_report.
  - apply exits_1_try; [apply exits_1_caught, caught_migrate|].
    intros e. apply exits_1_on_failure.
Qed.

(** X6. However a call of [move_session] goes (any arguments, any state
    of the file system, any failure of a file-system call, dry run or
    not), if it ends the process it does so with exit status 1. *)
Theorem move_session_exit_status sid source_path dest_path dry_run verbose w c :
  (move_session E sid source_path dest_path dry_run verbose w).1
  = Raise (SystemExit c) →
  c = 1%Z.
Proof. apply exits_1_move_session. Qed.

(** An exception other than [SystemExit] that leaves [move_session] was
    raised before the migration started. *)
Lemma move_session_uncaught_early sid sp dp dry verbose t :
  wp (move_session E sid sp dp dry verbose) (init t)
    (λ r w', ∀ e, r = Raise e → is_Exception e = true →
                  at_most_mkdir dp dry t w').
Proof.
  unfold move_session, at_most_mkdir.
  apply wp_bind. eapply wp_mono; [apply resolve_directories_sound|].
  intros [[]|e] w1 (Hti1 & H1); cbn beta iota; cycle 1.
  { destruct H1 as (Hfs & Htr & _). intros e' _ _. left. done. }
  destruct H1 as (Hsrc & Hframe). unfold init in Hframe.
  cbn [fs trace calls] in Hframe.
  assert ((fs w1 = t ∧ trace w1 = [])
          ∨ (dry = false ∧ lookup_path t (get_project_dir dp) = None
             ∧ fs w1 = update_path (Some (Dir ∅)) t (get_project_dir dp)
             ∧ trace w1 = [(Mkdir (get_project_dir dp), true)])) as H1.
  { destruct Hframe as [(? & ? & _)|(? & ? & _ & ? & ? & _)]; [by left|by right]. }
  clear Hframe.
  apply wp_bind. eapply wp_mono; [apply locate_session_sound|].
  intros [x|e] w2 (Hfs2 & Htr2 & H2); cbn beta iota; cycle 1.
  { intros e' _ _. by rewrite Hfs2, Htr2. }
  apply wp_bind. eapply wp_mono; [apply quiet_stage|].
  intros [new|e] w3 [Hfs3 Htr3]; cbn beta iota; cycle 1.
  { intros e' _ _. by rewrite Hfs3, Htr3, Hfs2, Htr2. }
  destruct dry.
  - eapply wp_mono; [apply quiet_dry_run_report|].
    intros r w4 [Hfs4 Htr4] e' _ _. by rewrite Hfs4, Htr4, Hfs3, Htr3, Hfs2, Htr2.
  - apply wp_try. eapply wp_mono; [apply caught_migrate|].
    intros [[]|e] w4 H4; [done|]. rewrite H4.
    eapply wp_mono; [apply on_failure_exits|].
    intros r w5 [-> _] e' [= <-] He'. done.
Qed.


End ExitStatus.

Lemma move_session_exit_status_witness :
  let t := Dir {[ "-home-alice-app" := Dir ∅ ]} in
  let run := move_session reliable "abc123" "/home/alice/app" "/home/alice/app2"
               false false (init t) in
  run.1 = Raise (SystemExit 1) ∧ 1%Z = 1%Z.
Proof.
  intros t run.
  assert (run.1 = Raise (SystemExit 1)) as H by (vm_compute; reflexivity).
  split; [exact H|].
  exact (move_session_exit_status reliable "abc123" "/home/alice/app"
           "/home/alice/app2" false false (init t) 1 H).
Defined.

(** A project whose index file is not JSON. *)
Definition broken_tree : node :=
  Dir {[ "-home-alice-app" :=
           Dir {[ "sessions-index.json" := File (Raw "{ not json");
                  "abc123.jsonl" := File (Raw "0123456789") ]} ]}.


(** ** What a move leaves alone *)

(** The paths a move of session [sid] between the project directories
    [s] and [d] works on: in each of the two, the log file, the auxiliary
    directory and the index file. *)
Definition session_paths (s d sid : string) : list Path :=
  [[s; sid ++ ".jsonl"]; [s; sid]; [s; "sessions-index.json"];
   [d; sid ++ ".jsonl"]; [d; sid]; [d; "sessions-index.json"]].

(** [q] is neither one of the paths [ps], nor above, nor below one. *)
Definition apart (ps : list Path) (q : Path) : Prop :=
  Forall (λ p, diverge p q) ps.

(** Whatever is apart from [ps] is the same in [t'] as in [t]. *)
Definition spared (ps : list Path) (t t' : node) : Prop :=
  ∀ q, apart ps q → lookup_path t' q = lookup_path t q.

Lemma spared_refl ps t : spared ps t t.
Proof. by intros q _. Qed.

Lemma spared_trans ps t1 t2 t3 :
  spared ps t1 t2 → spared ps t2 t3 → spared ps t1 t3.
Proof. intros H12 H23 q Hq. by rewrite H23, H12. Qed.

Lemma diverge_app (p r q : Path) : diverge p q → diverge (p ++ r) q.
Proof.
  revert q. induction p as [|c p IH]; intros [|e q]; simpl; try done.
  intros [?|[-> ?]]; [by left|right; auto].
Qed.

Lemma apart_elem ps (p q : Path) : p ∈ ps → apart ps q → diverge p q.
Proof. intros Hp Hq. by apply (proj1 (Forall_forall _ _) Hq). Qed.

Lemma spared_update ps (p r : Path) x t :
  p ∈ ps → spared ps t (update_path x t (p ++ r)).
Proof.
  intros Hp q Hq. apply lookup_update_diverge, diverge_app.
  by eapply apart_elem.
Qed.

Lemma spared_update_at ps (p : Path) x t :
  p ∈ ps → spared ps t (update_path x t p).
Proof. intros Hp. rewrite <-(app_nil_r p). by apply spared_update. Qed.

Lemma spared_makedirs ps (p : Path) t t' :
  p ∈ ps → makedirs (Some t) p = Some t' → spared ps t t'.
Proof.
  intros Hp Hm q Hq. eapply makedirs_diverge; [done|]. by eapply apart_elem.
Qed.

(** Making a project directory changes nothing that is apart from a path
    inside it: what was below it stays, and when it is new it is empty. *)
Lemma spared_mkdir ps (d n : string) t t' :
  [d; n] ∈ ps → makedirs (Some t) [d] = Some t' → spared ps t t'.
Proof.
  intros Hp Hm q Hq. pose proof (apart_elem _ _ _ Hp Hq) as Hd.
  destruct q as [|c q]; [done|].
  destruct t as [?|ch]; [done|]. simpl in Hm.
  destruct (ch !! d) as [x|] eqn:Hx.
  - destruct x as [?|chd]; simpl in Hm; [done|].
    injection Hm as <-. by rewrite insert_id.
  - injection Hm as <-. simpl.
    destruct (decide (c = d)) as [->|Hne].
    + rewrite lookup_insert_eq, Hx.
      destruct q as [|n' q]; [by destruct Hd as [?|[_ []]]|]. done.
    + by rewrite lookup_insert_ne.
Qed.

Section Sparing.

Variable E : env.
Variable ps : list Path.

(** [m] changes nothing that is apart from [ps]. *)
Definition sparing {A} (m : M A) : Prop :=
  ∀ w, wp m w (λ _ w', spared ps (fs w) (fs w')).

Lemma sparing_quiet {A} (m : M A) : quiet m → sparing m.
Proof.
  intros H w. eapply wp_mono; [apply H|].
  intros r w' [-> _]. apply spared_refl.
Qed.

Lemma sparing_bind {A B} (m : M A) (k : A → M B) :
  sparing m → (∀ a, sparing (k a)) → sparing (bind m k).
Proof.
  intros Hm Hk w. apply wp_bind. eapply wp_mono; [apply Hm|].
  intros [a|e] w1 H1; simpl; [|done].
  eapply wp_mono; [apply Hk|]. simpl. intros _ w2 H2.
  by eapply spared_trans.
Qed.

Lemma sparing_when b m : sparing m → sparing (when b m).
Proof. intros H. destruct b; [done|]. apply sparing_quiet, quiet_ret. Qed.

Lemma sparing_try {A} (body : M A) handler :
  sparing body → (∀ e, sparing (handler e)) → sparing (try_except body handler).
Proof.
  intros Hb Hh w. apply wp_try. eapply wp_mono; [apply Hb|].
  intros [a|e] w1 H1; simpl; [done|].
  destruct (is_Exception e); [|done].
  eapply wp_mono; [apply Hh|]. simpl. intros _ w2 H2. by eapply spared_trans.
Qed.

Lemma sparing_mkdir_parents (d n : string) :
  [d; n] ∈ ps → sparing (mkdir_parents E [d]).
Proof.
  intros Hp w. apply wp_mkdir_parents; wp_simpl.
  - intros t' _ Hm. by eapply spared_mkdir.
  - intros _ _. apply spared_refl.
Qed.

Lemma sparing_save_sessions_index (c : string) j :
  [c; "sessions-index.json"] ∈ ps → sparing (save_sessions_index E [c] j).
Proof.
  intros Hp w. apply wp_save_sessions_index; wp_simpl.
  - intros _ _. by apply spared_update_at.
  - intros _ _. apply spared_refl.
  - intros r _ _. by apply spared_update_at.
Qed.

Lemma sparing_copy2 src (dst : Path) : dst ∈ ps → sparing (copy2 E src dst).
Proof.
  intros Hp w.
  assert (∃ r, copy2_target (fs w) src dst = (dst ++ r)%list) as [r Hr].
  { unfold copy2_target. destruct (lookup_path (fs w) dst) as [[|]|].
    - exists []. by rewrite app_nil_r.
    - by eexists.
    - exists []. by rewrite app_nil_r. }
  apply wp_copy2; wp_simpl.
  - intros c _ _. cbv zeta. wp_simpl. rewrite Hr. by apply spared_update.
  - intros _ _. apply spared_refl.
  - intros res c _ _. cbv zeta. wp_simpl. rewrite Hr. by apply spared_update.
Qed.

Lemma sparing_copytree src (dst : Path) : dst ∈ ps → sparing (copytree E src dst).
Proof.
  intros Hp w. apply wp_copytree; wp_simpl.
  - intros ch t' _ (_ & _ & Hm).
    eapply spared_trans; [by eapply spared_makedirs|by apply spared_update_at].
  - intros _ _. apply spared_refl.
  - intros res ch t' _ (_ & _ & Hm).
    eapply spared_trans; [by eapply spared_makedirs|by apply spared_update_at].
Qed.

Lemma sparing_unlink (p : Path) : p ∈ ps → sparing (unlink E p).
Proof.
  intros Hp w. apply wp_unlink; wp_simpl.
  - intros c _ _. by apply spared_update_at.
  - intros _ _. apply spared_refl.
Qed.

Lemma sparing_rmtree (p : Path) : p ∈ ps → sparing (rmtree E p).
Proof.
  intros Hp w. apply wp_rmtree; wp_simpl.
  - intros ch _ _. by apply spared_update_at.
  - intros _ _. apply spared_refl.
  - intros res ch _ _. by apply spared_update_at.
Qed.

End Sparing.

Ltac sparing_auto :=
  repeat
    lazymatch goal with
    | |- sparing _ (bind _ _) => apply sparing_bind; [|intros ?]
    | |- sparing _ (when _ _) => apply sparing_when
    | |- sparing _ (try_except _ _) => apply sparing_try; [|intros ?]
    | |- sparing _ (path_exists _) => apply sparing_quiet, quiet_path_exists
    | |- sparing _ (print _) => apply sparing_quiet, quiet_print
    | |- sparing _ (print_line _) => apply sparing_quiet, quiet_print_line
    | |- sparing _ (lift _) => apply sparing_quiet, quiet_lift
    | |- sparing _ (ret _) => apply sparing_quiet, quiet_ret
    | |- sparing _ (sys_exit _) => apply sparing_quiet, quiet_sys_exit
    | |- sparing _ (load_sessions_index _ _ _) =>
        apply sparing_quiet, quiet_load_sessions_index
    | |- sparing _ (save_sessions_index _ _ _) =>
        apply sparing_save_sessions_index; set_solver
    | |- sparing _ (copy2 _ _ _) => apply sparing_copy2; set_solver
    | |- sparing _ (copytree _ _ _) => apply sparing_copytree; set_solver
    | |- sparing _ (unlink _ _) => apply sparing_unlink; set_solver
    | |- sparing _ (rmtree _ _) => apply sparing_rmtree; set_solver
    | |- sparing _ (match ?x with _ => _ end) => destruct x
    end.

Section Spared.

Variable E : env.

Lemma sparing_move_session sid sp dp dry verbose :
  sparing (session_paths (encode_path sp) (encode_path dp) sid)
    (move_session E sid sp dp dry verbose).
Proof.
  unfold move_session.
  change (get_project_dir sp) with [encode_path sp].
  change (get_project_dir dp) with [encode_path dp].
  set (s := encode_path sp). set (d := encode_path dp).
  apply sparing_bind.
  { unfold resolve_directories.
    change (get_project_dir sp) with [s]. change (get_project_dir dp) with [d].
    sparing_auto. eapply (sparing_mkdir_parents _ _ d "sessions-index.json").
    unfold session_paths. set_solver. }
  intros _. apply sparing_bind; [apply sparing_quiet, quiet_locate_session|].
  intros r. apply sparing_bind; [apply sparing_quiet, quiet_stage|].
  intros new. destruct dry; [apply sparing_quiet, quiet_dry_run_report|].
  unfold migrate, copy_jsonl, copy_subdir, add_to_dest_index,
    remove_from_source_index, delete_source_files, on_failure, rollback,
    session_paths.
  change ([s] </> (sid ++ ".jsonl")) with [s; sid ++ ".jsonl"].
  change ([d] </> (sid ++ ".jsonl")) with [d; sid ++ ".jsonl"].
  change ([s] </> sid) with [s; sid]. change ([d] </> sid) with [d; sid].
  sparing_auto.
Qed.

(** X8. A move of a session whose identifier is a plain file name,
    between project paths that are not empty, works on six paths only: in
    the source and in the destination project directory, the session's
    log file, its auxiliary directory and the index file. Whatever the
    state of the file system and the failures of file-system calls, and
    however the call ends (success, validation error, rollback, failed
    rollback), everything that is neither one of these paths nor above or
    below one is after the call what it was before: other projects, and
    the files of every other session of the two projects. (An identifier
    that is not a plain name, such as ["."], [".."] or one with a ['/'],
    makes [pathlib] build other paths than these six, and the move or its
    rollback works on those.) *)
Theorem move_session_spares_the_rest sid source_path dest_path dry_run verbose w
    (q : Path) :
  plain_name sid = true →
  source_path ≠ EmptyString → dest_path ≠ EmptyString →
  apart (session_paths (encode_path source_path) (encode_path dest_path) sid) q →
  lookup_path (fs (move_session E sid source_path dest_path dry_run verbose w).2) q
  = lookup_path (fs w) q.
Proof. intros _ _ _ Hq. by apply sparing_move_session. Qed.

End Spared.

Lemma move_session_spares_the_rest_witness :
  let q := ["-home-alice-app"; "abc123.jsonl"] in
  (plain_name "xyz789" = true
   ∧ "/home/alice/old" ≠ EmptyString ∧ "/home/alice/app" ≠ EmptyString
   ∧ apart (session_paths (encode_path "/home/alice/old")
              (encode_path "/home/alice/app") "xyz789") q)
  ∧ lookup_path
      (fs (move_session reliable "xyz789" "/home/alice/old" "/home/alice/app"
             false false (init unindexed_tree)).2) q
    = lookup_path (fs (init unindexed_tree)) q.
Proof.
  intros q.
  assert (plain_name "xyz789" = true) as H1 by reflexivity.
  assert ("/home/alice/old" ≠ EmptyString) as H2 by discriminate.
  assert ("/home/alice/app" ≠ EmptyString) as H3 by discriminate.
  assert (apart (session_paths (encode_path "/home/alice/old")
                   (encode_path "/home/alice/app") "xyz789") q) as H.
  { unfold apart, session_paths.
    repeat apply Forall_cons_2; try apply Forall_nil_2; vm_compute;
      first [ left; discriminate | right; split; [reflexivity|left; discriminate] ]. }
  split; [exact (conj H1 (conj H2 (conj H3 H)))|].
  exact (move_session_spares_the_rest reliable "xyz789" "/home/alice/old"
           "/home/alice/app" false false (init unindexed_tree) q H1 H2 H3 H).
Defined.

(** ** A move of an indexed session that cannot fail *)

Section IndexedProgress.

Variable E : env.







End IndexedProgress.


(** ** Validation errors, forward *)

Section Rejections.

Variable E : env.

Lemma move_session_source_missing_run sid source_path dest_path dry_run verbose t :
  lookup_path t (get_project_dir source_path) = None →
  move_session E sid source_path dest_path dry_run verbose (init t)
  = (Raise (SystemExit 1),
     {| fs := t; ticks := 0; calls := 0;
        stdout := [msg_source_missing E source_path]; trace := [] |}).
Proof.
  intros Hsrc.
  assert (wp (move_session E sid source_path dest_path dry_run verbose) (init t)
            (λ r w', r = Raise (SystemExit 1)
                     ∧ w' = {| fs := t; ticks := 0; calls := 0;
                               stdout := [msg_source_missing E source_path];
                               trace := [] |})) as H.
  { unfold move_session, resolve_directories.
    apply wp_bind, wp_bind. wp_call; [intros n Hn; unfold init in Hn; cbn [fs] in Hn; congruence|].
    intros _. apply wp_bind. unfold when at 1. apply wp_bind, wp_print.
    apply wp_sys_exit. by wp_simpl. }
  unfold wp in H.
  destruct (move_session E sid source_path dest_path dry_run verbose (init t))
    as [r w']. cbn [fst snd] in H. by destruct H as [-> ->].
Qed.

(** X11. When the source project path is not empty and its project
    directory does not exist (no file-system call failing, the test for
    the directory included), the call prints the error, and nothing else,
    and ends the process with status 1 before anything else happens:
    nothing is changed or attempted, and the destination project
    directory is not created even when it is missing too, dry run or
    not. *)
Theorem move_session_source_missing sid source_path dest_path dry_run verbose t :
  (∀ n, io E n = NoFault) →
  source_path ≠ EmptyString →
  lookup_path t (get_project_dir source_path) = None →
  let run := move_session E sid source_path dest_path dry_run verbose (init t) in
  run.1 = Raise (SystemExit 1)
  ∧ stdout run.2 = [msg_source_missing E source_path]
  ∧ fs run.2 = t ∧ trace run.2 = [].
Proof.
  intros _ _ Hsrc run. subst run.
  by rewrite (move_session_source_missing_run sid source_path dest_path dry_run
                verbose t Hsrc).
Qed.

Lemma resolve_directories_ok sp dp dry verbose w :
  (∀ n, io E n = NoFault) →
  is_Some (lookup_path (fs w) (get_project_dir sp)) →
  wp (resolve_directories E sp dp dry verbose) w (λ r _, r = Ok tt).
Proof.
  intros Hio Hsrc. destruct dry.
  - destruct Hsrc as [n Hsrc]. unfold resolve_directories.
    apply wp_bind. wp_call; [|congruence]. intros _ _.
    apply wp_bind. unfold when at 1. apply wp_ret.
    apply wp_bind. wp_call.
    + intros n' _. unfold when at 1. by apply wp_ret.
    + intros Hdst. unfold when at 1. apply wp_when_print. intros out.
      unfold when. wp_simpl. by apply wp_ret.
  - by apply resolve_directories_progress.
Qed.

(** The state in which the session is looked for: the indexes and the
    files below the project directories are those of the initial tree. *)
Lemma move_session_resolved sid sp dp dry verbose t Q :
  (∀ n, io E n = NoFault) →
  is_Some (lookup_path t (get_project_dir sp)) →
  (∀ w1, (∀ c n, lookup_path (fs w1) [c; n] = lookup_path t [c; n]) →
         (is_Some (lookup_path t (get_project_dir dp)) →
          fs w1 = t ∧ trace w1 = []) →
         wp (bind (locate_session E sid sp dp verbose)
               (λ r, bind (stage E sid sp dp dry verbose (session_data r))
                  (λ new,
                     if dry
                     then dry_run_report E (session_idx r) (get_project_dir dp)
                            (get_project_dir sp </> (sid ++ ".jsonl"))
                            (get_project_dir dp </> (sid ++ ".jsonl"))
                            (get_project_dir sp </> sid)
                            (get_project_dir dp </> sid)
                     else try_except
                            (migrate E sid sp dp verbose (get_project_dir sp)
                               (get_project_dir dp)
                               (get_project_dir sp </> (sid ++ ".jsonl"))
                               (get_project_dir dp </> (sid ++ ".jsonl"))
                               (get_project_dir sp </> sid)
                               (get_project_dir dp </> sid)
                               (source_index r) (dest_index r) (session_idx r) new)
                            (on_failure E sid (get_project_dir dp)
                               (get_project_dir dp </> (sid ++ ".jsonl"))
                               (get_project_dir dp </> sid))))) w1 Q) →
  wp (move_session E sid sp dp dry verbose) (init t) Q.
Proof.
  intros Hio Hsrc HQ. unfold move_session.
  apply wp_bind. eapply wp_mono.
  { apply wp_and; [by apply resolve_directories_ok|apply resolve_directories_sound]. }
  intros r1 w1 [-> (_ & _ & Hframe)]. cbn beta iota.
  unfold init in Hframe. cbn [fs trace calls] in Hframe.
  apply HQ.
  - intros c n.
    destruct Hframe as [(-> & _)|(_ & Hd & _ & -> & _)]; [done|].
    change (get_project_dir dp) with [encode_path dp] in *.
    by apply mkdir_keeps_entries.
  - intros [n Hn].
    destruct Hframe as [(? & ? & _)|(_ & Hd & _)]; [done|congruence].
Qed.

Lemma move_session_not_found_wp sid sp dp dry verbose t si :
  (∀ n, io E n = NoFault) →
  is_Some (lookup_path t (get_project_dir sp)) →
  index_at t (get_project_dir sp) None = Some si →
  find_session_in_index si sid = Ok None →
  lookup_path t (get_project_dir sp </> (sid ++ ".jsonl")) = None →
  wp (move_session E sid sp dp dry verbose) (init t)
    (aborted_after (msg_not_found sid)).
Proof.
  intros Hio Hsrc Hsi Hfind Hlog.
  apply move_session_resolved; [done|done|]. intros w1 Hsame _.
  change (get_project_dir sp) with [encode_path sp] in *.
  apply wp_bind. unfold locate_session.
  change (get_project_dir sp) with [encode_path sp].
  apply wp_bind. apply (index_at_load _ _ _ _ si); [done| |].
  { rewrite <-Hsi. apply index_at_same, Hsame. }
  intros w2 Hfs2 _ _. apply wp_bind, wp_lift. rewrite Hfind.
  apply wp_bind, wp_bind. wp_call.
  - intros n Hn. exfalso. rewrite Hfs2 in Hn.
    change ([encode_path sp] </> (sid ++ ".jsonl"))
      with [encode_path sp; sid ++ ".jsonl"] in *.
    rewrite Hsame in Hn. congruence.
  - intros _. apply wp_bind, wp_print. apply wp_sys_exit.
    unfold aborted_after, msg_not_found. wp_simpl.
    split; [done|]. by rewrite last_snoc.
Qed.

(** X12. For a session identifier that is a plain file name and a
    source project path that is not empty: when the source project
    directory exists, its index can be read and has no entry for the
    session, and the directory holds no log file for it, the call reports
    that the session was not found: it prints that error last and ends
    the process with status 1 (no file-system call failing, the tests for
    the directory and the log file included). *)
Theorem move_session_not_found sid source_path dest_path dry_run verbose t si :
  plain_name sid = true →
  source_path ≠ EmptyString →
  (∀ n, io E n = NoFault) →
  is_Some (lookup_path t (get_project_dir source_path)) →
  index_at t (get_project_dir source_path) None = Some si →
  find_session_in_index si sid = Ok None →
  lookup_path t (get_project_dir source_path </> (sid ++ ".jsonl")) = None →
  let run := move_session E sid source_path dest_path dry_run verbose (init t) in
  run.1 = Raise (SystemExit 1) ∧ last (stdout run.2) = Some (msg_not_found sid).
Proof. intros _ _ **. by apply move_session_not_found_wp with (si := si). Qed.

Lemma move_session_duplicate_wp sid sp dp dry verbose t si di j y :
  (∀ n, io E n = NoFault) →
  is_Some (lookup_path t (get_project_dir sp)) →
  index_at t (get_project_dir sp) None = Some si →
  (∃ found, find_session_in_index si sid = Ok found
            ∧ (found = None →
               is_Some (lookup_path t (get_project_dir sp </> (sid ++ ".jsonl"))))) →
  lookup_path t (get_project_dir dp </> "sessions-index.json")
  = Some (File (Doc di)) →
  find_session_in_index di sid = Ok (Some (j, y)) →
  wp (move_session E sid sp dp dry verbose) (init t)
    (λ r w', aborted_after (msg_duplicate sid) r w' ∧ fs w' = t ∧ trace w' = []).
Proof.
  intros Hio Hsrc Hsi (found & Hfind & Hlog) Hdi Hdup.
  apply move_session_resolved; [done|done|]. intros w1 Hsame Hkeep.
  change (get_project_dir sp) with [encode_path sp] in *.
  change (get_project_dir dp) with [encode_path dp] in *.
  change ([encode_path dp] </> "sessions-index.json")
    with [encode_path dp; "sessions-index.json"] in Hdi.
  destruct Hkeep as [Hfs1 Htr1].
  { destruct (lookup_child _ _ _ _ Hdi) as (ch & -> & _). eauto. }
  apply wp_bind. unfold locate_session.
  change (get_project_dir sp) with [encode_path sp].
  change (get_project_dir dp) with [encode_path dp].
  apply wp_bind. apply (index_at_load _ _ _ _ si); [done| |].
  { rewrite <-Hsi. apply index_at_same, Hsame. }
  intros w2 Hfs2 Htr2 _. apply wp_bind, wp_lift. rewrite Hfind.
  assert (∀ loc w3, fs w3 = fs w1 → trace w3 = trace w1 →
     wp (bind (load_sessions_index E [encode_path dp] (Some dp))
           (λ dest_index, bind (lift (find_session_in_index dest_index sid))
              (λ duplicate, bind
                 (when (match duplicate with Some _ => true | None => false end)
                    (bind (print ("Error: Session " ++ sid
                                  ++ " already exists in destination project"))
                       (λ _, sys_exit 1)))
                 (λ _, ret {| source_index := si; session_idx := loc.1;
                              session_data := loc.2; dest_index := dest_index |}))))
        w3 (λ r w', match r with
                    | Ok _ => False
                    | Raise e => aborted_after (msg_duplicate sid) (Raise e) w'
                                 ∧ fs w' = t ∧ trace w' = []
                    end)) as Htail.
  { intros loc w3 Hfs3 Htr3. apply wp_bind.
    apply (index_at_load _ _ _ _ di); [done| |].
    { unfold index_at. change ([encode_path dp] </> "sessions-index.json")
        with [encode_path dp; "sessions-index.json"].
      by rewrite Hfs3, Hsame, Hdi. }
    intros w4 Hfs4 Htr4 _. apply wp_bind, wp_lift. rewrite Hdup.
    apply wp_bind. unfold when at 1. apply wp_bind, wp_print. apply wp_sys_exit.
    unfold aborted_after, msg_duplicate. wp_simpl.
    split; [|by rewrite Hfs4, Htr4, Hfs3, Htr3].
    split; [done|]. by rewrite last_snoc. }
  apply wp_bind. destruct found as [[i sd]|].
  - apply wp_ret. eapply wp_mono; [by apply Htail|]. by intros [?|e] w'.
  - apply wp_bind. wp_call.
    + intros n _. apply wp_when_print. intros out.
      apply wp_bind, wp_create_session_entry. apply wp_ret.
      eapply wp_mono; [by apply Htail|]. by intros [?|e] w'.
    + intros Hnone. exfalso. rewrite Hfs2 in Hnone.
      change ([encode_path sp] </> (sid ++ ".jsonl"))
        with [encode_path sp; sid ++ ".jsonl"] in *.
      rewrite Hsame in Hnone. destruct (Hlog eq_refl) as [n Hn]. congruence.
Qed.

(** X13. When the session is found in the source (in its index, or as a
    log file) and the destination index file already has an entry for the
    identifier, the call reports the duplicate: it prints that error
    last, ends the process with status 1, and has changed nothing, so the
    destination's entry and files are never overwritten (no file-system
    call failing). *)
Theorem move_session_duplicate sid source_path dest_path dry_run verbose t si di
    found j y :
  (∀ n, io E n = NoFault) →
  is_Some (lookup_path t (get_project_dir source_path)) →
  index_at t (get_project_dir source_path) None = Some si →
  find_session_in_index si sid = Ok found →
  (found = None →
   is_Some (lookup_path t (get_project_dir source_path </> (sid ++ ".jsonl")))) →
  lookup_path t (get_project_dir dest_path </> "sessions-index.json")
  = Some (File (Doc di)) →
  find_session_in_index di sid = Ok (Some (j, y)) →
  let run := move_session E sid source_path dest_path dry_run verbose (init t) in
  run.1 = Raise (SystemExit 1)
  ∧ last (stdout run.2) = Some (msg_duplicate sid)
  ∧ fs run.2 = t ∧ trace run.2 = [].
Proof.
  intros Hio Hsrc Hsi Hfind Hlog Hdi Hdup run.
  pose proof (move_session_duplicate_wp sid source_path dest_path dry_run verbose
                t si di j y Hio Hsrc Hsi) as H.
  destruct H as [[H1 H2] [H3 H4]]; eauto.
Qed.

End Rejections.

Lemma move_session_source_missing_witness :
  let t := Dir {[ "-home-alice-app2" := Dir ∅ ]} in
  let run := move_session reliable "abc123" "/home/alice/app" "/home/alice/app3"
               false true (init t) in
  ((∀ n, io reliable n = NoFault)
   ∧ "/home/alice/app" ≠ EmptyString
   ∧ lookup_path t (get_project_dir "/home/alice/app") = None)
  ∧ run.1 = Raise (SystemExit 1)
  ∧ stdout run.2 = [msg_source_missing reliable "/home/alice/app"]
  ∧ fs run.2 = t ∧ trace run.2 = [].
Proof.
  intros t run.
  assert (∀ n, io reliable n = NoFault) as H1 by (intros n; reflexivity).
  assert ("/home/alice/app" ≠ EmptyString) as H2 by discriminate.
  assert (lookup_path t (get_project_dir "/home/alice/app") = None) as H3
    by (vm_compute; reflexivity).
  split; [exact (conj H1 (conj H2 H3))|].
  exact (move_session_source_missing reliable "abc123" "/home/alice/app"
           "/home/alice/app3" false true t H1 H2 H3).
Defined.

Lemma move_session_not_found_witness :
  let t := Dir {[ "-home-alice-app" := Dir ∅ ]} in
  let run := move_session reliable "abc123" "/home/alice/app" "/home/alice/app2"
               false false (init t) in
  (plain_name "abc123" = true
   ∧ "/home/alice/app" ≠ EmptyString
   ∧ (∀ n, io reliable n = NoFault)
   ∧ is_Some (lookup_path t (get_project_dir "/home/alice/app"))
   ∧ index_at t (get_project_dir "/home/alice/app") None = Some (empty_index None)
   ∧ find_session_in_index (empty_index None) "abc123" = Ok None
   ∧ lookup_path t (get_project_dir "/home/alice/app" </> ("abc123" ++ ".jsonl"))
     = None)
  ∧ run.1 = Raise (SystemExit 1)
  ∧ last (stdout run.2) = Some (msg_not_found "abc123").
Proof.
  intros t run.
  assert (plain_name "abc123" = true) as P1 by reflexivity.
  assert ("/home/alice/app" ≠ EmptyString) as P2 by discriminate.
  assert (∀ n, io reliable n = NoFault) as H1 by (intros n; reflexivity).
  assert (is_Some (lookup_path t (get_project_dir "/home/alice/app"))) as H2
    by (vm_compute; eauto).
  assert (index_at t (get_project_dir "/home/alice/app") None
          = Some (empty_index None)) as H3 by (vm_compute; reflexivity).
  assert (find_session_in_index (empty_index None) "abc123" = Ok None) as H4
    by (vm_compute; reflexivity).
  assert (lookup_path t (get_project_dir "/home/alice/app" </> ("abc123" ++ ".jsonl"))
          = None) as H5 by (vm_compute; reflexivity).
  split; [exact (conj P1 (conj P2 (conj H1 (conj H2 (conj H3 (conj H4 H5))))))|].
  exact (move_session_not_found reliable "abc123" "/home/alice/app" "/home/alice/app2"
           false false t (empty_index None) P1 P2 H1 H2 H3 H4 H5).
Defined.

(** Two projects whose indexes both have an entry for [abc123]. *)
Definition twice_tree : node :=
  Dir {[ "-home-alice-app" :=
           Dir {[ "sessions-index.json" := File (Doc app_index);
                  "abc123.jsonl" := File (Raw "0123456789") ]};
         "-home-alice-app2" :=
           Dir {[ "sessions-index.json" := File (Doc app_index);
                  "abc123.jsonl" := File (Raw "9876543210") ]} ]}.

Lemma move_session_duplicate_witness :
  let run := move_session reliable "abc123" "/home/alice/app" "/home/alice/app2"
               false false (init twice_tree) in
  ((∀ n, io reliable n = NoFault)
   ∧ is_Some (lookup_path twice_tree (get_project_dir "/home/alice/app"))
   ∧ index_at twice_tree (get_project_dir "/home/alice/app") None = Some app_index
   ∧ find_session_in_index app_index "abc123" = Ok (Some (0, app_entry))
   ∧ (Some (0, app_entry) = None →
      is_Some (lookup_path twice_tree
                 (get_project_dir "/home/alice/app" </> ("abc123" ++ ".jsonl"))))
   ∧ lookup_path twice_tree (get_project_dir "/home/alice/app2" </> "sessions-index.json")
     = Some (File (Doc app_index))
   ∧ find_session_in_index app_index "abc123" = Ok (Some (0, app_entry)))
  ∧ run.1 = Raise (SystemExit 1)
  ∧ last (stdout run.2) = Some (msg_duplicate "abc123")
  ∧ fs run.2 = twice_tree ∧ trace run.2 = [].
Proof.
  intros run.
  assert (∀ n, io reliable n = NoFault) as H1 by (intros n; reflexivity).
  assert (is_Some (lookup_path twice_tree (get_project_dir "/home/alice/app"))) as H2
    by (vm_compute; eauto).
  assert (index_at twice_tree (get_project_dir "/home/alice/app") None
          = Some app_index) as H3 by (vm_compute; reflexivity).
  assert (find_session_in_index app_index "abc123" = Ok (Some (0, app_entry))) as H4
    by (vm_compute; reflexivity).
  assert (Some (0, app_entry) = None →
          is_Some (lookup_path twice_tree
                     (get_project_dir "/home/alice/app" </> ("abc123" ++ ".jsonl"))))
    as H5 by discriminate.
  assert (lookup_path twice_tree
            (get_project_dir "/home/alice/app2" </> "sessions-index.json")
          = Some (File (Doc app_index))) as H6 by (vm_compute; reflexivity).
  split; [exact (conj H1 (conj H2 (conj H3 (conj H4 (conj H5 (conj H6 H4))))))|].
  exact (move_session_duplicate reliable "abc123" "/home/alice/app" "/home/alice/app2"
           false false twice_tree app_index app_index (Some (0, app_entry)) 0 app_entry
           H1 H2 H3 H4 H5 H6 H4).
Defined.

(** * Listing and the command line *)

(** ** [list_sessions] and [main] *)

Ltac quiet_steps :=
  repeat
    lazymatch goal with
    | |- quiet (bind _ _) => apply quiet_bind; [|intros ?]
    | |- quiet (ret _) => apply quiet_ret
    | |- quiet (raise _) => apply quiet_raise
    | |- quiet (print _) => apply quiet_print
    | |- quiet (path_exists _) => apply quiet_path_exists
    | |- quiet (load_sessions_index _ _ _) => apply quiet_load_sessions_index
    | |- quiet (lift _) => apply quiet_lift
    | |- quiet (sys_exit _) => apply quiet_sys_exit
    | |- quiet (when _ _) => apply quiet_when
    | |- quiet (if ?b then _ else _) => destruct b
    | |- quiet (match ?x with _ => _ end) => destruct x
    end.

(** [str(b)] for a [bool]. *)
Definition py_bool (b : bool) : string := if b then "True" else "False".

Section Listing.

Variable E : env.

(** [str(x)] for a value [x] read from JSON that is not a [str] (a
    number, [None], a list, a [dict]): what an f-string makes of it. The
    code only prints the result, so it is left to the environment. *)
Variable py_str : json → string.

(** [f"{x}"]. *)
Definition format_value (x : json) : string :=
  match x with
  | JStr s => s
  | _ => py_str x
  end.

(** [index.get("entries", [])]. *)
Definition index_entries (index : json) : outcome json :=
  match index with
  | JObj kvs => Ok (default (JArr []) (dict_get "entries" kvs))
  | _ => Raise AttributeError
  end.

(** [list_sessions], lines 91-110: one round of the loop. The session
    identifier is formatted into the name of the log file whatever it is,
    but [project_dir / session_id] raises [TypeError] when it is not a
    [str]; the [exists()] made before that has no effect. *)
Definition list_entry (project_dir : Path) (verbose : bool) (session : json)
  : M unit :=
  match session with
  | JObj kvs =>
      let session_id := default (JStr "unknown") (dict_get "sessionId" kvs) in
      summary ← lift (summary_of session);
      let modified := default (JStr "unknown") (dict_get "modified" kvs) in
      match session_id with
      | JStr session_id =>
          (* Check if JSONL file exists *)
          let jsonl_path := project_dir </> (session_id ++ ".jsonl") in
          jsonl_exists ← path_exists jsonl_path;
          (* Check if session subdirectory exists *)
          let subdir_path := project_dir </> session_id in
          subdir_exists ← path_exists subdir_path;
          print ("  " ++ session_id);;
          print ("    Summary: " ++ format_value summary);;
          print ("    Modified: " ++ format_value modified);;
          when verbose
            (print ("    JSONL exists: " ++ py_bool jsonl_exists);;
             print ("    Subdir exists: " ++ py_bool subdir_exists));;
          print EmptyString
      | _ => raise TypeError
      end
  | _ => raise AttributeError
  end.

(** [for session in sessions: ...]. *)
Fixpoint list_loop (project_dir : Path) (verbose : bool) (sessions : list json)
  : M unit :=
  match sessions with
  | [] => ret tt
  | session :: rest =>
      list_entry project_dir verbose session;;
      list_loop project_dir verbose rest
  end.

Definition list_sessions (project_path : string) (verbose : bool) : M unit :=
  let project_dir := get_project_dir project_path in
  present ← path_exists project_dir;
  when (negb present)
    (print ("Error: Project directory does not exist: " ++ str_path E project_dir);;
     sys_exit 1);;
  index ← load_sessions_index E project_dir None;
  sessions ← lift (index_entries index);
  if negb (truthy sessions)
  then print ("No sessions found in project: " ++ project_path)
  else
    print ("Sessions in " ++ project_path ++ ":");;
    print ("Project dir: " ++ str_path E project_dir ++ nl);;
    match py_iter sessions with
    | Some l => list_loop project_dir verbose l
    | None => raise TypeError
    end.

(** What [parser.parse_args()] returns: the positional argument and the
    options, [None] when not given. *)
Record cli_args := CliArgs {
  arg_session_id : option string;
  arg_list : option string;
  arg_source : option string;
  arg_dest : option string;
  arg_dry_run : bool;
  arg_verbose : bool;
}.

(** Truthiness of an argument: given, and not the empty string. *)
Definition given (x : option string) : bool :=
  match x with
  | Some s => negb (String.eqb s EmptyString)
  | None => false
  end.

(** [main], lines 324-347, from the parsed arguments on. Parsing itself
    is [argparse]'s; [help] is the text [parser.print_help()] prints. *)
Definition main (help : string) (args : cli_args) : M unit :=
  if given (arg_list args)
  then list_sessions (default EmptyString (arg_list args)) (arg_verbose args)
  else if (given (arg_session_id args) && given (arg_source args)
           && given (arg_dest args))%bool
  then move_session E (default EmptyString (arg_session_id args))
         (default EmptyString (arg_source args))
         (default EmptyString (arg_dest args))
         (arg_dry_run args) (arg_verbose args)
  else
    print help;;
    print (nl ++ "Examples:");;
    print "  # List sessions in a project";;
    print "  ./move-chat.py --list /Users/user/project";;
    print EmptyString;;
    print "  # Move a session";;
    print "  ./move-chat.py <session-id> --from /source/project --to /dest/project";;
    print EmptyString;;
    print "  # Preview without changes";;
    print "  ./move-chat.py <session-id> --from /source --to /dest --dry-run";;
    sys_exit 1.

(** *** Listing reads only *)

Lemma quiet_list_entry dir verbose session : quiet (list_entry dir verbose session).
Proof. unfold list_entry. quiet_steps. Qed.

Lemma quiet_list_loop dir verbose l : quiet (list_loop dir verbose l).
Proof.
  induction l as [|x l IH]; simpl; [apply quiet_ret|].
  apply quiet_bind; [apply quiet_list_entry|intros _; apply IH].
Qed.

Lemma quiet_list_sessions project_path verbose :
  quiet (list_sessions project_path verbose).
Proof.
  unfold list_sessions.
  apply quiet_bind; [apply quiet_path_exists|intros ok].
  apply quiet_bind; [quiet_steps|intros _].
  apply quiet_bind; [apply quiet_load_sessions_index|intros index].
  apply quiet_bind; [apply quiet_lift|intros sessions].
  destruct (negb (truthy sessions)); [apply quiet_print|].
  apply quiet_bind; [apply quiet_print|intros _].
  apply quiet_bind; [apply quiet_print|intros _].
  destruct (py_iter sessions); [apply quiet_list_loop|apply quiet_raise].
Qed.

(** X14. Listing the sessions of a project never changes the file
    system and never attempts to: whatever the arguments, the state of
    the project directory and of its index, and however the call ends,
    the tree is the same afterwards and no file-system change is
    recorded. *)
Theorem list_sessions_reads_only project_path verbose w :
  fs (list_sessions project_path verbose w).2 = fs w
  ∧ trace (list_sessions project_path verbose w).2 = trace w.
Proof. apply quiet_list_sessions. Qed.

Lemma list_sessions_missing_project_run project_path verbose t :
  lookup_path t (get_project_dir project_path) = None →
  list_sessions project_path verbose (init t)
  = (Raise (SystemExit 1),
     {| fs := t; ticks := 0; calls := 0;
        stdout := [Text ("Error: Project directory does not exist: "
                         ++ str_path E (get_project_dir project_path))];
        trace := [] |}).
Proof.
  intros Hdir.
  assert (wp (list_sessions project_path verbose) (init t)
            (λ r w', r = Raise (SystemExit 1)
                     ∧ w' = {| fs := t; ticks := 0; calls := 0;
                               stdout := [Text ("Error: Project directory does not exist: "
                                                ++ str_path E (get_project_dir project_path))];
                               trace := [] |})) as H.
  { unfold list_sessions.
    apply wp_bind. wp_call; [intros n Hn; unfold init in Hn; cbn [fs] in Hn; congruence|].
    intros _. apply wp_bind. unfold when at 1. apply wp_bind, wp_print.
    apply wp_sys_exit. by wp_simpl. }
  unfold wp in H.
  destruct (list_sessions project_path verbose (init t)) as [r w'].
  cbn [fst snd] in H. by destruct H as [-> ->].
Qed.

(** X15. When the project path is not empty and its project directory
    does not exist (no file-system call failing, the test for the
    directory included), [list_sessions] prints the error, and nothing
    else, and ends the process with status 1. *)
Theorem list_sessions_missing_project project_path verbose t :
  (∀ n, io E n = NoFault) →
  project_path ≠ EmptyString →
  lookup_path t (get_project_dir project_path) = None →
  let run := list_sessions project_path verbose (init t) in
  run.1 = Raise (SystemExit 1)
  ∧ stdout run.2 = [Text ("Error: Project directory does not exist: "
                          ++ str_path E (get_project_dir project_path))].
Proof.
  intros _ _ Hdir run. subst run.
  by rewrite (list_sessions_missing_project_run project_path verbose t Hdir).
Qed.

(** *** What is listed *)

Lemma loaded dir orig w j :
  (∀ n, io E n = NoFault) →
  index_at (fs w) dir orig = Some j →
  wp (load_sessions_index E dir orig) w
    (λ r w', r = Ok j ∧ fs w' = fs w ∧ stdout w' = stdout w).
Proof.
  intros Hio Hidx. eapply wp_mono.
  { apply wp_and; [apply (index_at_load E dir orig w j (λ r _, r = Ok j))|
                   apply load_sessions_index_sound]; done. }
  intros r w' [-> (? & _ & _ & ? & _)]. done.
Qed.

(** An entry the loop can print: a [dict] whose [sessionId], when it has
    one, is a [str], and whose summary can be computed. *)
Definition listable (session : json) : bool :=
  match session with
  | JObj kvs =>
      match summary_of session, default (JStr "unknown") (dict_get "sessionId" kvs) with
      | Ok _, JStr _ => true
      | _, _ => false
      end
  | _ => false
  end.

(** An entry whose [sessionId], if it is a [str], is a plain file name,
    so that the paths the loop tests for it are the log file and the
    auxiliary directory of that name in the project directory. *)
Definition plain_id (session : json) : bool :=
  match session with
  | JObj kvs =>
      match dict_get "sessionId" kvs with
      | Some (JStr sid) => plain_name sid
      | _ => true
      end
  | _ => true
  end.

Definition exists_in (t : node) (p : Path) : bool :=
  match lookup_path t p with Some _ => true | None => false end.

(** The lines printed for a listable entry, in the tree [t]. *)
Definition entry_lines (t : node) (project_dir : Path) (verbose : bool)
    (session : json) : list line :=
  match session with
  | JObj kvs =>
      match summary_of session, default (JStr "unknown") (dict_get "sessionId" kvs) with
      | Ok summary, JStr sid =>
          [Text ("  " ++ sid);
           Text ("    Summary: " ++ format_value summary);
           Text ("    Modified: "
                 ++ format_value (default (JStr "unknown") (dict_get "modified" kvs)))]
          ++ (if verbose
              then [Text ("    JSONL exists: "
                          ++ py_bool (exists_in t (project_dir </> (sid ++ ".jsonl"))));
                    Text ("    Subdir exists: "
                          ++ py_bool (exists_in t (project_dir </> sid)))]
              else [])
          ++ [Text EmptyString]
      | _, _ => []
      end
  | _ => []
  end.

(** The entries printed before the loop stops: all of them, or those
    before the first that is not listable. *)
Fixpoint listed (l : list json) : list json :=
  match l with
  | [] => []
  | x :: rest => if listable x then x :: listed rest else []
  end.

Lemma wp_list_entry dir verbose session w :
  wp (list_entry dir verbose session) w
    (λ r w', fs w' = fs w ∧ trace w' = trace w ∧ ticks w' = ticks w
             ∧ calls w' = calls w
             ∧ if listable session
               then r = Ok tt
                    ∧ stdout w' = (stdout w ++ entry_lines (fs w) dir verbose session)%list
               else (r = Raise AttributeError ∨ r = Raise TypeError)
                    ∧ stdout w' = stdout w).
Proof.
  unfold list_entry, listable, entry_lines.
  destruct session as [| | | | |kvs]; try by (apply wp_raise; eauto 10).
  apply wp_bind, wp_lift.
  pose proof (caught_summary_of (JObj kvs) w) as Hc. unfold wp in Hc.
  cbn [lift fst snd] in Hc.
  destruct (summary_of (JObj kvs)) as [summary|e] eqn:Hsum.
  2:{ assert (e = AttributeError ∨ e = TypeError) as He.
      { unfold summary_of in Hsum. destruct (truthy _); [done|].
        unfold py_slice60 in Hsum. destruct (default _ _); naive_solver. }
      destruct He as [-> | ->]; eauto 10. }
  destruct (default (JStr "unknown") (dict_get "sessionId" kvs)) as [| | |sid| |];
    try by (apply wp_raise; eauto 10).
  apply wp_bind. unfold path_exists. apply wp_bind. unfold stat, wp. cbn.
  unfold exists_in.
  destruct (lookup_path (fs w) (dir </> (sid ++ ".jsonl")));
    destruct (lookup_path (fs w) (dir </> sid)); destruct verbose; cbn;
    rewrite <-?app_assoc; done.
Qed.

Lemma wp_list_loop dir verbose l w :
  wp (list_loop dir verbose l) w
    (λ r w', fs w' = fs w ∧ trace w' = trace w
             ∧ stdout w'
               = (stdout w ++ flat_map (entry_lines (fs w) dir verbose) (listed l))%list
             ∧ (r = Ok tt ↔ forallb listable l = true)
             ∧ (r = Ok tt ∨ r = Raise AttributeError ∨ r = Raise TypeError)).
Proof.
  revert w. induction l as [|x l IH]; intros w; simpl.
  { apply wp_ret. rewrite app_nil_r. repeat split; eauto. }
  apply wp_bind. eapply wp_mono; [apply wp_list_entry|].
  intros r w1 (Hfs & Htr & _ & _ & H). destruct (listable x) eqn:Hx.
  - destruct H as [-> Hout]. eapply wp_mono; [apply IH|].
    intros r' w2 (Hfs2 & Htr2 & Hout2 & Hr & Hcases).
    rewrite Hfs2, Htr2, Hout2, Hout, Hfs, Htr. simpl. rewrite <-app_assoc.
    done.
  - destruct H as [[-> | ->] Hout]; simpl; rewrite Hout, app_nil_r;
      (split; [done|]); (split; [done|]); (split; [done|]); (split; [done|]); eauto.
Qed.

(** X16. What [list_sessions] prints for a project, of a path that is
    not empty, whose index holds a non-empty list of entries (no
    file-system call failing, the tests for files included): the two
    header lines, then, for each entry in index order, its identifier,
    its summary (the [summary], or the first sixty characters of the
    [firstPrompt]) and modification time, when verbose whether its log
    file and auxiliary directory exist (for identifiers that are plain
    file names), and an empty line. The listing stops at the first entry
    it cannot print (one that is not a [dict], whose identifier is not a
    [str], or whose summary cannot be computed), with an exception that
    is not [SystemExit], after the entries before it; it returns normally
    exactly when there is no such entry. *)
Theorem list_sessions_output project_path verbose t kvs x (l : list json) :
  project_path ≠ EmptyString →
  (verbose = true → forallb plain_id (x :: l) = true) →
  (∀ n, io E n = NoFault) →
  is_Some (lookup_path t (get_project_dir project_path)) →
  index_at t (get_project_dir project_path) None = Some (JObj kvs) →
  dict_get "entries" kvs = Some (JArr (x :: l)) →
  let run := list_sessions project_path verbose (init t) in
  stdout run.2
  = ([Text ("Sessions in " ++ project_path ++ ":");
      Text ("Project dir: " ++ str_path E (get_project_dir project_path) ++ nl)]
     ++ flat_map (entry_lines t (get_project_dir project_path) verbose)
          (listed (x :: l)))%list
  ∧ (run.1 = Ok tt ↔ forallb listable (x :: l) = true)
  ∧ ∀ c, run.1 ≠ Raise (SystemExit c).
Proof.
  intros _ _ Hio [n Hdir] Hidx Hent run. subst run.
  match goal with |- context [stdout (?m ?w).2] =>
    change (wp m w (λ r w',
      stdout w'
      = ([Text ("Sessions in " ++ project_path ++ ":");
          Text ("Project dir: " ++ str_path E (get_project_dir project_path) ++ nl)]
         ++ flat_map (entry_lines t (get_project_dir project_path) verbose)
              (listed (x :: l)))%list
      ∧ (r = Ok tt ↔ forallb listable (x :: l) = true)
      ∧ ∀ c, r ≠ Raise (SystemExit c))) end.
  unfold list_sessions.
  apply wp_bind. wp_call; [|unfold init; cbn [fs]; congruence]. intros _ _.
  apply wp_bind. unfold when at 1. apply wp_ret.
  apply wp_bind. eapply wp_mono; [apply (loaded _ _ _ (JObj kvs)); done|].
  intros r1 w1 (-> & Hfs1 & Hout1). cbn beta iota.
  apply wp_bind, wp_lift. unfold index_entries.
  rewrite Hent. cbn [default truthy negb].
  apply wp_bind, wp_print. apply wp_bind, wp_print. cbn [py_iter].
  eapply wp_mono; [apply wp_list_loop|].
  intros r w2 (_ & _ & Hout & Hr & Hcases). cbn [fs stdout] in Hout.
  rewrite Hfs1, Hout1 in Hout. unfold init in Hout. cbn [fs stdout] in Hout.
  rewrite Hout. split; [done|]. split; [done|].
  intros c. by destruct Hcases as [->|[->| ->]].
Qed.

(** X17. When the index of an existing project has no sessions to list
    (there is no index file, or its ["entries"] is missing, an empty
    list, or any other value Python takes for false), [list_sessions]
    prints the one line saying so and returns normally (no file-system
    call failing). *)
Theorem list_sessions_nothing_to_list project_path verbose t kvs :
  (∀ n, io E n = NoFault) →
  is_Some (lookup_path t (get_project_dir project_path)) →
  index_at t (get_project_dir project_path) None = Some (JObj kvs) →
  truthy (default (JArr []) (dict_get "entries" kvs)) = false →
  let run := list_sessions project_path verbose (init t) in
  run.1 = Ok tt
  ∧ stdout run.2 = [Text ("No sessions found in project: " ++ project_path)].
Proof.
  intros Hio [n Hdir] Hidx Hent run. subst run.
  match goal with |- (?m ?w).1 = _ ∧ _ =>
    change (wp m w (λ r w',
      r = Ok tt
      ∧ stdout w' = [Text ("No sessions found in project: " ++ project_path)])) end.
  unfold list_sessions.
  apply wp_bind. wp_call; [|unfold init; cbn [fs]; congruence]. intros _ _.
  apply wp_bind. unfold when at 1. apply wp_ret.
  apply wp_bind. eapply wp_mono; [apply (loaded _ _ _ (JObj kvs)); done|].
  intros r1 w1 (-> & Hfs1 & Hout1). cbn beta iota.
  apply wp_bind, wp_lift. unfold index_entries.
  rewrite Hent. cbn [negb]. apply wp_print. wp_simpl.
  by rewrite Hout1.
Qed.

(** *** The command line *)

Lemma quiet_move_session_dry sid sp dp verbose :
  quiet (move_session E sid sp dp true verbose).
Proof.
  unfold move_session.
  apply quiet_bind; [apply quiet_resolve_directories|intros _].
  apply quiet_bind; [apply quiet_locate_session|intros r].
  apply quiet_bind; [apply quiet_stage|intros new].
  apply quiet_dry_run_report.
Qed.

Lemma quiet_main help args :
  given (arg_list args) = true
  ∨ (given (arg_session_id args) && given (arg_source args)
     && given (arg_dest args))%bool = false
  ∨ arg_dry_run args = true →
  quiet (main help args).
Proof.
  intros H. unfold main.
  destruct (given (arg_list args)); [apply quiet_list_sessions|].
  destruct (_ && _ && _)%bool.
  - destruct H as [?|[?|Hd]]; try done. rewrite Hd. apply quiet_move_session_dry.
  - quiet_steps.
Qed.

(** X18. [main] changes the file system, or attempts to, only when it
    is asked to move a session for real: [--list] is absent or empty, the
    session identifier, [--from] and [--to] are all given and not empty,
    and [--dry-run] is off. With [--list], which takes precedence over a
    move, with [--dry-run], and when it prints the usage, the tree stays
    as it was and no change is recorded. *)
Theorem main_changes_only_on_move help args w :
  fs (main help args w).2 ≠ fs w ∨ trace (main help args w).2 ≠ trace w →
  given (arg_list args) = false
  ∧ given (arg_session_id args) = true
  ∧ given (arg_source args) = true
  ∧ given (arg_dest args) = true
  ∧ arg_dry_run args = false.
Proof.
  intros H.
  assert (¬ quiet (main help args)) as Hq.
  { intros Hq. destruct (Hq w) as [Hfs Htr]. by destruct H. }
  clear H. pose proof (quiet_main help args) as Hmain.
  destruct (given (arg_list args)); [by destruct Hq; apply Hmain; left|].
  destruct (given (arg_session_id args));
    [|by destruct Hq; apply Hmain; right; left].
  destruct (given (arg_source args));
    [|by destruct Hq; apply Hmain; right; left].
  destruct (given (arg_dest args));
    [|by destruct Hq; apply Hmain; right; left].
  destruct (arg_dry_run args); [by destruct Hq; apply Hmain; right; right|].
  done.
Qed.

Lemma caught_list_entry dir verbose session : caught (list_entry dir verbose session).
Proof.
  intros w. eapply wp_mono; [apply wp_list_entry|].
  intros r w' (_ & _ & _ & _ & H). destruct (listable session).
  - by destruct H as [-> _].
  - by destruct H as [[-> | ->] _].
Qed.

Lemma caught_list_loop dir verbose l : caught (list_loop dir verbose l).
Proof.
  induction l as [|x l IH]; simpl; [apply caught_ret|].
  apply caught_bind; [apply caught_list_entry|intros _; apply IH].
Qed.

Lemma exits_1_list_sessions project_path verbose :
  exits_1 (list_sessions project_path verbose).
Proof.
  unfold list_sessions.
  apply exits_1_bind; [apply exits_1_caught, caught_path_exists|intros ok].
  apply exits_1_bind.
  { apply exits_1_when, exits_1_bind; [apply exits_1_caught, caught_print|].
    intros _. apply exits_1_sys_exit. }
  intros _. apply exits_1_caught.
  apply caught_bind; [apply caught_load_sessions_index|intros index].
  apply caught_bind.
  { intros w. apply wp_lift. by destruct index. }
  intros sessions. destruct (negb (truthy sessions)); [apply caught_print|].
  apply caught_bind; [apply caught_print|intros _].
  apply caught_bind; [apply caught_print|intros _].
  destruct (py_iter sessions); [apply caught_list_loop|].
  by intros w.
Qed.

Lemma exits_1_main help args : exits_1 (main help args).
Proof.
  unfold main. destruct (given (arg_list args)); [apply exits_1_list_sessions|].
  destruct (_ && _ && _)%bool; [apply exits_1_move_session|].
  do 10 (apply exits_1_bind; [apply exits_1_caught, caught_print|intros _]).
  apply exits_1_sys_exit.
Qed.

(** X19. Whatever the arguments, the state of the file system and the
    failures of file-system calls, [main] (from the parsed arguments on)
    ends the process with no other status than 1: in the listing, in the
    move, and when it prints the usage. *)
Theorem main_exit_status help args w c :
  (main help args w).1 = Raise (SystemExit c) → c = 1%Z.
Proof. apply exits_1_main. Qed.

End Listing.

Lemma list_sessions_missing_project_witness :
  let t := Dir {[ "-home-alice-app2" := Dir ∅ ]} in
  let run := list_sessions reliable (λ _, "None") "/home/alice/app" true (init t) in
  ((∀ n, io reliable n = NoFault)
   ∧ "/home/alice/app" ≠ EmptyString
   ∧ lookup_path t (get_project_dir "/home/alice/app") = None)
  ∧ run.1 = Raise (SystemExit 1)
  ∧ stdout run.2
    = [Text ("Error: Project directory does not exist: "
             ++ str_path reliable (get_project_dir "/home/alice/app"))].
Proof.
  intros t run.
  assert (∀ n, io reliable n = NoFault) as H1 by (intros n; reflexivity).
  assert ("/home/alice/app" ≠ EmptyString) as H2 by discriminate.
  assert (lookup_path t (get_project_dir "/home/alice/app") = None) as H3
    by (vm_compute; reflexivity).
  split; [exact (conj H1 (conj H2 H3))|].
  exact (list_sessions_missing_project reliable (λ _, "None") "/home/alice/app"
           true t H1 H2 H3).
Defined.

(** A project whose index lists a session with its log file and
    auxiliary directory, and one of which only the entry is left, with a
    first prompt of seventy two-byte characters in place of a summary. *)
Definition listing_index : json :=
  JObj [("version", JNum 1);
        ("entries",
         JArr [JObj [("sessionId", JStr "abc123"); ("summary", JStr "Fix bug");
                     ("modified", JStr "2026-01-02T00:00:00")];
               JObj [("sessionId", JStr "gone");
                     ("firstPrompt",
                      JStr (String.concat EmptyString (replicate 70
                                      (String (ascii_of_nat 195)
                                         (String (ascii_of_nat 169) EmptyString)))))]]);
        ("originalPath", JStr "/home/alice/app")].

Definition listing_tree : node :=
  Dir {[ "-home-alice-app" :=
           Dir {[ "sessions-index.json" := File (Doc listing_index);
                  "abc123.jsonl" := File (Raw "0123456789");
                  "abc123" := Dir ∅ ]} ]}.

Lemma list_sessions_output_witness :
  let x := JObj [("sessionId", JStr "abc123"); ("summary", JStr "Fix bug");
                 ("modified", JStr "2026-01-02T00:00:00")] in
  let l := [JObj [("sessionId", JStr "gone");
                  ("firstPrompt",
                   JStr (String.concat EmptyString (replicate 70
                                   (String (ascii_of_nat 195)
                                      (String (ascii_of_nat 169) EmptyString)))))]] in
  let kvs := [("version", JNum 1); ("entries", JArr (x :: l));
              ("originalPath", JStr "/home/alice/app")] in
  let run := list_sessions reliable (λ _, "None") "/home/alice/app" true
               (init listing_tree) in
  ("/home/alice/app" ≠ EmptyString
   ∧ (true = true → forallb plain_id (x :: l) = true)
   ∧ (∀ n, io reliable n = NoFault)
   ∧ is_Some (lookup_path listing_tree (get_project_dir "/home/alice/app"))
   ∧ index_at listing_tree (get_project_dir "/home/alice/app") None = Some (JObj kvs)
   ∧ dict_get "entries" kvs = Some (JArr (x :: l)))
  ∧ stdout run.2
    = ([Text ("Sessions in " ++ "/home/alice/app" ++ ":");
        Text ("Project dir: " ++ str_path reliable (get_project_dir "/home/alice/app")
              ++ nl)]
       ++ flat_map (entry_lines (λ _, "None") listing_tree
                      (get_project_dir "/home/alice/app") true)
            (listed (x :: l)))%list
  ∧ (run.1 = Ok tt ↔ forallb listable (x :: l) = true)
  ∧ ∀ c, run.1 ≠ Raise (SystemExit c).
Proof.
  intros x l kvs run.
  assert ("/home/alice/app" ≠ EmptyString) as P1 by discriminate.
  assert (true = true → forallb plain_id (x :: l) = true) as P2
    by (intros _; vm_compute; reflexivity).
  assert (∀ n, io reliable n = NoFault) as H1 by (intros n; reflexivity).
  assert (is_Some (lookup_path listing_tree (get_project_dir "/home/alice/app")))
    as H2 by (vm_compute; eauto).
  assert (index_at listing_tree (get_project_dir "/home/alice/app") None
          = Some (JObj kvs)) as H3 by (vm_compute; reflexivity).
  assert (dict_get "entries" kvs = Some (JArr (x :: l))) as H4 by reflexivity.
  split; [exact (conj P1 (conj P2 (conj H1 (conj H2 (conj H3 H4)))))|].
  exact (list_sessions_output reliable (λ _, "None") "/home/alice/app" true
           listing_tree kvs x l P1 P2 H1 H2 H3 H4).
Defined.

Lemma list_sessions_nothing_to_list_witness :
  let t := Dir {[ "-home-alice-app" := Dir ∅ ]} in
  let kvs := [("version", JNum 1); ("entries", JArr []);
              ("originalPath", JStr EmptyString)] in
  let run := list_sessions reliable (λ _, "None") "/home/alice/app" false (init t) in
  ((∀ n, io reliable n = NoFault)
   ∧ is_Some (lookup_path t (get_project_dir "/home/alice/app"))
   ∧ index_at t (get_project_dir "/home/alice/app") None = Some (JObj kvs)
   ∧ truthy (default (JArr []) (dict_get "entries" kvs)) = false)
  ∧ run.1 = Ok tt
  ∧ stdout run.2 = [Text ("No sessions found in project: " ++ "/home/alice/app")].
Proof.
  intros t kvs run.
  assert (∀ n, io reliable n = NoFault) as H1 by (intros n; reflexivity).
  assert (is_Some (lookup_path t (get_project_dir "/home/alice/app"))) as H2
    by (vm_compute; eauto).
  assert (index_at t (get_project_dir "/home/alice/app") None = Some (JObj kvs))
    as H3 by (vm_compute; reflexivity).
  assert (truthy (default (JArr []) (dict_get "entries" kvs)) = false) as H4
    by reflexivity.
  split; [exact (conj H1 (conj H2 (conj H3 H4)))|].
  exact (list_sessions_nothing_to_list reliable (λ _, "None") "/home/alice/app" false
           t kvs H1 H2 H3 H4).
Defined.

(** The arguments of [move-chat.py xyz789 --from /home/alice/old --to
    /home/alice/app]. *)
Definition move_args : cli_args :=
  {| arg_session_id := Some "xyz789"; arg_list := None;
     arg_source := Some "/home/alice/old"; arg_dest := Some "/home/alice/app";
     arg_dry_run := false; arg_verbose := false |}.

Lemma main_changes_only_on_move_witness :
  let run := main reliable (λ _, "None") "usage: move-chat.py" move_args
               (init unindexed_tree) in
  (fs run.2 ≠ fs (init unindexed_tree) ∨ trace run.2 ≠ trace (init unindexed_tree))
  ∧ given (arg_list move_args) = false
  ∧ given (arg_session_id move_args) = true
  ∧ given (arg_source move_args) = true
  ∧ given (arg_dest move_args) = true
  ∧ arg_dry_run move_args = false.
Proof.
  intros run.
  assert (fs run.2 ≠ fs (init unindexed_tree)
          ∨ trace run.2 ≠ trace (init unindexed_tree)) as H.
  { right. vm_compute. discriminate. }
  split; [exact H|].
  exact (main_changes_only_on_move reliable (λ _, "None") "usage: move-chat.py"
           move_args (init unindexed_tree) H).
Defined.

Lemma main_exit_status_witness :
  let args := {| arg_session_id := Some "xyz789"; arg_list := None;
                 arg_source := None; arg_dest := Some "/home/alice/app";
                 arg_dry_run := false; arg_verbose := false |} in
  let run := main reliable (λ _, "None") "usage: move-chat.py" args
               (init unindexed_tree) in
  run.1 = Raise (SystemExit 1) ∧ 1%Z = 1%Z.
Proof.
  intros args run.
  assert (run.1 = Raise (SystemExit 1)) as H by (vm_compute; reflexivity).
  split; [exact H|].
  exact (main_exit_status reliable (λ _, "None") "usage: move-chat.py" args
           (init unindexed_tree) 1 H).
Defined.

(** * More on the index store and the rollback *)

Section Store.

Variable E : env.

(** X20. Saving an index and loading it again gives it back: after a
    [save_sessions_index] that returned, a [load_sessions_index] of the
    same project directory whose read does not fail returns the index
    that was saved, whatever fallback path it is given. A save only
    returns when the project directory exists: it makes no directory. *)
Theorem save_then_load (project_dir : Path) index original_path w w' :
  save_sessions_index E project_dir index w = (Ok tt, w') →
  io E (calls w') = NoFault →
  (load_sessions_index E project_dir original_path w').1 = Ok index
  ∧ ∃ ch, lookup_path (fs w) project_dir = Some (Dir ch).
Proof.
  intros Hsave Hio.
  pose proof (save_sessions_index_sound E project_dir index w) as H.
  apply wp_run with (r := Ok tt) (w' := w') in H; [|done].
  destruct H as (_ & [[ch Hpar] Hnd] & _ & Hfs & _).
  rewrite parent_joinpath in Hpar. split; [|eauto].
  assert (lookup_path (fs w') (project_dir </> "sessions-index.json")
          = Some (File (Doc index))) as Hl.
  { rewrite Hfs. eapply lookup_update_eq; [apply joinpath_not_nil|].
    by rewrite parent_joinpath. }
  change (wp (load_sessions_index E project_dir original_path) w'
            (λ r _, r = Ok index)).
  wp_call.
  - intros Hnone. congruence.
  - intros j _ Hj. congruence.
  - intros e _ _ [?|Hno]; [done|]. by destruct (Hno index).
Qed.

(** What the rollback leaves in the destination. *)
Lemma rollback_clears (sid d : string) w :
  sid ≠ "sessions-index.json" →
  wp (rollback E sid [d] [d; sid ++ ".jsonl"] [d; sid]) w
    (λ r w', r = Ok tt →
             lookup_path (fs w') [d; sid ++ ".jsonl"] = None
             ∧ lookup_path (fs w') [d; sid] = None).
Proof.
  intros Hsid. unfold rollback.
  set (tail := bind (load_sessions_index E [d] None) _).
  assert (∀ w2, lookup_path (fs w2) [d; sid ++ ".jsonl"] = None →
                lookup_path (fs w2) [d; sid] = None →
     wp tail w2
       (λ r w', r = Ok tt →
          lookup_path (fs w') [d; sid ++ ".jsonl"] = None
          ∧ lookup_path (fs w') [d; sid] = None)) as Htail.
  { intros w2 Hlog Hsub. unfold tail.
    apply wp_bind. eapply wp_mono; [apply load_sessions_index_sound|].
    intros [j|e] w3 (Hfs3 & _); cbn beta iota; [|done].
    apply wp_bind, wp_lift.
    destruct (without_session j sid) as [j'|e]; [|done].
    apply wp_bind. wp_call; [|done|done].
    intros _ _. apply wp_print. wp_simpl. intros _.
    change ([d] </> "sessions-index.json") with [d; "sessions-index.json"].
    rewrite !lookup_update_diverge by solve_diverge. by rewrite Hfs3. }
  clearbody tail.
  assert (∀ w1, lookup_path (fs w1) [d; sid ++ ".jsonl"] = None →
     wp (bind (path_exists [d; sid])
           (λ has_subdir, bind (when has_subdir (rmtree E [d; sid])) (λ _, tail))) w1
       (λ r w', r = Ok tt →
          lookup_path (fs w') [d; sid ++ ".jsonl"] = None
          ∧ lookup_path (fs w') [d; sid] = None)) as Hsub.
  { intros w1 Hlog. apply wp_bind. wp_call.
    - intros n Hn. apply wp_bind. unfold when at 1. wp_call; [|done|done].
      intros ch _ Hch. apply Htail; wp_simpl.
      + by apply lookup_delete_none.
      + destruct (lookup_child _ _ _ _ Hch) as (dch & Hd & _).
        by apply (lookup_update_eq _ _ [d; sid] dch).
    - intros Hn. apply wp_bind. unfold when at 1. apply wp_ret. by apply Htail. }
  apply wp_bind. wp_call.
  - intros n Hn. apply wp_bind. unfold when at 1. wp_call; [|done].
    intros c _ Hc. apply Hsub. wp_simpl.
    destruct (lookup_child _ _ _ _ Hc) as (dch & Hd & _).
    by apply (lookup_update_eq _ _ [d; sid ++ ".jsonl"] dch).
  - intros Hn. apply wp_bind. unfold when at 1. apply wp_ret. by apply Hsub.
Qed.

Lemma sparing_rollback (sid d : string) :
  sparing [[d; sid ++ ".jsonl"]; [d; sid]; [d; "sessions-index.json"]]
    (rollback E sid [d] [d; sid ++ ".jsonl"] [d; sid]).
Proof. unfold rollback. sparing_auto. Qed.

(** X21. For a session identifier that is a plain file name other than
    the index file's, and a destination project path that is not empty:
    when the rollback runs to its end, the destination project directory
    holds neither a log file nor an auxiliary directory for the session
    (whether the migration had made them or they were there before), and
    everything that is not the session's log file, auxiliary directory or
    the index file of the destination, nor above or below one of them, is
    as the rollback found it. *)
Theorem rollback_clears_destination (sid dest_path : string) w w' :
  plain_name sid = true →
  sid ≠ "sessions-index.json" →
  dest_path ≠ EmptyString →
  let dest_dir := get_project_dir dest_path in
  rollback E sid dest_dir (dest_dir </> (sid ++ ".jsonl")) (dest_dir </> sid) w
  = (Ok tt, w') →
  lookup_path (fs w') (dest_dir </> (sid ++ ".jsonl")) = None
  ∧ lookup_path (fs w') (dest_dir </> sid) = None
  ∧ ∀ q, apart [dest_dir </> (sid ++ ".jsonl"); dest_dir </> sid;
                dest_dir </> "sessions-index.json"] q →
         lookup_path (fs w') q = lookup_path (fs w) q.
Proof.
  intros _ Hsid _ dest_dir Hrun. subst dest_dir.
  change (get_project_dir dest_path) with [encode_path dest_path] in *.
  set (d := encode_path dest_path) in *.
  change ([d] </> (sid ++ ".jsonl")) with [d; sid ++ ".jsonl"] in *.
  change ([d] </> sid) with [d; sid] in *.
  change ([d] </> "sessions-index.json") with [d; "sessions-index.json"].
  pose proof (rollback_clears sid d w Hsid) as H.
  apply wp_run with (r := Ok tt) (w' := w') in H; [|done].
  destruct (H eq_refl) as [H1 H2]. split; [done|]. split; [done|].
  pose proof (sparing_rollback sid d w) as Hs.
  apply wp_run with (r := Ok tt) (w' := w') in Hs; done.
Qed.

End Store.

Lemma save_then_load_witness :
  let w := init (Dir {[ "-home-alice-app" := Dir ∅ ]}) in
  let run := save_sessions_index reliable ["-home-alice-app"] app_index w in
  (run = (Ok tt, run.2) ∧ io reliable (calls run.2) = NoFault)
  ∧ (load_sessions_index reliable ["-home-alice-app"] None run.2).1 = Ok app_index
  ∧ ∃ ch, lookup_path (fs w) ["-home-alice-app"] = Some (Dir ch).
Proof.
  intros w run.
  assert (run = (Ok tt, run.2)) as H1 by (vm_compute; reflexivity).
  assert (io reliable (calls run.2) = NoFault) as H2 by reflexivity.
  split; [exact (conj H1 H2)|].
  exact (save_then_load reliable ["-home-alice-app"] app_index None w run.2 H1 H2).
Defined.

Lemma rollback_clears_destination_witness :
  let w := init (Dir {[ "-home-alice-app2" :=
                          Dir {[ "abc123.jsonl" := File (Raw "01234");
                                 "other.jsonl" := File (Raw "56789") ]} ]}) in
  let dest_dir := get_project_dir "/home/alice/app2" in
  let run := rollback reliable "abc123" dest_dir (dest_dir </> ("abc123" ++ ".jsonl"))
               (dest_dir </> "abc123") w in
  (plain_name "abc123" = true
   ∧ "abc123" ≠ "sessions-index.json"
   ∧ "/home/alice/app2" ≠ EmptyString
   ∧ run = (Ok tt, run.2))
  ∧ lookup_path (fs run.2) (dest_dir </> ("abc123" ++ ".jsonl")) = None
  ∧ lookup_path (fs run.2) (dest_dir </> "abc123") = None
  ∧ ∀ q, apart [dest_dir </> ("abc123" ++ ".jsonl"); dest_dir </> "abc123";
                dest_dir </> "sessions-index.json"] q →
         lookup_path (fs run.2) q = lookup_path (fs w) q.
Proof.
  intros w dest_dir run.
  assert (plain_name "abc123" = true) as P1 by reflexivity.
  assert ("abc123" ≠ "sessions-index.json") as P2 by discriminate.
  assert ("/home/alice/app2" ≠ EmptyString) as P3 by discriminate.
  assert (run = (Ok tt, run.2)) as H1 by (vm_compute; reflexivity).
  split; [exact (conj P1 (conj P2 (conj P3 H1)))|].
  exact (rollback_clears_destination reliable "abc123" "/home/alice/app2" w run.2
           P1 P2 P3 H1).
Defined.

(** * The source is the last thing changed *)

(** The deletions of step 5: the source log file and the source
    auxiliary directory. *)
Definition source_deletion (s sid : string) (ev : event) : Prop :=
  ev.1 = Unlink [s; sid ++ ".jsonl"] ∨ ev.1 = Rmtree [s; sid].

Section Tracked.

Variable E : env.
Variable ps : list Path.
Variable P : event → Prop.









End Tracked.

Section Growing.

Variable E : env.







End Growing.


Section SourceLast.

Variable E : env.



End SourceLast.


(** ** Deletions come after the commit *)

(** In the record [evs], every deletion of a source file of the session
    comes after a completed write of the destination index. *)
Definition after_commit (s d sid : string) (evs : list event) : Prop :=
  ∀ k ev, evs !! k = Some ev → source_deletion s sid ev →
          ∃ j, (j < k)%nat ∧ evs !! j = Some (Write [d; "sessions-index.json"], true).

Lemma after_commit_none s d sid evs :
  Forall (λ ev, ¬ source_deletion s sid ev) evs → after_commit s d sid evs.
Proof.
  intros H k ev Hk Hdel. exfalso.
  by apply (proj1 (Forall_lookup _ _) H k ev Hk).
Qed.


Section Appending.

Variable E : env.
Variable P : event → Prop.










End Appending.

Section Order.

Variable E : env.






End Order.


(** * What a call that returns has printed *)

Lemma wp_bind_ok {A B} (m : M A) (k : A → M B) w (b : B) (Q : world → Prop) :
  (∀ a w1, wp (k a) w1 (λ r w', r = Ok b → Q w')) →
  wp (bind m k) w (λ r w', r = Ok b → Q w').
Proof.
  intros H. apply wp_bind. unfold wp at 1.
  destruct (m w) as [[a|e] w1]; cbn [fst snd]; [apply H|done].
Qed.

Lemma wp_try_ok {A} (body : M A) handler w (b : A) (Q : world → Prop) :
  wp body w (λ r w', r = Ok b → Q w') →
  (∀ e w1 w', handler e w1 ≠ (Ok b, w')) →
  wp (try_except body handler) w (λ r w', r = Ok b → Q w').
Proof.
  intros Hb Hh. apply wp_try. unfold wp in *.
  destruct (body w) as [[a|e] w1]; cbn [fst snd] in *; [done|].
  destruct (is_Exception e); [|done].
  destruct (handler e w1) as [r w'] eqn:Hrun. cbn [fst snd].
  intros ->. by apply Hh in Hrun.
Qed.

Section Report.

Variable E : env.

(** The lines that close a move, and a dry run. *)
Definition success_lines (sid source_path dest_path : string) : list line :=
  [Text ("Successfully moved session " ++ sid);
   Text ("  From: " ++ source_path);
   Text ("  To: " ++ dest_path)].

Lemma move_session_closing_lines sid sp dp dry verbose w :
  wp (move_session E sid sp dp dry verbose) w
    (λ r w', r = Ok tt →
             ∃ out, stdout w'
                    = (out ++ if dry then [Text (nl ++ "Dry run complete.")]
                              else success_lines sid sp dp)%list).
Proof.
  unfold move_session.
  apply wp_bind_ok. intros _ w1. apply wp_bind_ok. intros r w2.
  apply wp_bind_ok. intros new w3. destruct dry.
  - unfold dry_run_report. repeat (apply wp_bind_ok; intros ? ?).
    apply wp_print. wp_simpl. eauto.
  - apply wp_try_ok; [|intros e w4 w5; apply on_failure_not_ok].
    unfold migrate. do 5 (apply wp_bind_ok; intros ? ?).
    apply wp_bind, wp_print. apply wp_bind, wp_print. apply wp_print. wp_simpl.
    intros _. unfold success_lines.
    match goal with |- context [stdout ?x] => exists (stdout x) end.
    by rewrite <-!app_assoc.
Qed.

(** X24. A move that returns normally has just said so: the last three
    lines printed are ["Successfully moved session"] with the identifier,
    the source and the destination project path (after a dry run, the
    last line is ["Dry run complete."]). So a caller that sees the call
    return, or reads the end of its output, knows the migration ran
    through all its steps. *)
Theorem move_session_reports_success sid source_path dest_path dry_run verbose w w' :
  move_session E sid source_path dest_path dry_run verbose w = (Ok tt, w') →
  ∃ out, stdout w'
         = (out ++ if dry_run then [Text (nl ++ "Dry run complete.")]
                   else success_lines sid source_path dest_path)%list.
Proof.
  intros Hrun.
  pose proof (move_session_closing_lines sid source_path dest_path dry_run verbose w)
    as H.
  apply wp_run with (r := Ok tt) (w' := w') in H; auto.
Qed.

End Report.

Lemma move_session_reports_success_witness :
  let run := move_session reliable "abc123" "/home/alice/app" "/home/alice/app2"
               false true (init app_tree) in
  run = (Ok tt, run.2)
  ∧ ∃ out, stdout run.2
           = (out ++ success_lines "abc123" "/home/alice/app" "/home/alice/app2")%list.
Proof.
  intros run.
  assert (run = (Ok tt, run.2)) as H by (vm_compute; reflexivity).
  split; [exact H|].
  exact (move_session_reports_success reliable "abc123" "/home/alice/app"
           "/home/alice/app2" false true (init app_tree) run.2 H).
Defined.

(** * More error paths of [move_session] *)

Section ErrorPaths.

Variable E : env.

Lemma load_malformed (dir : Path) orig w b :
  lookup_path (fs w) (dir </> "sessions-index.json") = Some (File (Raw b)) →
  io E (calls w) = NoFault →
  wp (load_sessions_index E dir orig) w (λ r w', r = Raise JSONDecodeError
                                                 ∧ fs w' = fs w ∧ trace w' = trace w).
Proof.
  intros Hidx Hio.
  cbv beta iota zeta
    delta [wp load_sessions_index bind path_exists stat ret read_json io_fault raise].
  rewrite Hidx. cbn [negb fs calls]. rewrite Hio, Hidx. done.
Qed.

(** X25. An index file that cannot be read as JSON is not tolerated:
    when the source project path is not empty and its index file exists
    but does not hold a JSON document, the call ends with the exception
    of [json.load], which nothing catches: it is not turned into an error
    line and exit status 1, and no rollback runs. At most the missing
    destination project directory has been made (no file-system call
    failing). *)
Theorem move_session_malformed_index sid source_path dest_path dry_run verbose t b :
  (∀ n, io E n = NoFault) →
  source_path ≠ EmptyString →
  lookup_path t (get_project_dir source_path </> "sessions-index.json")
  = Some (File (Raw b)) →
  let run := move_session E sid source_path dest_path dry_run verbose (init t) in
  (∃ e, run.1 = Raise e ∧ is_Exception e = true)
  ∧ at_most_mkdir dest_path dry_run t run.2.
Proof.
  intros Hio _ Hidx run. subst run.
  change (get_project_dir source_path </> "sessions-index.json")
    with [encode_path source_path; "sessions-index.json"] in Hidx.
  destruct (lookup_child _ _ _ _ Hidx) as (sch & Hs & _).
  assert (wp (move_session E sid source_path dest_path dry_run verbose) (init t)
            (λ r _, r = Raise JSONDecodeError)) as H.
  { apply move_session_resolved; [done| |].
    { change (get_project_dir source_path) with [encode_path source_path].
      rewrite Hs. eauto. }
    intros w1 Hsame _.
    apply wp_bind. unfold locate_session. apply wp_bind.
    eapply wp_mono.
    { apply (load_malformed _ _ _ b); [|done].
      change (get_project_dir source_path </> "sessions-index.json")
        with [encode_path source_path; "sessions-index.json"].
      by rewrite Hsame. }
    by intros r w2 (-> & _). }
  split; [exists JSONDecodeError; split; [exact H|done]|].
  pose proof (move_session_uncaught_early E sid source_path dest_path dry_run
                verbose t) as Hearly.
  unfold wp in H, Hearly. by apply (Hearly JSONDecodeError).
Qed.


Lemma move_session_exit_lines sid sp dp dry verbose w :
  wp (move_session E sid sp dp dry verbose) w
    (λ r w', ∀ c, r = Raise (SystemExit c) →
       last (stdout w') = Some (msg_source_missing E sp)
       ∨ last (stdout w') = Some (msg_not_found sid)
       ∨ last (stdout w') = Some (msg_duplicate sid)
       ∨ last (stdout w') = Some (Text "Rollback complete. Source files preserved.")
       ∨ last (stdout w') = Some (Text "Manual intervention may be required.")).
Proof.
  unfold move_session.
  apply wp_bind. eapply wp_mono; [apply resolve_directories_sound|].
  intros [[]|e] w1 (_ & H1); cbn beta iota; cycle 1.
  { destruct H1 as (_ & _ & H1). intros c [= ->]. left. by apply (H1 c). }
  apply wp_bind. eapply wp_mono; [apply locate_session_sound|].
  intros [x|e] w2 (_ & _ & H2); cbn beta iota; cycle 1.
  { intros c [= ->]. destruct (H2 c eq_refl) as [_ [?|[? _]]]; auto. }
  apply wp_after_caught; [apply caught_stage| |intros e w3 He c [= ->]; done].
  intros new w3. destruct dry.
  - eapply wp_mono; [apply caught_dry_run_report|].
    intros [[]|e] w4 H4 c; [done|]. by intros [= ->].
  - apply wp_try. eapply wp_mono; [apply caught_migrate|].
    intros [[]|e] w4 H4; [done|]. rewrite H4.
    eapply wp_mono; [apply on_failure_exits|].
    intros r w5 [-> [Hl|Hl]] c _; auto.
Qed.

(** X27. Every exit is explained: whenever [move_session] ends the
    process, the last line it printed is one of its five closing
    messages: the source project directory does not exist, the session
    was not found, the session already exists in the destination, the
    rollback is complete, or manual intervention may be required. *)
Theorem move_session_exit_explained sid source_path dest_path dry_run verbose w c w' :
  move_session E sid source_path dest_path dry_run verbose w
  = (Raise (SystemExit c), w') →
  last (stdout w')
  ∈ [Some (msg_source_missing E source_path);
     Some (msg_not_found sid);
     Some (msg_duplicate sid);
     Some (Text "Rollback complete. Source files preserved.");
     Some (Text "Manual intervention may be required.")].
Proof.
  intros Hrun.
  pose proof (move_session_exit_lines sid source_path dest_path dry_run verbose w)
    as H.
  apply wp_run with (r := Raise (SystemExit c)) (w' := w') in H; [|done].
  rewrite !elem_of_cons. destruct (H c eq_refl) as [?|[?|[?|[?|?]]]]; auto 10.
Qed.

End ErrorPaths.

Lemma move_session_malformed_index_witness :
  let run := move_session reliable "abc123" "/home/alice/app" "/home/alice/app2"
               false false (init broken_tree) in
  ((∀ n, io reliable n = NoFault)
   ∧ "/home/alice/app" ≠ EmptyString
   ∧ lookup_path broken_tree (get_project_dir "/home/alice/app" </> "sessions-index.json")
     = Some (File (Raw "{ not json")))
  ∧ (∃ e, run.1 = Raise e ∧ is_Exception e = true)
  ∧ at_most_mkdir "/home/alice/app2" false broken_tree run.2.
Proof.
  intros run.
  assert (∀ n, io reliable n = NoFault) as H1 by (intros n; reflexivity).
  assert ("/home/alice/app" ≠ EmptyString) as P by discriminate.
  assert (lookup_path broken_tree
            (get_project_dir "/home/alice/app" </> "sessions-index.json")
          = Some (File (Raw "{ not json"))) as H2 by (vm_compute; reflexivity).
  split; [exact (conj H1 (conj P H2))|].
  exact (move_session_malformed_index reliable "abc123" "/home/alice/app"
           "/home/alice/app2" false false broken_tree "{ not json" H1 P H2).
Defined.





Lemma move_session_exit_explained_witness :
  let run := move_session (failing_at 2) "abc123" "/home/alice/app" "/home/alice/app2"
               false false (init app_tree) in
  run = (Raise (SystemExit 1), run.2)
  ∧ last (stdout run.2)
    ∈ [Some (msg_source_missing (failing_at 2) "/home/alice/app");
       Some (msg_not_found "abc123");
       Some (msg_duplicate "abc123");
       Some (Text "Rollback complete. Source files preserved.");
       Some (Text "Manual intervention may be required.")].
Proof.
  intros run.
  assert (run = (Raise (SystemExit 1), run.2)) as H by (vm_compute; reflexivity).
  split; [exact H|].
  exact (move_session_exit_explained (failing_at 2) "abc123" "/home/alice/app"
           "/home/alice/app2" false false (init app_tree) 1 run.2 H).
Defined.

(** * A session that is only an index entry *)

Section WithoutLog.

Variable E : env.
Variable s sid : string.

(** From [w] to [w']: lines were only added to the output and, if the
    source project directory [s] held no log file of the session, no
    project directory holds more or less under that name than before. *)
Definition kept (w w' : world) : Prop :=
  (∃ out, stdout w' = (stdout w ++ out)%list)
  ∧ (lookup_path (fs w) [s; sid ++ ".jsonl"] = None →
     ∀ c, lookup_path (fs w') [c; sid ++ ".jsonl"]
          = lookup_path (fs w) [c; sid ++ ".jsonl"]).

Lemma kept_refl w : kept w w.
Proof. split; [exists []; by rewrite app_nil_r|done]. Qed.

Lemma kept_trans w1 w2 w3 : kept w1 w2 → kept w2 w3 → kept w1 w3.
Proof.
  intros [[o1 H1] F1] [[o2 H2] F2]. split.
  - exists (o1 ++ o2)%list. by rewrite H2, H1, app_assoc.
  - intros Hn c. pose proof (F1 Hn) as F. rewrite F2, F; [done|].
    by rewrite F.
Qed.

Lemma kept_same w w' : stdout w' = stdout w → fs w' = fs w → kept w w'.
Proof.
  intros Ho Hf. split; [exists []; by rewrite app_nil_r|].
  intros _ c. by rewrite Hf.
Qed.

(** A change at a path that cannot be a log file of the session. *)
Lemma kept_update w w' x (a n : string) :
  n ≠ sid ++ ".jsonl" → stdout w' = stdout w →
  fs w' = update_path x (fs w) [a; n] → kept w w'.
Proof.
  intros Hn Ho Hf. split; [exists []; by rewrite app_nil_r|].
  intros _ c. rewrite Hf. apply lookup_update_diverge. simpl.
  destruct (decide (a = c)) as [->|?]; [right; split; [done|by left]|by left].
Qed.

Definition keeping {A} (m : M A) : Prop := ∀ w, wp m w (λ _ w', kept w w').

Lemma keeping_bind {A B} (m : M A) (k : A → M B) :
  keeping m → (∀ a, keeping (k a)) → keeping (bind m k).
Proof.
  intros Hm Hk w. apply wp_bind. eapply wp_mono; [apply Hm|].
  intros [a|e] w1 H1; cbn beta iota; [|done].
  eapply wp_mono; [apply Hk|]. cbn beta. intros _ w2 H2. by eapply kept_trans.
Qed.

Lemma keeping_ret {A} (a : A) : keeping (ret a).
Proof. intros w. apply wp_ret, kept_refl. Qed.

Lemma keeping_lift {A} (o : outcome A) : keeping (lift o).
Proof. intros w. apply wp_lift, kept_refl. Qed.

Lemma keeping_when b m : keeping m → keeping (when b m).
Proof. intros H. destruct b; [done|apply keeping_ret]. Qed.

Lemma keeping_print x : keeping (print x).
Proof.
  intros w. apply wp_print. split; [by eexists|]. intros _ c. done.
Qed.

Lemma keeping_path_exists p : keeping (path_exists p).
Proof. intros w. apply wp_path_exists; intros; apply kept_refl. Qed.

Lemma keeping_save_sessions_index (a : string) j :
  keeping (save_sessions_index E [a] j).
Proof.
  intros w. apply wp_save_sessions_index; wp_simpl.
  - intros _ _. eapply (kept_update _ _ _ a); [apply index_name_not_log|done..].
  - intros _ _. by apply kept_same.
  - intros r _ _. eapply (kept_update _ _ _ a); [apply index_name_not_log|done..].
Qed.

Lemma keeping_copytree src (a : string) : keeping (copytree E src [a; sid]).
Proof.
  assert (∀ w w' t' x, makedirs (Some (fs w)) [a; sid] = Some t' →
            stdout w' = stdout w → fs w' = update_path x t' [a; sid] →
            kept w w') as H.
  { intros w w' t' x Hm Ho Hf. split; [exists []; by rewrite app_nil_r|].
    intros _ c. rewrite Hf.
    assert (diverge [a; sid] [c; sid ++ ".jsonl"]) as Hd.
    { simpl. destruct (decide (a = c)) as [->|?]; [|by left].
      right. split; [done|]. left. apply subdir_name_not_log. }
    rewrite lookup_update_diverge by done. by eapply makedirs_diverge. }
  intros w. apply wp_copytree; wp_simpl.
  - intros ch t' _ (_ & _ & Hm). by eapply H.
  - intros _ _. by apply kept_same.
  - intros res ch t' _ (_ & _ & Hm). by eapply H.
Qed.

Lemma keeping_rmtree (a : string) : keeping (rmtree E [a; sid]).
Proof.
  intros w. apply wp_rmtree; wp_simpl.
  - intros ch _ _. eapply (kept_update _ _ _ a); [apply subdir_name_not_log|done..].
  - intros _ _. by apply kept_same.
  - intros res ch _ _.
    eapply (kept_update _ _ _ a); [apply subdir_name_not_log|done..].
Qed.

(** Deleting the source log file: nothing is deleted if there is none. *)
Lemma keeping_unlink_log : keeping (unlink E [s; sid ++ ".jsonl"]).
Proof.
  intros w. apply wp_unlink; wp_simpl.
  - intros c _ Hc. split; [exists []; by rewrite app_nil_r|]. wp_simpl.
    intros Hn. congruence.
  - intros _ _. by apply kept_same.
Qed.

Definition msg_no_log : line :=
  Text ("Warning: Source JSONL does not exist: "
        ++ str_path E [s; sid ++ ".jsonl"]).

(** The migration of a session without a log file in the source warns
    about it and, whether it completes or fails, neither makes nor
    removes a file under the log file's name. *)
Lemma migrate_without_log sp dp verbose (d : string) si di idx new w :
  lookup_path (fs w) [s; sid ++ ".jsonl"] = None →
  wp (migrate E sid sp dp verbose [s] [d] [s; sid ++ ".jsonl"] [d; sid ++ ".jsonl"]
        [s; sid] [d; sid] si di idx new) w
    (λ _ w', msg_no_log ∈ stdout w'
             ∧ ∀ c, lookup_path (fs w') [c; sid ++ ".jsonl"]
                    = lookup_path (fs w) [c; sid ++ ".jsonl"]).
Proof.
  intros Hn. unfold migrate.
  apply wp_bind. unfold copy_jsonl. apply wp_bind. wp_call; [congruence|].
  intros _. apply wp_print.
  set (w1 := {| fs := fs w; ticks := ticks w; calls := calls w;
                stdout := (stdout w ++ _)%list; trace := trace w |}).
  assert (∀ w', kept w1 w' →
            msg_no_log ∈ stdout w'
            ∧ ∀ c, lookup_path (fs w') [c; sid ++ ".jsonl"]
                   = lookup_path (fs w) [c; sid ++ ".jsonl"]) as Hk.
  { intros w' [[out Ho] Hf]. split.
    - rewrite Ho. subst w1. cbn [stdout]. unfold msg_no_log.
      rewrite !elem_of_app, list_elem_of_singleton. auto.
    - apply (Hf Hn). }
  assert (∀ A (m : M A), keeping m → wp m w1 (λ _ w', kept w1 w')) as Hrun
    by (intros A m Hm; apply Hm).
  eapply wp_mono; [apply Hrun|intros r w' H; by apply Hk].
  unfold copy_subdir, add_to_dest_index, remove_from_source_index,
    delete_source_files.
  repeat
    lazymatch goal with
    | |- keeping (bind _ _) => apply keeping_bind; [|intros ?]
    | |- keeping (when _ _) => apply keeping_when
    | |- keeping (path_exists _ ) => apply keeping_path_exists
    | |- keeping (print _) => apply keeping_print
    | |- keeping (lift _) => apply keeping_lift
    | |- keeping (ret _) => apply keeping_ret
    | |- keeping (save_sessions_index _ _ _) => apply keeping_save_sessions_index
    | |- keeping (copytree _ _ _) => apply keeping_copytree
    | |- keeping (unlink _ _) => apply keeping_unlink_log
    | |- keeping (rmtree _ _) => apply keeping_rmtree
    | |- keeping (match ?x with _ => _ end) => destruct x
    end.
Qed.

End WithoutLog.

Section OrphanEntry.

Variable E : env.

Lemma move_session_without_log_wp sid sp dp verbose t :
  lookup_path t (get_project_dir sp </> (sid ++ ".jsonl")) = None →
  wp (move_session E sid sp dp false verbose) (init t)
    (λ r w', r = Ok tt →
       msg_no_log E (encode_path sp) sid ∈ stdout w'
       ∧ ∀ c, lookup_path (fs w') [c; sid ++ ".jsonl"]
              = lookup_path t [c; sid ++ ".jsonl"]).
Proof.
  intros Hn. unfold move_session.
  change (get_project_dir sp) with [encode_path sp] in *.
  change (get_project_dir dp) with [encode_path dp] in *.
  set (s := encode_path sp) in *. set (d := encode_path dp) in *.
  change ([s] </> (sid ++ ".jsonl")) with [s; sid ++ ".jsonl"] in *.
  change ([d] </> (sid ++ ".jsonl")) with [d; sid ++ ".jsonl"].
  change ([s] </> sid) with [s; sid]. change ([d] </> sid) with [d; sid].
  apply wp_bind. eapply wp_mono; [apply resolve_directories_sound|].
  intros [[]|e] w1 (_ & H1); cbn beta iota; [|done].
  destruct H1 as (_ & Hframe). unfold init in Hframe.
  cbn [fs trace calls] in Hframe.
  change (get_project_dir dp) with [d] in Hframe.
  assert (∀ a n, lookup_path (fs w1) [a; n] = lookup_path t [a; n]) as Hsame.
  { intros a n.
    destruct Hframe as [(-> & _)|(_ & Hd & _ & -> & _)]; [done|].
    by apply mkdir_keeps_entries. }
  apply wp_bind. eapply wp_mono; [apply locate_session_sound|].
  intros [x|e] w2 (Hfs2 & _); cbn beta iota; [|done].
  apply wp_bind. eapply wp_mono; [apply stage_sound|].
  intros [new|e] w3 (Hfs3 & _); cbn beta iota; [|done].
  apply wp_try. eapply wp_mono.
  { apply (migrate_without_log E s sid). by rewrite Hfs3, Hfs2, Hsame. }
  intros [[]|e] w4 (Hw & Hf); cbn beta iota.
  - intros _. split; [done|]. intros c. by rewrite Hf, Hfs3, Hfs2, Hsame.
  - destruct (is_Exception e); [|done]. unfold wp.
    destruct (on_failure E sid [d] [d; sid ++ ".jsonl"] [d; sid] e w4)
      as [r w5] eqn:Hrun. cbn [fst snd]. intros ->.
    by apply on_failure_not_ok in Hrun.
Qed.

(** X28. A session that is in the index but has no log file is moved
    all the same, with a warning. For a session identifier that is a
    plain file name and project paths that are not empty: if the
    call (not a dry run) returns normally and the source project
    directory held no log file of the session, the line ["Warning: Source
    JSONL does not exist: ..."] was printed, and no log file was made:
    under every project directory the session's log file name holds what
    it held before. *)
Theorem move_session_without_log sid source_path dest_path verbose t w' :
  plain_name sid = true →
  source_path ≠ EmptyString → dest_path ≠ EmptyString →
  move_session E sid source_path dest_path false verbose (init t) = (Ok tt, w') →
  lookup_path t (get_project_dir source_path </> (sid ++ ".jsonl")) = None →
  Text ("Warning: Source JSONL does not exist: "
        ++ str_path E (get_project_dir source_path </> (sid ++ ".jsonl")))
  ∈ stdout w'
  ∧ ∀ c, lookup_path (fs w') [c; sid ++ ".jsonl"]
         = lookup_path t [c; sid ++ ".jsonl"].
Proof.
  intros _ _ _ Hrun Hn.
  pose proof (move_session_without_log_wp sid source_path dest_path verbose t Hn)
    as H.
  apply wp_run with (r := Ok tt) (w' := w') in H; [|done]. by apply H.
Qed.

End OrphanEntry.

(** A project whose index lists a session of which no file is left. *)
Definition orphan_tree : node :=
  Dir {[ "-home-alice-app" :=
           Dir {[ "sessions-index.json" := File (Doc app_index) ]} ]}.

Lemma move_session_without_log_witness :
  let run := move_session reliable "abc123" "/home/alice/app" "/home/alice/app2"
               false false (init orphan_tree) in
  (plain_name "abc123" = true
   ∧ "/home/alice/app" ≠ EmptyString ∧ "/home/alice/app2" ≠ EmptyString
   ∧ run = (Ok tt, run.2)
   ∧ lookup_path orphan_tree (get_project_dir "/home/alice/app" </> ("abc123" ++ ".jsonl"))
     = None)
  ∧ Text ("Warning: Source JSONL does not exist: "
          ++ str_path reliable
               (get_project_dir "/home/alice/app" </> ("abc123" ++ ".jsonl")))
    ∈ stdout run.2
  ∧ ∀ c, lookup_path (fs run.2) [c; "abc123" ++ ".jsonl"]
         = lookup_path orphan_tree [c; "abc123" ++ ".jsonl"].
Proof.
  intros run.
  assert (plain_name "abc123" = true) as P1 by reflexivity.
  assert ("/home/alice/app" ≠ EmptyString) as P2 by discriminate.
  assert ("/home/alice/app2" ≠ EmptyString) as P3 by discriminate.
  assert (run = (Ok tt, run.2)) as H1 by (vm_compute; reflexivity).
  assert (lookup_path orphan_tree
            (get_project_dir "/home/alice/app" </> ("abc123" ++ ".jsonl")) = None)
    as H2 by (vm_compute; reflexivity).
  split; [exact (conj P1 (conj P2 (conj P3 (conj H1 H2))))|].
  exact (move_session_without_log reliable "abc123" "/home/alice/app"
           "/home/alice/app2" false orphan_tree run.2 P1 P2 P3 H1 H2).
Defined.
